(** * A shallow embedding of [llm_filter.py]

    The classification pipeline of the paper scraper: the verdict extractor
    ([extract_conclusion]), the prompt builder (the chain of [str.replace]
    calls in [main]), the classification driver (the loop of [main] with its
    line-per-record log and final report) and the topic filter/exporter
    ([extract_papers_of_topic]); then [main] as a whole, from the prompt for
    the topic and the loading of the paper list to the export, the run with
    [--only_filter_topic], and [json.loads] beside [json.dumps].

    Python strings are sequences of Unicode code points; they are modelled as
    lists of code points.  The two Unicode tables the code consults through
    [re] and [int] on non-ASCII code points (alphanumeric, decimal digit) are
    section variables; everything on ASCII is written out. *)

From Stdlib Require Import ZArith NArith List Bool Ascii String Lia.
From stdpp Require Import base option list gmap.

Import ListNotations.
Set Warnings "-register-all".
Local Open Scope N_scope.
Local Open Scope list_scope.

(** ** Strings *)

Definition char := N.
Definition str := list char.

(** An ASCII literal as a Python string. *)
Definition u (s : string) : str := map N_of_ascii (list_ascii_of_string s).

Definition nl : char := 10.
Definition dq : char := 34.

(** Text given line by line, each line ended by a newline. *)
Definition lines (ls : list str) : str := concat (map (fun l => l ++ [nl]) ls).

Definition str_eqb (a b : str) : bool := bool_decide (a = b).

(** [Py_UNICODE_ISSPACE]: the code points [str.isspace], [str.strip], [\s]
    and [int] treat as white space. *)
Definition is_space (c : char) : bool :=
  (9 <=? c) && (c <=? 13) || (28 <=? c) && (c <=? 32)
  || (c =? 133) || (c =? 160) || (c =? 5760)
  || (8192 <=? c) && (c <=? 8202)
  || (c =? 8232) || (c =? 8233) || (c =? 8239) || (c =? 8287) || (c =? 12288).

Definition is_ascii_digit (c : char) : bool := (48 <=? c) && (c <=? 57).
Definition is_ascii_upper (c : char) : bool := (65 <=? c) && (c <=? 90).
Definition is_ascii_lower (c : char) : bool := (97 <=? c) && (c <=? 122).
Definition is_ascii_alnum (c : char) : bool :=
  is_ascii_digit c || is_ascii_upper c || is_ascii_lower c.

(** The texts UTF-8 encodes: those without a surrogate code point.  A file
    opened with [encoding='utf-8'] takes no other text. *)
Definition is_surrogate (c : char) : bool := (55296 <=? c) && (c <=? 57343).
Definition encodable (s : str) : bool :=
  forallb (fun c => negb (is_surrogate c)) s.

(** [s.startswith(p)], giving the rest of [s] after [p]. *)
Fixpoint strip_prefix (p s : str) : option str :=
  match p with
  | [] => Some s
  | a :: p' =>
      match s with
      | [] => None
      | b :: s' => if a =? b then strip_prefix p' s' else None
      end
  end.

(** [s.replace(old, new)]: every non-overlapping occurrence of [old], found
    left to right, is replaced by [new].  [skip] counts the code points of
    the occurrence just replaced that are still to be passed over.  For an
    empty [old] Python puts [new] before every code point and at the end. *)
Fixpoint replace_from (old new : str) (skip : nat) (s : str) : str :=
  match s with
  | [] => []
  | c :: s' =>
      match skip with
      | S n => replace_from old new n s'
      | O =>
          match strip_prefix old s with
          | Some _ => new ++ replace_from old new (length old - 1) s'
          | None => c :: replace_from old new 0 s'
          end
      end
  end.

Definition replace (old new s : str) : str :=
  match old with
  | [] => new ++ concat (map (fun c => c :: new) s)
  | _ => replace_from old new 0 s
  end.

(** [s.strip()] *)
Fixpoint drop_spaces (s : str) : str :=
  match s with
  | c :: s' => if is_space c then drop_spaces s' else s
  | [] => []
  end.

Definition lstrip (s : str) : str := drop_spaces s.
Definition rstrip (s : str) : str := rev (drop_spaces (rev s)).
Definition strip (s : str) : str := rstrip (lstrip s).

(** [s.split(sep)] for a one-code-point separator: always at least one
    field. *)
Fixpoint split_on (sep : char) (s : str) : list str :=
  match s with
  | [] => [[]]
  | c :: s' =>
      if c =? sep then [] :: split_on sep s'
      else match split_on sep s' with
           | f :: fs => (c :: f) :: fs
           | [] => [[c]]
           end
  end.

(** ** Python values

    The values that flow through the pipeline: what [json.loads] yields
    (floats apart), what the judge returns and what the records hold.  A
    [dict] keeps its items in insertion order. *)

Inductive pyval :=
| PNone
| PBool (b : bool)
| PInt (z : Z)
| PStr (s : str)
| PList (l : list pyval)
| PDict (d : list (str * pyval)).

(** [d.get(key, None)] *)
Fixpoint dict_get (d : list (str * pyval)) (key : str) : pyval :=
  match d with
  | [] => PNone
  | (k, v) :: d' => if str_eqb k key then v else dict_get d' key
  end.

(** Truth value of an object, as [not x] tests it. *)
Definition truthy (v : pyval) : bool :=
  match v with
  | PNone => false
  | PBool b => b
  | PInt z => negb (z =? 0)%Z
  | PStr s => negb (str_eqb s [])
  | PList l => match l with [] => false | _ => true end
  | PDict d => match d with [] => false | _ => true end
  end.

Definition isinstance_str (v : pyval) : bool :=
  match v with PStr _ => true | _ => false end.

(** ** [json.dumps]

    [json.dumps(v, ensure_ascii=False)] and
    [json.dumps(v, ensure_ascii=False, indent=4)]. *)

Fixpoint digits_of (fuel : nat) (n : N) (acc : str) : str :=
  match fuel with
  | O => acc
  | S fuel' =>
      let acc' := (48 + n mod 10) :: acc in
      if n <? 10 then acc' else digits_of fuel' (n / 10) acc'
  end.

Definition str_of_N (n : N) : str := digits_of (S (N.to_nat (N.log2 n))) n [].

(** [str(z)] for an [int]. *)
Definition str_of_Z (z : Z) : str :=
  if (z <? 0)%Z then 45 :: str_of_N (Z.abs_N z) else str_of_N (Z.to_N z).

Definition hex_digit (n : N) : char := if n <? 10 then 48 + n else 87 + n.

(** The escapes of [json.encoder.ESCAPE_DCT]. *)
Definition escape_char (c : char) : str :=
  if c =? 34 then [92; 34]
  else if c =? 92 then [92; 92]
  else if c =? 10 then [92; 110]
  else if c =? 13 then [92; 114]
  else if c =? 9 then [92; 116]
  else if c =? 8 then [92; 98]
  else if c =? 12 then [92; 102]
  else if c <? 32 then [92; 117; 48; 48; hex_digit (c / 16); hex_digit (c mod 16)]
  else [c].

Definition encode_basestring (s : str) : str :=
  dq :: concat (map escape_char s) ++ [dq].

Fixpoint join (sep : str) (parts : list str) : str :=
  match parts with
  | [] => []
  | [p] => p
  | p :: ps => p ++ sep ++ join sep ps
  end.

(** A line break and the indentation of a nesting level, when [indent] is
    given. *)
Definition newline_indent (indent : option nat) (level : nat) : str :=
  match indent with
  | Some n => nl :: repeat 32 (n * level)
  | None => []
  end.

Definition item_separator (indent : option nat) (level : nat) : str :=
  match indent with
  | Some _ => 44 :: newline_indent indent level
  | None => u ", "
  end.

Fixpoint dumps_at (indent : option nat) (level : nat) (v : pyval) : str :=
  match v with
  | PNone => u "null"
  | PBool true => u "true"
  | PBool false => u "false"
  | PInt z => str_of_Z z
  | PStr s => encode_basestring s
  | PList [] => u "[]"
  | PList l =>
      [91] ++ newline_indent indent (S level)
      ++ join (item_separator indent (S level))
           (map (dumps_at indent (S level)) l)
      ++ newline_indent indent level ++ [93]
  | PDict [] => u "{}"
  | PDict d =>
      [123] ++ newline_indent indent (S level)
      ++ join (item_separator indent (S level))
           (map (fun kv => encode_basestring (fst kv) ++ u ": "
                           ++ dumps_at indent (S level) (snd kv)) d)
      ++ newline_indent indent level ++ [125]
  end.

Definition json_dumps (v : pyval) : str := dumps_at None 0 v.
Definition json_dumps_indent4 (v : pyval) : str := dumps_at (Some 4%nat) 0 v.

(** ** [json.loads]

    The decoder of the [json] module (its accelerated scanner, for which a
    digit is an ASCII digit) on the values of the model: strings with their
    escapes, integers, [true], [false], [null], arrays and objects, with
    white space between the tokens.  A number with a fraction
    or an exponent, [NaN] and [Infinity] are floats, which the model does
    not have; they are reported as such.  The limit on the digits of an
    integer and the limit on nesting are left out. *)

Definition is_json_ws (c : char) : bool :=
  (c =? 32) || (c =? 9) || (c =? 10) || (c =? 13).

Fixpoint skip_ws (s : str) : str :=
  match s with
  | c :: s' => if is_json_ws c then skip_ws s' else s
  | [] => []
  end.

Definition hex_value (c : char) : option N :=
  if is_ascii_digit c then Some (c - 48)
  else if (97 <=? c) && (c <=? 102) then Some (c - 87)
  else if (65 <=? c) && (c <=? 70) then Some (c - 55)
  else None.

(** The four hexadecimal digits of a [\uXXXX] escape. *)
Definition decode_uXXXX (a b c d : char) : option N :=
  match hex_value a, hex_value b, hex_value c, hex_value d with
  | Some x, Some y, Some z, Some t => Some (((x * 16 + y) * 16 + z) * 16 + t)
  | _, _, _, _ => None
  end.

(** The one-letter escapes ([BACKSLASH]). *)
Definition unescape (c : char) : option char :=
  if c =? 34 then Some 34
  else if c =? 92 then Some 92
  else if c =? 47 then Some 47
  else if c =? 98 then Some 8
  else if c =? 102 then Some 12
  else if c =? 110 then Some 10
  else if c =? 114 then Some 13
  else if c =? 116 then Some 9
  else None.

Definition push (c : char) (r : option (str * str)) : option (str * str) :=
  match r with
  | Some (t, rest) => Some (c :: t, rest)
  | None => None
  end.

(** [scanstring]: the text after an opening quote, up to the closing one;
    the string and what follows it.  [None] stands for [JSONDecodeError]:
    no closing quote, a raw control character, a bad escape. *)
Fixpoint scanstring (s : str) : option (str * str) :=
  match s with
  | [] => None
  | c :: s1 =>
      if c =? 34 then Some ([], s1)
      else if c =? 92 then
        match s1 with
        | [] => None
        | esc :: s2 =>
            if esc =? 117 then
              match s2 with
              | h1 :: h2 :: h3 :: h4 :: s3 =>
                  match decode_uXXXX h1 h2 h3 h4 with
                  | Some uni =>
                      let plain := push uni (scanstring s3) in
                      if (55296 <=? uni) && (uni <=? 56319) then
                        match s3 with
                        | b1 :: u1 :: s3' =>
                            if (b1 =? 92) && (u1 =? 117) then
                              match s3' with
                              | l1 :: l2 :: l3 :: l4 :: s4 =>
                                  match decode_uXXXX l1 l2 l3 l4 with
                                  | Some uni2 =>
                                      if (56320 <=? uni2) && (uni2 <=? 57343)
                                      then push (65536 + ((uni - 55296) * 1024
                                                          + (uni2 - 56320)))
                                             (scanstring s4)
                                      else plain
                                  | None => None
                                  end
                              | _ => None
                              end
                            else plain
                        | _ => plain
                        end
                      else plain
                  | None => None
                  end
              | _ => None
              end
            else
              match unescape esc with
              | Some d => push d (scanstring s2)
              | None => None
              end
        end
      else if c <? 32 then None
      else push c (scanstring s1)
  end.

(** The longest run of ASCII digits at the head of a text, and the rest. *)
Fixpoint span_digits (s : str) : str * str :=
  match s with
  | c :: s' =>
      if is_ascii_digit c
      then (c :: fst (span_digits s'), snd (span_digits s'))
      else ([], s)
  | [] => ([], [])
  end.

Definition digits_N (d : str) : N :=
  fold_left (fun acc c => 10 * acc + (c - 48)) d 0.

(** The integer part of a number (an optional minus sign, then a single 0
    or a digit from 1 to 9 followed by digits): its sign, its digits and
    the rest of the text. *)
Definition match_integer (s : str) : option (bool * str * str) :=
  let signed :=
    match s with
    | c :: b => if c =? 45 then (true, b) else (false, s)
    | [] => (false, s)
    end in
  match snd signed with
  | c :: b =>
      if c =? 48 then Some (fst signed, [c], b)
      else if is_ascii_digit c
      then Some (fst signed, c :: fst (span_digits b), snd (span_digits b))
      else None
  | [] => None
  end.

(** Does a fraction (a dot and a digit) start here? *)
Definition has_fraction (s : str) : bool :=
  match s with
  | p :: c :: _ => (p =? 46) && is_ascii_digit c
  | _ => false
  end.

(** Does an exponent (e or E, an optional sign, a digit) start here? *)
Definition has_exponent (s : str) : bool :=
  match s with
  | e :: t =>
      ((e =? 101) || (e =? 69))
      && match t with
         | g :: t' =>
             is_ascii_digit g
             || ((g =? 43) || (g =? 45))
                && match t' with c :: _ => is_ascii_digit c | [] => false end
         | [] => false
         end
  | [] => false
  end.

(** What scanning a value gives: the value and the rest of the text; a
    text that is not JSON; a float, which the model does not have; or the
    bound on the recursion reached. *)
Inductive scanned :=
| Value (v : pyval) (rest : str)
| Invalid
| IsFloat
| TooDeep.

Definition is_prefix (p s : str) : bool :=
  match strip_prefix p s with Some _ => true | None => false end.

Definition scan_number (s : str) : scanned :=
  match match_integer s with
  | Some (neg, d, rest) =>
      if has_fraction rest || has_exponent rest then IsFloat
      else Value (PInt (if neg : bool then - Z.of_N (digits_N d)
                        else Z.of_N (digits_N d))%Z) rest
  | None =>
      if is_prefix (u "NaN") s || is_prefix (u "Infinity") s
         || is_prefix (u "-Infinity") s
      then IsFloat else Invalid
  end.

Definition scan_word (s : str) : scanned :=
  match strip_prefix (u "null") s with
  | Some rest => Value PNone rest
  | None =>
      match strip_prefix (u "true") s with
      | Some rest => Value (PBool true) rest
      | None =>
          match strip_prefix (u "false") s with
          | Some rest => Value (PBool false) rest
          | None => scan_number s
          end
      end
  end.

(** [d[k] = v] on a dict. *)
Fixpoint dict_set (d : list (str * pyval)) (k : str) (v : pyval)
  : list (str * pyval) :=
  match d with
  | [] => [(k, v)]
  | (k', v') :: d' =>
      if str_eqb k' k then (k', v) :: d' else (k', v') :: dict_set d' k v
  end.

(** [dict(pairs)]: a later pair with the same key replaces the value. *)
Definition dict_of_pairs (pairs : list (str * pyval)) : list (str * pyval) :=
  fold_left (fun d kv => dict_set d (fst kv) (snd kv)) pairs [].

(** [scan_once], with the loops of [JSONArray] ([scan_items], at the start
    of an item) and of [JSONObject] ([scan_pairs], after the opening quote
    of a key).  [fuel] bounds the calls. *)
Fixpoint scan_once (fuel : nat) (s : str) : scanned :=
  match fuel with
  | O => TooDeep
  | S fuel' =>
      match s with
      | [] => Invalid
      | c :: s1 =>
          if c =? 34 then
            match scanstring s1 with
            | Some (t, rest) => Value (PStr t) rest
            | None => Invalid
            end
          else if c =? 123 then
            match skip_ws s1 with
            | q :: s2 =>
                if q =? 125 then Value (PDict []) s2
                else if q =? 34 then scan_pairs fuel' s2 []
                else Invalid
            | [] => Invalid
            end
          else if c =? 91 then
            match skip_ws s1 with
            | q :: s2 =>
                if q =? 93 then Value (PList []) s2
                else scan_items fuel' (q :: s2) []
            | [] => Invalid
            end
          else scan_word s
      end
  end
with scan_items (fuel : nat) (s : str) (acc : list pyval) : scanned :=
  match fuel with
  | O => TooDeep
  | S fuel' =>
      match scan_once fuel' s with
      | Value v rest =>
          match skip_ws rest with
          | q :: r =>
              if q =? 93 then Value (PList (rev (v :: acc))) r
              else if q =? 44 then scan_items fuel' (skip_ws r) (v :: acc)
              else Invalid
          | [] => Invalid
          end
      | other => other
      end
  end
with scan_pairs (fuel : nat) (s : str) (acc : list (str * pyval)) : scanned :=
  match fuel with
  | O => TooDeep
  | S fuel' =>
      match scanstring s with
      | Some (key, rest) =>
          match skip_ws rest with
          | q :: r =>
              if q =? 58 then
                match scan_once fuel' (skip_ws r) with
                | Value v rest' =>
                    match skip_ws rest' with
                    | q' :: r' =>
                        if q' =? 125
                        then Value (PDict (dict_of_pairs (rev ((key, v) :: acc)))) r'
                        else if q' =? 44 then
                          match skip_ws r' with
                          | q'' :: r'' =>
                              if q'' =? 34
                              then scan_pairs fuel' r'' ((key, v) :: acc)
                              else Invalid
                          | [] => Invalid
                          end
                        else Invalid
                    | [] => Invalid
                    end
                | other => other
                end
              else Invalid
          | [] => Invalid
          end
      | None => Invalid
      end
  end.

(** What [json.loads] gives: a value, [JSONDecodeError], or a text with a
    float in it. *)
Inductive loaded :=
| Loaded (v : pyval)
| DecodeError
| HasFloat.

Definition json_loads (s : str) : loaded :=
  match scan_once (2 * length s + 1) (skip_ws s) with
  | Value v rest =>
      match skip_ws rest with
      | [] => Loaded v
      | _ => DecodeError
      end
  | IsFloat => HasFloat
  | Invalid | TooDeep => DecodeError
  end.

(** ** The prompts *)

(** The system message: the fixed instructions to the judge. *)
Definition PPFILTER_SYSPROMPT : str :=
  lines [
    u "You are an expert academic researcher and library scientist. Your task is to classify whether a given research paper belongs to a specific Target Topic/Domain based on its Title, Venue, Year, and Abstract.";
    u "";
    u "### Classification Criteria";
    u "Please evaluate the relevance using the following strict scale:";
    u "";
    u "* **1 (Relevant):** The paper explicitly addresses, contributes to, or heavily relies on the Target Topic. The abstract discusses core concepts, methods, or applications directly related to the topic.";
    u "* **0 (Unsure/insufficient Info):** The abstract is ambiguous, the connection to the topic is extremely tangential, or the paper sits on the boundary. The provided information is not enough to make a definitive " ++ [dq] ++ u "Yes" ++ [dq] ++ u " or " ++ [dq] ++ u "No" ++ [dq] ++ u ".";
    u "* **-1 (Irrelevant):** The paper belongs to a completely different field, or uses the keywords in a context unrelated to the Target Topic (e.g., " ++ [dq] ++ u "Apple" ++ [dq] ++ u " as a fruit vs. " ++ [dq] ++ u "Apple" ++ [dq] ++ u " as a tech company).";
    u "";
    u "### Steps for Analysis";
    u "1.  **Analyze the Target Topic:** Understand the semantic meaning of the provided keywords or description.";
    u "2.  **Analyze the Paper:** Read the Title and Abstract. Check the Venue (Conference/Journal) for context (e.g., a CVPR paper is likely about Computer Vision).";
    u "3.  **Determine Relevance:** Look for semantic alignment, not just keyword matching.";
    u "4.  **Formulate Output:** Generate a brief analysis and the final numeric result.";
    u "";
    u "### Output Format";
    u "You must output the result strictly in the following format (do not use Markdown code blocks, just plain text):";
    u "";
    u "Analysis: [Your brief reasoning here, explaining why it fits or doesn't fit within 1-3 sentences.]";
    u "Result: [Output only one number: -1, 0, or 1]"
  ].

(** The user message template, with its five placeholders. *)
Definition PPFILTER_USRPROMPT : str :=
  lines [
    u "### Target Topic/Domain Description";
    u "{{topic_description}}";
    u "";
    u "### Paper Information";
    u "**Title:** {{paper_title}}";
    u "**Venue & Year:** {{paper_venue}}, {{paper_year}}";
    u "**Abstract:**";
    u "{{paper_abstract}}";
    u "";
    u "---";
    u "Based on the instructions, please provide the Analysis and Result."
  ].

Definition ph_topic : str := u "{{topic_description}}".
Definition ph_title : str := u "{{paper_title}}".
Definition ph_venue : str := u "{{paper_venue}}".
Definition ph_year : str := u "{{paper_year}}".
Definition ph_abstract : str := u "{{paper_abstract}}".

(** ** Inputs of a run *)

(** An entry of the paper list ([ppinfo]); only these two fields are read. *)
Record paper := Paper { title : str; abstract : str }.

(** The command line: [--conf] and [--output] default to [None], [--year]
    to the integer 2025 ([None] here). *)
Record args := Args { conf : option str; year : option str; output : option str }.

(** [str(args.conf)] and [str(args.year)] *)
Definition str_conf (a : args) : str := default (u "None") (conf a).
Definition str_year (a : args) : str := default (u "2025") (year a).

Definition conf_value (a : args) : pyval :=
  match conf a with Some s => PStr s | None => PNone end.
Definition year_value (a : args) : pyval :=
  match year a with Some s => PStr s | None => PInt 2025 end.

(** The prompt builder: the chain of [replace] calls on the template. *)
Definition build_user (topic_desc : str) (a : args) (ppinfo : paper) : str :=
  replace ph_abstract (abstract ppinfo)
    (replace ph_year (str_year a)
       (replace ph_venue (str_conf a)
          (replace ph_title (title ppinfo)
             (replace ph_topic topic_desc PPFILTER_USRPROMPT)))).

(** The header record, element 0 of the report. *)
Definition header (topic_desc : str) (a : args) : pyval :=
  PDict [(u "topic_desc", PStr topic_desc);
         (u "venue", conf_value a);
         (u "year", year_value a)].

(** [output] and [output_jsonl] *)
Definition output_path (a : args) (run_time : str) : str :=
  match output a with
  | Some o => o
  | None =>
      u "detailed_filterd_papers_" ++ str_conf a ++ u "_" ++ str_year a
      ++ u "_" ++ run_time ++ u ".json"
  end.

Definition output_jsonl_path (a : args) (run_time : str) : str :=
  output_path a run_time ++ u "l".

Definition approved_path (a : args) (run_time : str) : str :=
  u "papers_to_read_" ++ str_conf a ++ u "_" ++ str_year a ++ u "_"
  ++ run_time ++ u ".json".

(** ** The world: files and the operator's answers

    A computation reads and changes the files and consumes the lines the
    operator types; it ends normally, by an exception, or never (a prompt
    that is repeated for ever).  What is printed is left out. *)

Record world := World { files : gmap str str; answers : list str }.

Inductive exn :=
| JudgeError
| OSError
| FileNotFoundError
| AttributeError
| TypeError
| UnicodeEncodeError.

Inductive outcome (A : Type) :=
| Done (a : A)
| Raised (e : exn)
| Hangs.
Arguments Done {A} a.
Arguments Raised {A} e.
Arguments Hangs {A}.

Definition M (A : Type) : Type := world -> outcome A * world.

Definition ret {A} (a : A) : M A := fun w => (Done a, w).
Definition raise {A} (e : exn) : M A := fun w => (Raised e, w).
Definition bind {A B} (m : M A) (f : A -> M B) : M B :=
  fun w =>
    match m w with
    | (Done a, w') => f a w'
    | (Raised e, w') => (Raised e, w')
    | (Hangs, w') => (Hangs, w')
    end.

Notation "'let!' x ':=' m 'in' k" := (bind m (fun x => k))
  (at level 10, x name, m at level 100, k at level 200).
Notation "m ';;' k" := (bind m (fun _ => k))
  (at level 100, k at level 200, right associativity).

Definition set_file (path data : str) (w : world) : world :=
  World (<[path := data]> (files w)) (answers w).

(** [os.path.exists(path)] *)
Definition path_exists (path : str) : M bool :=
  fun w => (Done (bool_decide (is_Some (files w !! path))), w).

(** [os.remove(path)] *)
Definition os_remove (path : str) : M unit :=
  fun w =>
    match files w !! path with
    | Some _ => (Done tt, World (delete path (files w)) (answers w))
    | None => (Raised FileNotFoundError, w)
    end.

(** How the operating system lets the writing of a whole file go: well;
    [open] raises and the file is as before; or the file is opened (and
    emptied) and the write raises, leaving some of the text. *)
Inductive write_fault :=
| NoFault
| OpenFails
| WriteFails (partial : str).

(** [with open(path, 'w', encoding='utf-8') as f: f.write(data)].  The file
    is emptied when it is opened; [f.write] encodes the whole text before
    anything is written, and raises [UnicodeEncodeError] on a text with a
    surrogate, which leaves the file empty. *)
Definition write_file (fault : write_fault) (path data : str) : M unit :=
  fun w =>
    match fault with
    | OpenFails => (Raised OSError, w)
    | NoFault =>
        if encodable data then (Done tt, set_file path data w)
        else (Raised UnicodeEncodeError, set_file path [] w)
    | WriteFails partial =>
        if encodable data then (Raised OSError, set_file path partial w)
        else (Raised UnicodeEncodeError, set_file path [] w)
    end.

(** [with open(path, "a" if os.path.exists(path) else "w",
    encoding='utf-8') as f: f.write(data)].  A text with a surrogate makes
    [f.write] raise [UnicodeEncodeError]: the file is then as it was, or
    newly made and empty. *)
Definition append_file (path data : str) : M unit :=
  let! there := path_exists path in
  fun w =>
    if encodable data then
      if there : bool
      then (Done tt, set_file path (default [] (files w !! path) ++ data) w)
      else (Done tt, set_file path data w)
    else
      (Raised UnicodeEncodeError,
       if there : bool then w else set_file path [] w).

(** What a run meets outside the program: the judge's answer to the
    [i]-th call ([None]: the call raises, or the run is cut short there),
    and how the operating system lets the write of the final report go.
    The writes to the line log and to the export meet no such failure
    here. *)
Record env := Env {
  judge : nat -> str -> str -> option pyval;
  final_fault : write_fault
}.

(** ** Regular expressions

    The fragment of [re] that [extract_conclusion] uses, matched the way
    [re] matches: by backtracking, alternatives and repetitions tried in
    priority order, with one capturing group. *)

Inductive regex :=
| Eps
| Lit (c : char)
| Space
| OneOf (cs : list char)
| Seq (r1 r2 : regex)
| Alt (r1 r2 : regex)
| Star (r : regex)
| Opt (r : regex)
| Group (r : regex)
| WordB.

(** A position in the subject: the code point before it, the text from it
    on, and the text captured by the group so far. *)
Record mstate := MState { before : option char; rest : str; cap : option str }.

Definition advance (c : char) (s : str) (st : mstate) : mstate :=
  MState (Some c) s (cap st).

Definition set_cap (g : str) (st : mstate) : mstate :=
  MState (before st) (rest st) (Some g).

(** The code points a literal matches under [re.IGNORECASE] on [str]
    patterns: for an ASCII letter those whose lower case is the literal's,
    and the extra equivalents [re] knows for [i], [k] and [s]; any other
    literal matches itself (the pattern below has no cased letter outside
    ASCII). *)
Definition ignorecase_class (c : char) : list char :=
  let lo := if is_ascii_upper c then c + 32 else c in
  if is_ascii_lower lo then
    [lo; lo - 32] ++
    (if lo =? 105 then [304; 305]
     else if lo =? 107 then [8490]
     else if lo =? 115 then [383]
     else [])
  else [c].

Definition mem_char (c : char) (cs : list char) : bool := existsb (N.eqb c) cs.

Definition lit_match (ignorecase : bool) (c x : char) : bool :=
  if ignorecase then mem_char x (ignorecase_class c) else c =? x.

(** ** Sample inputs

    Tables in which no code point above ASCII is alphanumeric or a digit,
    and the inputs of the scenarios the model is run on below. *)

Definition ascii_alnum_only : char -> bool := fun _ => false.
Definition ascii_digits_only : char -> option N := fun _ => None.

Definition sample_args : args :=
  Args (Some (u "cvpr")) None (Some (u "out.json")).

(** The command line with [--conf] alone: the file names are the defaults. *)
Definition default_args : args := Args (Some (u "cvpr")) None None.

Definition paper_A : paper := Paper (u "A") (u "x").
Definition paper_B : paper := Paper (u "B") (u "y").

(** A title and an abstract that hold placeholders of earlier calls of the
    chain. *)
Definition paper_braces : paper :=
  Paper (u "On {{topic_description}}")
        (u "{{paper_title}} and {{paper_abstract}}").

(** A title that holds the placeholder of the abstract. *)
Definition paper_nested : paper := Paper (u "{{paper_abstract}}") (u "A").

(** A judge that finds the first paper relevant and the others not. *)
Definition judge_steady (i : nat) (system user : str) : option pyval :=
  Some (PStr (lines [u "Analysis: ..."]
              ++ (if (i =? 0)%nat then u "Result: 1" else u "Result: -1"))).

(** A judge whose replies hold a lone surrogate, and one whose replies do
    from the second call on. *)
Definition judge_surrogate (i : nat) (system user : str) : option pyval :=
  Some (PStr (55357 :: u " Result: 1")).
Definition judge_surrogate_later (i : nat) (system user : str)
  : option pyval :=
  if (i =? 0)%nat then judge_steady i system user
  else judge_surrogate i system user.

(** A judge whose second call fails. *)
Definition judge_cut (i : nat) (system user : str) : option pyval :=
  if (i =? 0)%nat then judge_steady i system user else None.

(** Files left by an earlier run under the same output name. *)
Definition files_of_earlier_run : gmap str str :=
  <[u "out.jsonl" := lines [u "{}"]]> (<[u "out.json" := u "[]"]> ∅).

Definition record_relevant : pyval :=
  PDict [(u "paper_title", PStr (u "A")); (u "is_of_topic", PInt 1)].
Definition record_null : list (str * pyval) :=
  [(u "paper_title", PStr (u "B")); (u "is_of_topic", PNone)].
Definition record_surrogate : pyval :=
  PDict [(u "paper_title", PStr [55357]); (u "is_of_topic", PInt 1)].
Definition record_five : pyval :=
  PDict [(u "paper_title", PStr (u "C")); (u "is_of_topic", PInt 5)].



Definition sample_report : list pyval :=
  [header (u "vision") sample_args; record_relevant; PDict record_null].

Section Unicode.

(** [str.isalnum] on code points above ASCII. *)
Variable uni_alnum : char -> bool.
(** The decimal digit value of a code point above ASCII, if it is a digit. *)
Variable uni_decimal : char -> option N.

(** [\w] on [str] patterns. *)
Definition is_word (c : char) : bool :=
  if c <? 128 then is_ascii_alnum c || (c =? 95) else uni_alnum c.

Definition is_word_at (o : option char) : bool :=
  match o with Some c => is_word c | None => false end.

Definition one (p : char -> bool) (st : mstate) (k : mstate -> option mstate)
  : option mstate :=
  match rest st with
  | x :: xs => if p x then k (advance x xs st) else None
  | [] => None
  end.

Definition or_else (a : option mstate) (b : option mstate) : option mstate :=
  match a with Some r => Some r | None => b end.

(** A greedy repetition of [body]: one more iteration first, the rest of
    the pattern ([k]) when that fails.  An iteration must consume something
    to count, so there are at most as many as code points are left; [fuel]
    bounds them. *)
Definition star_iter (body : mstate -> (mstate -> option mstate) -> option mstate)
  (k : mstate -> option mstate) : nat -> mstate -> option mstate :=
  fix iter (fuel : nat) (st : mstate) : option mstate :=
    match fuel with
    | O => k st
    | S fuel' =>
        or_else
          (body st (fun st1 =>
             if (length (rest st1) <? length (rest st))%nat
             then iter fuel' st1 else None))
          (k st)
    end.

(** [rmatch ic r st k]: match [r] at [st] and go on with [k]; [None] when
    every way of matching fails. *)
Fixpoint rmatch (ic : bool) (r : regex) (st : mstate)
  (k : mstate -> option mstate) : option mstate :=
  match r with
  | Eps => k st
  | Lit c => one (lit_match ic c) st k
  | Space => one is_space st k
  | OneOf cs => one (fun x => existsb (fun c => lit_match ic c x) cs) st k
  | Seq r1 r2 => rmatch ic r1 st (fun st1 => rmatch ic r2 st1 k)
  | Alt r1 r2 => or_else (rmatch ic r1 st k) (rmatch ic r2 st k)
  | Opt r1 => or_else (rmatch ic r1 st k) (k st)
  | Star r1 => star_iter (rmatch ic r1) k (length (rest st)) st
  | Group r1 =>
      rmatch ic r1 st (fun st1 =>
        k (set_cap (take (length (rest st) - length (rest st1)) (rest st)) st1))
  | WordB =>
      if xorb (is_word_at (before st)) (is_word_at (head (rest st)))
      then k st else None
  end.

Definition match_at (ic : bool) (r : regex) (prev : option char) (s : str)
  : option mstate :=
  rmatch ic r (MState prev s None) Some.

(** [re.findall] for a pattern with one group: the group's text for each
    match, scanning left to right, each search resuming where the previous
    match ended.  An empty match is recorded and the scan moves one code
    point on. *)
Fixpoint findall_from (fuel : nat) (ic : bool) (r : regex)
  (prev : option char) (s : str) : list str :=
  match fuel with
  | O => []
  | S fuel' =>
      match match_at ic r prev s with
      | Some st' =>
          let g := default [] (cap st') in
          if (length (rest st') <? length s)%nat
          then g :: findall_from fuel' ic r (before st') (rest st')
          else match s with
               | [] => [g]
               | c :: s' => g :: findall_from fuel' ic r (Some c) s'
               end
      | None =>
          match s with
          | [] => []
          | c :: s' => findall_from fuel' ic r (Some c) s'
          end
      end
  end.

Definition findall (ic : bool) (r : regex) (s : str) : list str :=
  findall_from (S (length s)) ic r None s.

(** *** [int(text)]

    As CPython reads a decimal literal: code points above ASCII become a
    blank (white space), an ASCII digit (decimal digits) or [?]; then blanks,
    an optional sign, digits with single underscores between them, blanks.
    A literal of more than [int_max_str_digits] digits, leading zeros
    counted, is refused (CPython 3.11 and later; 4300 is the default); in
    a literal read to its end the digits of the text are those of the
    literal.  [None] stands for [ValueError]. *)

Definition int_max_str_digits : nat := 4300.

Fixpoint count_digits (s : str) : nat :=
  match s with
  | c :: s' => (if is_ascii_digit c then 1 else 0) + count_digits s'
  | [] => 0
  end.

Definition is_c_space (c : char) : bool := (9 <=? c) && (c <=? 13) || (c =? 32).

Definition to_ascii_decimal (c : char) : char :=
  if c <? 127 then c
  else if is_space c then 32
  else match uni_decimal c with Some d => 48 + d | None => 63 end.

Fixpoint drop_c_spaces (s : str) : str :=
  match s with
  | c :: s' => if is_c_space c then drop_c_spaces s' else s
  | [] => []
  end.

Fixpoint scan_digits (acc : N) (prev : char) (s : str) : option (N * str) :=
  match s with
  | c :: s' =>
      if is_ascii_digit c then scan_digits (10 * acc + (c - 48)) c s'
      else if c =? 95 then
        if prev =? 95 then None else scan_digits acc c s'
      else if prev =? 95 then None else Some (acc, s)
  | [] => if prev =? 95 then None else Some (acc, [])
  end.

Definition py_int (text : str) : option Z :=
  let ascii := map to_ascii_decimal text in
  let s := drop_c_spaces ascii in
  let '(neg, body) :=
    match s with
    | 43 :: b => (false, b)
    | 45 :: b => (true, b)
    | _ => (false, s)
    end in
  match body with
  | c :: _ =>
      if is_ascii_digit c then
        match scan_digits 0 0 body with
        | Some (n, tail) =>
            match drop_c_spaces tail with
            | [] =>
                if (count_digits ascii <=? int_max_str_digits)%nat
                then Some (if neg then (- Z.of_N n)%Z else Z.of_N n)
                else None
            | _ => None
            end
        | None => None
        end
      else None
  | [] => None
  end.

(** ** The verdict extractor *)

Definition seqs (rs : list regex) : regex := foldr Seq Eps rs.
Definition lits (s : str) : regex := seqs (map Lit s).

(** [(?:\*\*|'|`)] *)
Definition markup : regex := Alt (Seq (Lit 42) (Lit 42)) (Alt (Lit 39) (Lit 96)).
(** [-?1|0] *)
Definition value : regex := Alt (Seq (Opt (Lit 45)) (Lit 49)) (Lit 48).

(** [result\s*[:U+FF1A]?\s*(?:\*\*|'|`)*(-?1|0)(?:\*\*|'|`)*\b] *)
Definition pattern : regex :=
  seqs [lits (u "result"); Star Space; Opt (OneOf [58; 65306]); Star Space;
        Star markup; Group value; Star markup; WordB].

Definition verdicts : gset Z := {[ (-1)%Z; 0%Z; 1%Z ]}.

Definition extract_conclusion (llm_output : pyval) : option Z :=
  if negb (truthy llm_output) || negb (isinstance_str llm_output) then None
  else
    match llm_output with
    | PStr text =>
        let matches := findall true pattern text in
        match last matches with
        | Some m =>
            match py_int m with
            | Some val => if bool_decide (val ∈ verdicts) then Some val else None
            | None => None
            end
        | None => None
        end
    | _ => None
    end.

(** ** The classification driver *)

Definition verdict_value (v : option Z) : pyval :=
  match v with Some z => PInt z | None => PNone end.

Definition reply_dict (ppinfo : paper) (reply : pyval) : pyval :=
  PDict [(u "paper_title", PStr (title ppinfo));
         (u "paper_abstract", PStr (abstract ppinfo));
         (u "is_of_topic", verdict_value (extract_conclusion reply));
         (u "llm_analysis", reply)].

(** [client.chat.completions.create(...)] and the reply's content. *)
Definition call_judge (e : env) (i : nat) (system user : str) : M pyval :=
  match judge e i system user with
  | Some reply => ret reply
  | None => raise JudgeError
  end.

(** The [for ppinfo in ppinfo_list] loop; [i] counts the papers done and
    [replies] is the list built so far. *)
Fixpoint classify_loop (e : env) (topic_desc : str) (a : args)
  (output_jsonl : str) (i : nat) (ppinfo_list : list paper)
  (replies : list pyval) : M (list pyval) :=
  match ppinfo_list with
  | [] => ret replies
  | ppinfo :: more =>
      let ppfilter_user := build_user topic_desc a ppinfo in
      let! reply := call_judge e i PPFILTER_SYSPROMPT ppfilter_user in
      let rd := reply_dict ppinfo reply in
      append_file output_jsonl (json_dumps rd ++ [nl]);;
      classify_loop e topic_desc a output_jsonl (S i) more (replies ++ [rd])
  end.

(** [main] from [replies = [...]] to the removal of the line log. *)
Definition classification_driver (e : env) (topic_desc : str) (a : args)
  (run_time : str) (ppinfo_list : list paper) : M (list pyval) :=
  let out := output_path a run_time in
  let output_jsonl := output_jsonl_path a run_time in
  let! replies :=
    classify_loop e topic_desc a output_jsonl 0 ppinfo_list
      [header topic_desc a] in
  write_file (final_fault e) out (json_dumps_indent4 (PList replies));;
  let! written := path_exists out in
  (if written : bool then os_remove output_jsonl else ret tt);;
  ret replies.

(** ** The topic filter and exporter *)

(** [line.lower() == 'n']: only [n] and [N] have the lower case [n]. *)
Definition lower_is_n (line : str) : bool :=
  str_eqb line (u "n") || str_eqb line (u "N").

Fixpoint ints_of (fields : list str) : option (list Z) :=
  match fields with
  | [] => Some []
  | f :: fs =>
      match py_int f with
      | Some z =>
          match ints_of fs with
          | Some zs => Some (z :: zs)
          | None => None
          end
      | None => None
      end
  end.

(** The body of the [try]: the set the operator typed, or [None] when the
    conversion or the assertion raises. *)
Definition read_approved (line : str) : option (gset Z) :=
  match ints_of (split_on 44 (replace (u " ") [] (strip line))) with
  | Some zs =>
      let approved_topics : gset Z := list_to_set zs in
      if bool_decide ((-1)%Z ∈ approved_topics)
         || bool_decide (0%Z ∈ approved_topics)
         || bool_decide (1%Z ∈ approved_topics)
      then Some approved_topics
      else None
  | None => None
  end.

Inductive selection :=
| Declined
| Approved (approved_topics : gset Z)
| Unanswered.

(** The [while flag] loop over the operator's answers; with no answer left
    [input] raises for ever and the loop never ends. *)
Fixpoint ask_approved (lines_typed : list str) : selection * list str :=
  match lines_typed with
  | [] => (Unanswered, [])
  | line :: more =>
      if lower_is_n line then (Declined, more)
      else match read_approved line with
           | Some approved_topics => (Approved approved_topics, more)
           | None => ask_approved more
           end
  end.

(** [topic_result in approved_topics]: an [int] or [bool] is looked up by
    value, a list or dict cannot be hashed. *)
Definition in_approved (v : pyval) (approved_topics : gset Z) : exn + bool :=
  match v with
  | PInt z => inr (bool_decide (z ∈ approved_topics))
  | PBool b => inr (bool_decide ((if b then 1 else 0)%Z ∈ approved_topics))
  | PNone | PStr _ => inr false
  | PList _ | PDict _ => inl TypeError
  end.

Definition is_none (v : pyval) : bool :=
  match v with PNone => true | _ => false end.

(** The [for r in replies] loop, giving [replies_of_topic]. *)
Fixpoint filter_replies (approved_topics : gset Z) (replies : list pyval)
  : exn + list pyval :=
  match replies with
  | [] => inr []
  | r :: more =>
      match r with
      | PDict d =>
          let topic_result := dict_get d (u "is_of_topic") in
          if is_none topic_result then filter_replies approved_topics more
          else
            match in_approved topic_result approved_topics with
            | inl e => inl e
            | inr keep =>
                match filter_replies approved_topics more with
                | inl e => inl e
                | inr kept => inr (if keep then r :: kept else kept)
                end
            end
      | _ => inl AttributeError
      end
  end.

(** [extract_papers_of_topic]: the dialogue, the loop, the write of the
    export (which raises [UnicodeEncodeError], leaving the file empty, on a
    text that cannot be encoded). *)
Definition extract_papers_of_topic (replies : list pyval) (out_path : str)
  : M unit :=
  fun w =>
    match ask_approved (answers w) with
    | (Unanswered, more) => (Hangs, World (files w) more)
    | (Declined, more) => (Done tt, World (files w) more)
    | (Approved approved_topics, more) =>
        match filter_replies approved_topics replies with
        | inl e => (Raised e, World (files w) more)
        | inr replies_of_topic =>
            write_file NoFault out_path
              (json_dumps_indent4 (PList replies_of_topic))
              (World (files w) more)
        end
    end.

(** [main] without [--only_filter_topic], from [replies = [...]] on: the
    driver, then the exporter on the report it built. *)
Definition main (e : env) (topic_desc : str) (a : args)
  (run_time : str) (ppinfo_list : list paper) : M unit :=
  let! replies := classification_driver e topic_desc a run_time ppinfo_list in
  extract_papers_of_topic replies (approved_path a run_time).

(** [for r in replies] on a loaded value: a list gives its items, a dict
    its keys, a string its characters; nothing else can be iterated. *)
Definition iterate (v : pyval) : option (list pyval) :=
  match v with
  | PList l => Some l
  | PDict d => Some (map (fun kv => PStr (fst kv)) d)
  | PStr t => Some (map (fun c => PStr [c]) t)
  | PNone | PBool _ | PInt _ => None
  end.

(** [extract_papers_of_topic] on whatever [json.loads] gave: the dialogue
    comes first, the [for] statement raises then. *)
Definition export_loaded (v : pyval) (out_path : str) : M unit :=
  match iterate v with
  | Some replies => extract_papers_of_topic replies out_path
  | None =>
      fun w =>
        match ask_approved (answers w) with
        | (Unanswered, more) => (Hangs, World (files w) more)
        | (Declined, more) => (Done tt, World (files w) more)
        | (Approved _, more) => (Raised TypeError, World (files w) more)
        end
  end.

(** How a run with [--only_filter_topic] goes: the argument is empty and
    the other branch of [main] runs; the file is not there; its text does
    not load; or the exporter runs on what was loaded. *)
Inductive filter_only_run :=
| OtherBranch
| NoReport
| BadReport (why : loaded)
| Exported (r : outcome unit * world).

Definition filter_only_path (run_time : str) : str :=
  u "papers_to_read_" ++ run_time ++ u ".json".

(** [main] with [--only_filter_topic]. *)
Definition main_only_filter (only_filter_topic run_time : str) (w : world)
  : filter_only_run :=
  match only_filter_topic with
  | [] => OtherBranch
  | _ =>
      match files w !! only_filter_topic with
      | None => NoReport
      | Some text =>
          match json_loads text with
          | Loaded replies =>
              Exported (export_loaded replies (filter_only_path run_time) w)
          | why => BadReport why
          end
      end
  end.

(** ** [main], from the prompt for the topic on

    The part of [main] before the loop: the topic is asked for until a line
    is not empty, the paper list is loaded from [--input] and the operator
    confirms; then the loop takes the title and the abstract of each item.
    Here an [input] with no line left raises [EOFError], and nothing
    catches it. *)

(** [d[key]]; [None] stands for [KeyError]. *)
Fixpoint dict_item (d : list (str * pyval)) (key : str) : option pyval :=
  match d with
  | [] => None
  | (k, v) :: d' => if str_eqb k key then Some v else dict_item d' key
  end.

(** The exceptions of a whole run: those of [exn] and three more. *)
Inductive raised :=
| Builtin (e : exn)
| EOFError
| JSONDecodeError
| KeyError.

(** How a whole run ends; [ReadsFloat] when the input holds a float, which
    the model does not have. *)
Inductive run_end :=
| Returns
| Raises (x : raised)
| NeverEnds
| ReadsFloat.

Definition end_of {A} (r : outcome A) : run_end :=
  match r with
  | Done _ => Returns
  | Raised e => Raises (Builtin e)
  | Hangs => NeverEnds
  end.

(** [ppinfo[key]] as the argument of [str.replace]: the item must be a dict
    with the key, and the value a string. *)
Definition str_item (ppinfo : pyval) (key : str) : raised + str :=
  match ppinfo with
  | PDict d =>
      match dict_item d key with
      | Some (PStr s) => inr s
      | Some _ => inl (Builtin TypeError)
      | None => inl KeyError
      end
  | _ => inl (Builtin TypeError)
  end.

(** The title and the abstract the loop takes from an item, the title
    first. *)
Definition paper_of (ppinfo : pyval) : raised + paper :=
  match str_item ppinfo (u "title") with
  | inl x => inl x
  | inr t =>
      match str_item ppinfo (u "abstract") with
      | inl x => inl x
      | inr b => inr (Paper t b)
      end
  end.

(** The papers of the items before the first one the loop cannot take, and
    what that one raises. *)
Fixpoint papers_of (items : list pyval) : list paper * option raised :=
  match items with
  | [] => ([], None)
  | ppinfo :: more =>
      match paper_of ppinfo with
      | inl x => ([], Some x)
      | inr p => (p :: fst (papers_of more), snd (papers_of more))
      end
  end.

(** The [while topic_desc == ""] loop. *)
Fixpoint read_topic (lines_typed : list str) : option str * list str :=
  match lines_typed with
  | [] => (None, [])
  | line :: more =>
      if str_eqb line [] then read_topic more else (Some line, more)
  end.

Definition main_from_input (e : env) (a : args) (input : option str)
  (run_time : str) (w : world) : run_end * world :=
  match read_topic (answers w) with
  | (None, more) => (Raises EOFError, World (files w) more)
  | (Some topic_desc, more) =>
      let w1 := World (files w) more in
      match input with
      | None => (Raises (Builtin TypeError), w1)
      | Some path =>
          match files w !! path with
          | None => (Raises (Builtin FileNotFoundError), w1)
          | Some text =>
              match json_loads text with
              | DecodeError => (Raises JSONDecodeError, w1)
              | HasFloat => (ReadsFloat, w1)
              | Loaded ppinfo_list =>
                  match iterate ppinfo_list with
                  | None => (Raises (Builtin TypeError), w1)
                  | Some items =>
                      match more with
                      | [] => (Raises EOFError, w1)
                      | continue_cmd :: more' =>
                          let w2 := World (files w) more' in
                          if lower_is_n continue_cmd then (Returns, w2)
                          else
                            match papers_of items with
                            | (papers, None) =>
                                let r := main e topic_desc a run_time papers w2 in
                                (end_of (fst r), snd r)
                            | (papers, Some x) =>
                                let r :=
                                  classify_loop e topic_desc a
                                    (output_jsonl_path a run_time) 0 papers
                                    [header topic_desc a] w2 in
                                (match fst r with
                                 | Done _ => Raises x
                                 | other => end_of other
                                 end, snd r)
                            end
                      end
                  end
              end
          end
      end
  end.

(** ** Definitions used to state the properties *)

(** A pattern without the capturing group. *)
Fixpoint no_group (r : regex) : bool :=
  match r with
  | Eps | Lit _ | Space | OneOf _ | WordB => true
  | Seq r1 r2 | Alt r1 r2 => no_group r1 && no_group r2
  | Star r1 | Opt r1 => no_group r1
  | Group _ => false
  end.

(** The three texts the group of [pattern] can capture. *)
Definition is_token (m : str) : Prop :=
  m = u "-1" \/ m = u "0" \/ m = u "1".

(** Does [old] occur somewhere in [s]? *)
Fixpoint occurs (old s : str) : bool :=
  match strip_prefix old s with
  | Some _ => true
  | None => match s with [] => false | _ :: s' => occurs old s' end
  end.

Definition nonempty (s : str) : bool :=
  match s with [] => false | _ => true end.

(** Blocks of text with one separating code point before each block after
    the first. *)
Definition sepjoin (b0 : str) (blocks : list (char * str)) : str :=
  b0 ++ concat (map (fun cb => fst cb :: snd cb) blocks).

Definition seps_outside (old : str) (blocks : list (char * str)) : bool :=
  forallb (fun cb => negb (mem_char (fst cb) old)) blocks.

(** The user message as the specification describes it: the template with
    each placeholder replaced, once, by the text itself. *)
Definition render_once (topic_desc : str) (a : args) (ppinfo : paper) : str :=
  lines [
    u "### Target Topic/Domain Description";
    topic_desc;
    u "";
    u "### Paper Information";
    u "**Title:** " ++ title ppinfo;
    u "**Venue & Year:** " ++ str_conf a ++ u ", " ++ str_year a;
    u "**Abstract:**";
    abstract ppinfo;
    u "";
    u "---";
    u "Based on the instructions, please provide the Analysis and Result."
  ].

(** No text put into the template holds a placeholder that a later
    [replace] of the chain looks for. *)
Definition chain_safe (topic_desc : str) (a : args) (ppinfo : paper) : bool :=
  negb (occurs ph_title topic_desc) && negb (occurs ph_venue topic_desc)
  && negb (occurs ph_year topic_desc) && negb (occurs ph_abstract topic_desc)
  && negb (occurs ph_venue (title ppinfo)) && negb (occurs ph_year (title ppinfo))
  && negb (occurs ph_abstract (title ppinfo))
  && negb (occurs ph_year (str_conf a)) && negb (occurs ph_abstract (str_conf a))
  && negb (occurs ph_abstract (str_year a)).

(** The integer a verdict value stands for when it is looked up in a set
    of integers. *)
Definition int_of_value (v : pyval) : option Z :=
  match v with
  | PInt z => Some z
  | PBool b => Some (if b then 1 else 0)%Z
  | _ => None
  end.

(** The fields of the operator's answer, as [read_approved] splits it. *)
Definition fields_of (line : str) : list str :=
  split_on 44 (replace (u " ") [] (strip line)).

(** The records of the papers classified before the judge first fails, in
    order, and whether every paper was classified. *)
Fixpoint classified (e : env) (topic_desc : str) (a : args) (i : nat)
  (ppinfo_list : list paper) : list pyval * bool :=
  match ppinfo_list with
  | [] => ([], true)
  | ppinfo :: more =>
      match judge e i PPFILTER_SYSPROMPT (build_user topic_desc a ppinfo) with
      | Some reply =>
          let later := classified e topic_desc a (S i) more in
          (reply_dict ppinfo reply :: fst later, snd later)
      | None => ([], false)
      end
  end.

(** The text the loop appends to the line log for these records. *)
Definition log_lines (records : list pyval) : str :=
  concat (map (fun r => json_dumps r ++ [nl]) records).

(** The number of line ends in a text. *)
Fixpoint count_lines (s : str) : nat :=
  match s with
  | [] => 0
  | c :: s' => (if c =? nl then 1 else 0) + count_lines s'
  end.

(** The files after these records were appended to the line log. *)
Definition log_after (log : str) (records : list pyval) (fs : gmap str str)
  : gmap str str :=
  match records with
  | [] => fs
  | _ => <[log := default [] (fs !! log) ++ log_lines records]> fs
  end.

(** No string of the value, key or text, holds a surrogate: the texts
    [json.dumps] gives for it are then encodable. *)
Fixpoint clean (v : pyval) : bool :=
  match v with
  | PStr s => encodable s
  | PList l =>
      (fix all (l : list pyval) : bool :=
         match l with
         | [] => true
         | x :: l' => clean x && all l'
         end) l
  | PDict d =>
      (fix all (d : list (str * pyval)) : bool :=
         match d with
         | [] => true
         | kv :: d' => encodable (fst kv) && clean (snd kv) && all d'
         end) d
  | PNone | PBool _ | PInt _ => true
  end.

(** The files after [path] was opened for writing or appending and nothing
    was written: a file that was not there is there, empty. *)
Definition touch (path : str) (fs : gmap str str) : gmap str str :=
  match fs !! path with
  | Some _ => fs
  | None => <[path := []]> fs
  end.

(** How the loop of the driver ends: every paper done, a call of the judge
    failed, or the line of a record could not be encoded. *)
Inductive loop_end :=
| LoopDone
| JudgeFails
| EncodeFails.

(** The records the loop logs, in order, and how it ends. *)
Fixpoint logged (e : env) (topic_desc : str) (a : args) (i : nat)
  (ppinfo_list : list paper) : list pyval * loop_end :=
  match ppinfo_list with
  | [] => ([], LoopDone)
  | ppinfo :: more =>
      match judge e i PPFILTER_SYSPROMPT (build_user topic_desc a ppinfo) with
      | Some reply =>
          if encodable (json_dumps (reply_dict ppinfo reply) ++ [nl]) then
            let later := logged e topic_desc a (S i) more in
            (reply_dict ppinfo reply :: fst later, snd later)
          else ([], EncodeFails)
      | None => ([], JudgeFails)
      end
  end.

(** The files after the loop. *)
Definition loop_files (log : str) (l : list pyval * loop_end)
  (fs : gmap str str) : gmap str str :=
  match snd l with
  | EncodeFails => touch log (log_after log (fst l) fs)
  | LoopDone | JudgeFails => log_after log (fst l) fs
  end.

(** The exception the filter loop raises on a record, if any: [r.get] on a
    value that is not a dict, or the set lookup of a list or a dict. *)
Definition record_error (r : pyval) : option exn :=
  match r with
  | PDict d =>
      match dict_get d (u "is_of_topic") with
      | PList _ | PDict _ => Some TypeError
      | _ => None
      end
  | _ => Some AttributeError
  end.

(** The exception of the first record on which the loop raises. *)
Fixpoint first_error (replies : list pyval) : option exn :=
  match replies with
  | [] => None
  | r :: more =>
      match record_error r with
      | Some e => Some e
      | None => first_error more
      end
  end.

(** A record whose verdict stands for an integer of the approved set. *)
Definition approved_record (approved_topics : gset Z) (r : pyval) : bool :=
  match r with
  | PDict d =>
      match int_of_value (dict_get d (u "is_of_topic")) with
      | Some z => bool_decide (z ∈ approved_topics)
      | None => false
      end
  | _ => false
  end.

(** The keys of a record, in order. *)
Definition record_keys (r : pyval) : list str :=
  match r with PDict d => map fst d | _ => [] end.

(** A field of a record; [None] for what is not a dict. *)
Definition record_field (key : str) (r : pyval) : pyval :=
  match r with PDict d => dict_get d key | _ => PNone end.

(** Every code point the pattern can consume satisfies [P]. *)
Fixpoint eats (ic : bool) (P : char -> Prop) (r : regex) : Prop :=
  match r with
  | Eps | WordB => True
  | Lit c => forall x, lit_match ic c x = true -> P x
  | Space => forall x, is_space x = true -> P x
  | OneOf cs => forall x, existsb (fun c => lit_match ic c x) cs = true -> P x
  | Seq r1 r2 | Alt r1 r2 => eats ic P r1 /\ eats ic P r2
  | Star r1 | Opt r1 | Group r1 => eats ic P r1
  end.

(** The word [result] in any mix of cases, as [re.IGNORECASE] reads it. *)
Definition result_word (tok : str) : Prop :=
  Forall2 (fun c x => lit_match true c x = true) (u "result") tok.

(** What may stand between [result] and the value: white space, a colon
    (ASCII or full width) and the emphasis marks. *)
Definition is_sep (c : char) : Prop :=
  is_space c = true \/ c = 58 \/ c = 65306 \/ c = 42 \/ c = 39 \/ c = 96.

(** The emphasis marks: [*], ['] and the backtick. *)
Definition is_mark (c : char) : Prop := c = 42 \/ c = 39 \/ c = 96.

(** A text at which a number ends: it is empty, or starts with none of a
    digit, a dot, [e] and [E]. *)
Definition number_stop (rest : str) : bool :=
  match rest with
  | [] => true
  | c :: _ => negb (is_ascii_digit c || (c =? 46) || (c =? 101) || (c =? 69))
  end.

(** No dict, at any depth, has a key twice.  Every Python value is so; the
    lists of pairs of the model need not be. *)
Fixpoint well_keyed (v : pyval) : Prop :=
  match v with
  | PList l =>
      (fix all (l : list pyval) : Prop :=
         match l with
         | [] => True
         | x :: l' => well_keyed x /\ all l'
         end) l
  | PDict d =>
      NoDup (map fst d)
      /\ (fix all (d : list (str * pyval)) : Prop :=
            match d with
            | [] => True
            | kv :: d' => well_keyed (snd kv) /\ all d'
            end) d
  | PNone | PBool _ | PInt _ | PStr _ => True
  end.

(** White space between the tokens. *)
Definition all_ws (ws : str) : Prop := Forall (fun c => is_json_ws c = true) ws.

(** What a dumped value starts with. *)
Definition value_start (c : char) : Prop :=
  c = 45 \/ is_ascii_digit c = true \/ c = 34 \/ c = 91 \/ c = 123
  \/ c = 110 \/ c = 116 \/ c = 102.

(** The value a dumped text gives back, whenever the bound on the calls
    is not what stops the scan. *)
Definition reads_back (v : pyval) : Prop :=
  forall indent level rest fuel,
    number_stop rest = true ->
    scan_once fuel (dumps_at indent level v ++ rest) <> TooDeep ->
    scan_once fuel (dumps_at indent level v ++ rest) = Value v rest.

(** The text of one item of a dumped dict. *)
Definition pair_text (indent : option nat) (level : nat) (kv : str * pyval)
  : str :=
  encode_basestring (fst kv) ++ u ": " ++ dumps_at indent level (snd kv).

(** ** The verdict extractor: properties *)

Lemma or_else_Some a b res :
  or_else a b = Some res -> a = Some res \/ (a = None /\ b = Some res).
Proof. destruct a; simpl; intros H; [left | right]; auto. Qed.

Lemma one_Some p st k res :
  one p st k = Some res ->
  exists x xs, rest st = x :: xs /\ p x = true /\ k (advance x xs st) = Some res.
Proof.
  unfold one. destruct (rest st) as [|x xs]; [discriminate|].
  destruct (p x) eqn:Hp; [|discriminate]. eauto.
Qed.

(** A pattern without the group leaves the captured text as it was. *)
Lemma rmatch_frame ic r :
  no_group r = true ->
  forall st k res, rmatch ic r st k = Some res ->
  exists st', cap st' = cap st /\ k st' = Some res.
Proof.
  induction r as [| c | | cs | r1 IH1 r2 IH2 | r1 IH1 r2 IH2 | r1 IH1
                 | r1 IH1 | r1 _ |]; simpl; intros Hg st k res H;
    try discriminate.
  - eauto.
  - apply one_Some in H as (x & xs & _ & _ & H).
    exists (advance x xs st). split; [reflexivity | exact H].
  - apply one_Some in H as (x & xs & _ & _ & H).
    exists (advance x xs st). split; [reflexivity | exact H].
  - apply one_Some in H as (x & xs & _ & _ & H).
    exists (advance x xs st). split; [reflexivity | exact H].
  - apply andb_true_iff in Hg as [Hg1 Hg2].
    apply (IH1 Hg1) in H as (st1 & Hc1 & H).
    apply (IH2 Hg2) in H as (st2 & Hc2 & H).
    exists st2. split; [congruence | exact H].
  - apply andb_true_iff in Hg as [Hg1 Hg2].
    apply or_else_Some in H as [H | [_ H]]; eauto.
  - remember (length (rest st)) as fuel eqn:Hfuel. clear Hfuel.
    revert st H. induction fuel as [|fuel IHf]; intros st H.
    + eauto.
    + apply or_else_Some in H as [H | [_ H]]; [|eauto].
      apply (IH1 Hg) in H as (st1 & Hc1 & H).
      destruct (length (rest st1) <? length (rest st))%nat; [|discriminate].
      apply IHf in H as (st2 & Hc2 & H).
      exists st2. split; [congruence | exact H].
  - apply or_else_Some in H as [H | [_ H]]; eauto.
  - destruct (xorb _ _); [eauto | discriminate].
Qed.

(** *** The bounds on repetition and on the scan are never reached *)

(** A successful match ends through its continuation. *)
Lemma rmatch_through ic r :
  forall st k res, rmatch ic r st k = Some res -> exists st', k st' = Some res.
Proof.
  induction r as [| c | | cs | r1 IH1 r2 IH2 | r1 IH1 r2 IH2 | r1 IH1
                 | r1 IH1 | r1 IH1 |]; simpl; intros st k res H.
  - eauto.
  - apply one_Some in H as (x & xs & _ & _ & H). eauto.
  - apply one_Some in H as (x & xs & _ & _ & H). eauto.
  - apply one_Some in H as (x & xs & _ & _ & H). eauto.
  - apply IH1 in H as (st1 & H). eapply IH2. exact H.
  - apply or_else_Some in H as [H | [_ H]]; eauto.
  - remember (length (rest st)) as fuel eqn:Hfuel. clear Hfuel.
    revert st H. induction fuel as [|fuel IHf]; intros st H; simpl in H.
    + eauto.
    + apply or_else_Some in H as [H | [_ H]]; [|eauto].
      apply IH1 in H as (st1 & H).
      destruct (length (rest st1) <? length (rest st))%nat; [|discriminate].
      eapply IHf. exact H.
  - apply or_else_Some in H as [H | [_ H]]; eauto.
  - apply IH1 in H as (st1 & H). eauto.
  - destruct (xorb _ _); [eauto | discriminate].
Qed.

(** A match only depends on what its continuation does at positions that
    are not before the start. *)
Lemma rmatch_ext ic r :
  forall st k1 k2,
  (forall st', (length (rest st') <= length (rest st))%nat -> k1 st' = k2 st') ->
  rmatch ic r st k1 = rmatch ic r st k2.
Proof.
  assert (Hone : forall p st k1 k2,
    (forall st', (length (rest st') <= length (rest st))%nat -> k1 st' = k2 st') ->
    one p st k1 = one p st k2).
  { intros p st k1 k2 Hk. unfold one.
    destruct (rest st) as [|x xs] eqn:Hr; [reflexivity|].
    destruct (p x); [|reflexivity]. apply Hk. simpl. lia. }
  induction r as [| c | | cs | r1 IH1 r2 IH2 | r1 IH1 r2 IH2 | r1 IH1
                 | r1 IH1 | r1 IH1 |]; simpl; intros st k1 k2 Hk.
  - apply Hk. lia.
  - apply Hone. exact Hk.
  - apply Hone. exact Hk.
  - apply Hone. exact Hk.
  - apply IH1. intros st1 H1. apply IH2. intros st' H'. apply Hk. lia.
  - rewrite (IH1 st k1 k2 Hk), (IH2 st k1 k2 Hk). reflexivity.
  - assert (Hstar : forall fuel st0,
      (forall st', (length (rest st') <= length (rest st0))%nat ->
                   k1 st' = k2 st') ->
      star_iter (rmatch ic r1) k1 fuel st0
      = star_iter (rmatch ic r1) k2 fuel st0).
    { induction fuel as [|fuel IHf]; intros st0 Hk0; simpl.
      - apply Hk0. lia.
      - rewrite (Hk0 st0) by lia. f_equal.
        apply IH1. intros st1 H1.
        destruct (length (rest st1) <? length (rest st0))%nat; [|reflexivity].
        apply IHf. intros st' H'. apply Hk0. lia. }
    apply Hstar. exact Hk.
  - rewrite (IH1 st k1 k2 Hk), (Hk st) by lia. reflexivity.
  - apply IH1. intros st1 H1. apply Hk. exact H1.
  - destruct (xorb _ _); [apply Hk; lia | reflexivity].
Qed.

Lemma star_fuel_step ic r1 k :
  forall fuel st,
  (length (rest st) <= fuel)%nat ->
  star_iter (rmatch ic r1) k (S fuel) st = star_iter (rmatch ic r1) k fuel st.
Proof.
  induction fuel as [|fuel IH]; intros st Hst.
  - cbn [star_iter].
    destruct (rmatch ic r1 st _) as [res|] eqn:Hm; [|reflexivity].
    apply rmatch_through in Hm as (st1 & Hm).
    destruct (length (rest st1) <? length (rest st))%nat eqn:Hlt;
      [|discriminate].
    apply Nat.ltb_lt in Hlt. lia.
  - change (star_iter (rmatch ic r1) k (S (S fuel)) st)
      with (or_else
              (rmatch ic r1 st (fun st1 =>
                 if (length (rest st1) <? length (rest st))%nat
                 then star_iter (rmatch ic r1) k (S fuel) st1 else None))
              (k st)).
    change (star_iter (rmatch ic r1) k (S fuel) st)
      with (or_else
              (rmatch ic r1 st (fun st1 =>
                 if (length (rest st1) <? length (rest st))%nat
                 then star_iter (rmatch ic r1) k fuel st1 else None))
              (k st)).
    f_equal. apply rmatch_ext. intros st1 _.
    destruct (length (rest st1) <? length (rest st))%nat eqn:Hlt;
      [|reflexivity].
    apply Nat.ltb_lt in Hlt. apply IH. lia.
Qed.

(** Any bound that is at least the number of code points left gives the
    repetition the same result. *)
Lemma star_fuel_enough ic r1 k st fuel :
  (length (rest st) <= fuel)%nat ->
  star_iter (rmatch ic r1) k fuel st = rmatch ic (Star r1) st k.
Proof.
  cbn [rmatch]. induction fuel as [|fuel IH]; intros Hst.
  - replace (length (rest st)) with 0%nat by lia. reflexivity.
  - destruct (Nat.eq_dec (length (rest st)) (S fuel)) as [-> | Hne];
      [reflexivity|].
    rewrite star_fuel_step by lia. apply IH. lia.
Qed.

(** Any bound above the length of the text gives the scan the same list. *)
Lemma findall_fuel_enough ic r :
  forall fuel1 fuel2 prev s,
  (length s < fuel1)%nat -> (length s < fuel2)%nat ->
  findall_from fuel1 ic r prev s = findall_from fuel2 ic r prev s.
Proof.
  induction fuel1 as [|fuel1 IH]; intros fuel2 prev s H1 H2; [lia|].
  destruct fuel2 as [|fuel2]; [lia|]. cbn [findall_from].
  destruct (match_at ic r prev s) as [st'|].
  - destruct (length (rest st') <? length s)%nat eqn:Hlt.
    + apply Nat.ltb_lt in Hlt. f_equal. apply IH; lia.
    + destruct s as [|c s']; [reflexivity|]. f_equal.
      apply IH; simpl in *; lia.
  - destruct s as [|c s']; [reflexivity|]. apply IH; simpl in *; lia.
Qed.

Lemma lit_match_plain ic c x :
  ignorecase_class c = [c] -> lit_match ic c x = true -> x = c.
Proof.
  unfold lit_match. intros Hc. destruct ic.
  - rewrite Hc. simpl. rewrite orb_false_r. intros H.
    apply N.eqb_eq in H. exact H.
  - intros H. apply N.eqb_eq in H. auto.
Qed.

Lemma take_two (a b : char) (r : str) :
  take (length (a :: b :: r) - length r) (a :: b :: r) = [a; b].
Proof.
  replace (length (a :: b :: r) - length r)%nat with 2%nat by (simpl; lia).
  reflexivity.
Qed.

Lemma take_one (a : char) (r : str) :
  take (length (a :: r) - length r) (a :: r) = [a].
Proof.
  replace (length (a :: r) - length r)%nat with 1%nat by (simpl; lia).
  reflexivity.
Qed.

(** The group captures [-1], [1] or [0]. *)
Lemma rmatch_value ic st k res :
  rmatch ic (Group value) st k = Some res ->
  exists st', (exists m, cap st' = Some m /\ is_token m) /\ k st' = Some res.
Proof.
  destruct st as [b r c]. simpl. intros H.
  apply or_else_Some in H as [H | [_ H]].
  - apply or_else_Some in H as [H | [_ H]].
    + apply one_Some in H as (x1 & r1 & Hr & Hx1 & H). simpl in Hr. subst r.
      apply one_Some in H as (x2 & r2 & Hr & Hx2 & H). simpl in Hr. subst r1.
      apply lit_match_plain in Hx1; [|reflexivity].
      apply lit_match_plain in Hx2; [|reflexivity]. subst x1 x2.
      simpl rest in H. rewrite take_two in H.
      eexists. split; [|exact H]. eexists. split; [reflexivity|].
      left. reflexivity.
    + apply one_Some in H as (x1 & r1 & Hr & Hx1 & H). simpl in Hr. subst r.
      apply lit_match_plain in Hx1; [|reflexivity]. subst x1.
      simpl rest in H. rewrite take_one in H.
      eexists. split; [|exact H]. eexists. split; [reflexivity|].
      right. right. reflexivity.
  - apply one_Some in H as (x1 & r1 & Hr & Hx1 & H). simpl in Hr. subst r.
    apply lit_match_plain in Hx1; [|reflexivity]. subst x1.
    simpl rest in H. rewrite take_one in H.
    eexists. split; [|exact H]. eexists. split; [reflexivity|].
    right. left. reflexivity.
Qed.

Lemma rmatch_Seq ic r1 r2 st k :
  rmatch ic (Seq r1 r2) st k = rmatch ic r1 st (fun st1 => rmatch ic r2 st1 k).
Proof. reflexivity. Qed.

Ltac skip_part H :=
  rewrite rmatch_Seq in H;
  apply rmatch_frame in H; [|reflexivity];
  let st1 := fresh "st" in
  destruct H as (st1 & _ & H).

(** Every match of [pattern] captures one of the three tokens. *)
Lemma pattern_captures ic prev s st' :
  match_at ic pattern prev s = Some st' ->
  exists m, cap st' = Some m /\ is_token m.
Proof.
  unfold match_at, pattern, seqs. cbn [foldr]. intros H.
  do 5 skip_part H.
  rewrite rmatch_Seq in H.
  apply rmatch_value in H as (st6 & Hm & H).
  apply rmatch_frame in H as (st7 & Hc & H); [|reflexivity].
  injection H as <-. rewrite Hc. exact Hm.
Qed.

Lemma findall_from_tokens fuel ic prev s :
  Forall is_token (findall_from fuel ic pattern prev s).
Proof.
  revert prev s. induction fuel as [|fuel IH]; intros prev s; simpl.
  - constructor.
  - destruct (match_at ic pattern prev s) as [st'|] eqn:Hm.
    + apply pattern_captures in Hm as (m & Hc & Hm). rewrite Hc. simpl.
      destruct (length (rest st') <? length s)%nat.
      * constructor; [exact Hm | apply IH].
      * destruct s as [|c s']; constructor; try exact Hm;
          [constructor | apply IH].
    + destruct s as [|c s']; [constructor | apply IH].
Qed.

Lemma findall_tokens ic s : Forall is_token (findall ic pattern s).
Proof. apply findall_from_tokens. Qed.

Lemma py_int_token m :
  is_token m ->
  exists z, py_int m = Some z /\ z ∈ verdicts
            /\ (z = (-1)%Z \/ z = 0%Z \/ z = 1%Z).
Proof.
  intros [-> | [-> | ->]]; eexists; (split; [reflexivity|]);
    (split; [unfold verdicts; set_solver | auto]).
Qed.

Lemma last_Forall {A} (P : A -> Prop) (l : list A) (x : A) :
  Forall P l -> last l = Some x -> P x.
Proof.
  intros HF Hl. apply last_Some in Hl as [l' ->].
  apply Forall_app in HF as [_ HF]. inversion HF. assumption.
Qed.

(** On a non-empty text with at least one match, the result is the integer
    of the last match. *)
Lemma extract_conclusion_last text m :
  last (findall true pattern text) = Some m ->
  extract_conclusion (PStr text) = py_int m /\ is_token m.
Proof.
  intros Hl.
  assert (Ht : is_token m) by (eapply last_Forall; [apply findall_tokens | exact Hl]).
  split; [|exact Ht].
  unfold extract_conclusion.
  destruct text as [|c text'].
  - discriminate Hl.
  - cbn [truthy isinstance_str negb orb]. unfold str_eqb.
    rewrite bool_decide_eq_false_2 by discriminate. cbn [negb orb].
    rewrite Hl.
    destruct (py_int_token m Ht) as (z & Hz & Hin & _). rewrite Hz.
    rewrite bool_decide_eq_true_2 by exact Hin. reflexivity.
Qed.

Lemma extract_conclusion_no_match text :
  findall true pattern text = [] -> extract_conclusion (PStr text) = None.
Proof.
  intros H. unfold extract_conclusion. rewrite H. simpl.
  destruct (negb _ || _); reflexivity.
Qed.

Lemma extract_conclusion_not_text v :
  truthy v = false \/ isinstance_str v = false -> extract_conclusion v = None.
Proof.
  unfold extract_conclusion. intros [-> | ->]; simpl; [reflexivity|].
  rewrite orb_true_r. reflexivity.
Qed.

(** C1: the documented surface forms.  [Result: v] gives [v] for each of
    -1, 0 and 1; [Result: **1**] gives 1; [Result: 10] (and [Result: 01])
    and the empty text give no verdict. *)
Theorem extract_conclusion_surface_forms :
  Forall (fun v => extract_conclusion (PStr (u "Result: " ++ str_of_Z v)) = Some v)
    [(-1)%Z; 0%Z; 1%Z]
  /\ extract_conclusion (PStr (u "Result: **1**")) = Some 1%Z
  /\ extract_conclusion (PStr (u "Result: 10")) = None
  /\ extract_conclusion (PStr (u "Result: 01")) = None
  /\ extract_conclusion (PStr (u "")) = None.
Proof.
  repeat split; repeat constructor; vm_compute; reflexivity.
Qed.

(** C2: the last match wins.  Whenever the pattern matches more than once
    (or once), the verdict is the integer of the last match, whatever the
    earlier matches are; [Result: 1 ... Result: -1] gives -1. *)
Theorem last_match_wins :
  (forall text ms m,
     findall true pattern text = ms ++ [m] ->
     extract_conclusion (PStr text) = py_int m
     /\ exists z, py_int m = Some z /\ z ∈ verdicts)
  /\ findall true pattern (u "Result: 1 ... Result: -1") = [u "1"; u "-1"]
  /\ extract_conclusion (PStr (u "Result: 1 ... Result: -1")) = Some (-1)%Z.
Proof.
  split; [|split; vm_compute; reflexivity].
  intros text ms m H.
  assert (Hl : last (findall true pattern text) = Some m)
    by (rewrite H; apply last_snoc).
  apply extract_conclusion_last in Hl as [He Ht].
  split; [exact He|].
  destruct (py_int_token m Ht) as (z & Hz & Hin & _). eauto.
Qed.

(** C7: the extractor returns no verdict exactly when none is present.  It
    returns [None] at once on a value that is empty or not a string, and
    [None] when the pattern matches nowhere or the matched value is outside
    the three verdicts; on every other input it returns the last match's
    value, so its result is always one of -1, 0, 1 or [None]. *)
Theorem extract_conclusion_null_exactly :
  (forall v, truthy v = false \/ isinstance_str v = false ->
             extract_conclusion v = None)
  /\ (forall text, findall true pattern text = [] ->
                   extract_conclusion (PStr text) = None)
  /\ (forall text m, last (findall true pattern text) = Some m ->
                     (forall z, py_int m = Some z -> z ∉ verdicts) ->
                     extract_conclusion (PStr text) = None)
  /\ (forall v, extract_conclusion v = None <->
                (truthy v = false \/ isinstance_str v = false
                 \/ exists text, v = PStr text /\ findall true pattern text = []))
  /\ (forall v, extract_conclusion v = None
                \/ extract_conclusion v = Some (-1)%Z
                \/ extract_conclusion v = Some 0%Z
                \/ extract_conclusion v = Some 1%Z).
Proof.
  split; [exact extract_conclusion_not_text|].
  split; [exact extract_conclusion_no_match|].
  split.
  { intros text m Hl Hout.
    apply extract_conclusion_last in Hl as [He Ht]. rewrite He.
    destruct (py_int_token m Ht) as (z & Hz & Hin & _).
    exfalso. exact (Hout z Hz Hin). }
  assert (Hcases : forall v,
    (extract_conclusion v = None /\
     (truthy v = false \/ isinstance_str v = false
      \/ exists text, v = PStr text /\ findall true pattern text = []))
    \/ (exists text m z, v = PStr text /\ truthy v = true
          /\ last (findall true pattern text) = Some m
          /\ extract_conclusion v = Some z
          /\ (z = (-1)%Z \/ z = 0%Z \/ z = 1%Z))).
  { intros v.
    destruct (truthy v) eqn:Htr;
      [|left; split; [apply extract_conclusion_not_text|]; auto].
    destruct v as [| b | z | text | l | d];
      try (left; split; [apply extract_conclusion_not_text|]; auto; fail).
    destruct (last (findall true pattern text)) as [m|] eqn:Hl.
    - right. pose proof (extract_conclusion_last text m Hl) as [He Ht].
      destruct (py_int_token m Ht) as (z & Hz & _ & Hz3).
      exists text, m, z. rewrite He. auto.
    - left. apply last_None in Hl.
      split; [apply extract_conclusion_no_match; exact Hl|].
      right. right. eauto. }
  split.
  - intros v. split.
    + intros Hn. destruct (Hcases v) as [[_ H] | (text & m & z & _ & _ & _ & Hz & _)];
        [exact H | congruence].
    + intros [H | [H | (text & -> & H)]];
        [apply extract_conclusion_not_text; auto
        |apply extract_conclusion_not_text; auto
        |apply extract_conclusion_no_match; exact H].
  - intros v.
    destruct (Hcases v) as [[H _] | (text & m & z & _ & _ & _ & Hz & Hz3)];
      [left; exact H|].
    rewrite Hz. destruct Hz3 as [-> | [-> | ->]]; auto.
Qed.

(** ** The prompt builder: properties *)

Lemma strip_prefix_sep old c b :
  mem_char c old = false ->
  forall a,
  match strip_prefix old a with
  | Some r => strip_prefix old (a ++ c :: b) = Some (r ++ c :: b)
              /\ (length old <= length a)%nat
  | None => strip_prefix old (a ++ c :: b) = None
  end.
Proof.
  induction old as [|o old IH]; intros Hc a; simpl.
  - split; [reflexivity | lia].
  - simpl in Hc. apply orb_false_iff in Hc as [Hco Hc].
    destruct a as [|x a]; simpl.
    + rewrite N.eqb_sym, Hco. reflexivity.
    + destruct (o =? x); [|reflexivity].
      specialize (IH Hc a). destruct (strip_prefix old a); [|exact IH].
      destruct IH as [IH1 IH2]. split; [exact IH1 | lia].
Qed.

Lemma replace_from_sep old new c b :
  nonempty old = true -> mem_char c old = false ->
  forall a k, (k <= length a)%nat ->
  replace_from old new k (a ++ c :: b)
  = replace_from old new k a ++ c :: replace_from old new 0 b.
Proof.
  intros Hne Hc. induction a as [|x a IH]; intros k Hk.
  - simpl in Hk. replace k with 0%nat by lia.
    pose proof (strip_prefix_sep old c b Hc []) as Hs.
    destruct old as [|o old]; [discriminate|].
    change (strip_prefix (o :: old) (c :: b) = None) in Hs.
    cbn [app replace_from]. rewrite Hs. reflexivity.
  - destruct k as [|k]; cbn [app replace_from].
    + pose proof (strip_prefix_sep old c b Hc (x :: a)) as Hs.
      cbn [app] in Hs.
      destruct (strip_prefix old (x :: a)) as [r|].
      * destruct Hs as [-> Hl]. rewrite IH by (simpl in Hl; lia).
        rewrite app_assoc. reflexivity.
      * rewrite Hs. rewrite IH by lia. reflexivity.
    + apply IH. simpl in Hk. lia.
Qed.

Lemma replace_sep old new a c b :
  nonempty old = true -> mem_char c old = false ->
  replace old new (a ++ c :: b) = replace old new a ++ c :: replace old new b.
Proof.
  intros Hne Hc. destruct old as [|o old]; [discriminate|].
  unfold replace. apply replace_from_sep; [exact Hne | exact Hc | lia].
Qed.

(** [replace] works block by block when no separator is part of [old]. *)
Lemma replace_sepjoin old new blocks :
  nonempty old = true -> seps_outside old blocks = true ->
  forall b0,
  replace old new (sepjoin b0 blocks)
  = sepjoin (replace old new b0)
      (map (fun cb => (fst cb, replace old new (snd cb))) blocks).
Proof.
  intros Hne. induction blocks as [|[c b] blocks IH]; intros Hs b0.
  - unfold sepjoin. simpl. rewrite !app_nil_r. reflexivity.
  - simpl in Hs. apply andb_true_iff in Hs as [Hc Hs].
    apply negb_true_iff in Hc.
    change (sepjoin b0 ((c, b) :: blocks)) with (b0 ++ c :: sepjoin b blocks).
    rewrite replace_sep by assumption. rewrite (IH Hs). reflexivity.
Qed.

Lemma replace_from_skip_all old new s k :
  (length s <= k)%nat -> replace_from old new k s = [].
Proof.
  revert k. induction s as [|c s IH]; intros k Hk; [reflexivity|].
  simpl in Hk. destruct k as [|k]; [lia|]. simpl. apply IH. lia.
Qed.

Lemma strip_prefix_self old : strip_prefix old old = Some [].
Proof.
  induction old as [|o old IH]; simpl; [reflexivity|].
  rewrite N.eqb_refl. exact IH.
Qed.

Lemma replace_self old new : nonempty old = true -> replace old new old = new.
Proof.
  destruct old as [|o old]; [discriminate|]. intros _.
  unfold replace. cbn [replace_from]. rewrite strip_prefix_self.
  rewrite replace_from_skip_all by (simpl; lia). apply app_nil_r.
Qed.

Lemma replace_absent old new s :
  nonempty old = true -> occurs old s = false -> replace old new s = s.
Proof.
  destruct old as [|o old]; [discriminate|]. intros _.
  unfold replace. induction s as [|c s IH]; [reflexivity|].
  cbn [occurs replace_from].
  destruct (strip_prefix (o :: old) (c :: s)); [discriminate|].
  intros H. rewrite (IH H). reflexivity.
Qed.

Lemma template_blocks :
  PPFILTER_USRPROMPT
  = sepjoin (u "### Target Topic/Domain Description")
      [(nl, ph_topic);
       (nl, nl :: u "### Paper Information" ++ nl :: u "**Title:**");
       (32, ph_title);
       (nl, u "**Venue & Year:**");
       (32, ph_venue);
       (44, []);
       (32, ph_year);
       (nl, u "**Abstract:**");
       (nl, ph_abstract);
       (nl, nl :: u "---" ++ nl
              :: u "Based on the instructions, please provide the Analysis and Result.");
       (nl, [])].
Proof. reflexivity. Qed.

Lemma lines_cons l ls : lines (l :: ls) = l ++ nl :: lines ls.
Proof. unfold lines. simpl. rewrite <- app_assoc. reflexivity. Qed.

Lemma sepjoin_cons b0 c b blocks :
  sepjoin b0 ((c, b) :: blocks) = b0 ++ c :: sepjoin b blocks.
Proof. reflexivity. Qed.

Ltac settle_blocks :=
  repeat match goal with
  | |- context [replace ?o ?n ?o] =>
      rewrite (replace_self o n) by reflexivity
  | |- context [replace ?o ?n ?b] =>
      rewrite (replace_absent o n b) by reflexivity
  end.

(** What the chain of [replace] calls yields on every input: each text is
    put in once, and the later calls of the chain then act on it. *)
Lemma build_user_blocks topic_desc a ppinfo :
  let r_abstract := replace ph_abstract (abstract ppinfo) in
  let r_year t := r_abstract (replace ph_year (str_year a) t) in
  let r_venue t := r_year (replace ph_venue (str_conf a) t) in
  let r_title t := r_venue (replace ph_title (title ppinfo) t) in
  build_user topic_desc a ppinfo
  = lines [
      u "### Target Topic/Domain Description";
      r_title topic_desc;
      u "";
      u "### Paper Information";
      u "**Title:** " ++ r_venue (title ppinfo);
      u "**Venue & Year:** " ++ r_year (str_conf a) ++ u ", "
        ++ r_abstract (str_year a);
      u "**Abstract:**";
      abstract ppinfo;
      u "";
      u "---";
      u "Based on the instructions, please provide the Analysis and Result."
    ].
Proof.
  intros r_abstract r_year r_venue r_title.
  subst r_title r_venue r_year r_abstract. cbv beta.
  unfold build_user. rewrite template_blocks.
  rewrite !replace_sepjoin by reflexivity.
  cbn [map fst snd].
  settle_blocks.
  rewrite !lines_cons, !sepjoin_cons. rewrite <- !app_assoc.
  reflexivity.
Qed.

(** C4, as the code has it: when no text put into the template holds a
    placeholder that a later call of the chain looks for, the user message
    is the template with each of the five placeholders replaced exactly
    once by the text itself, unescaped.  (The abstract may hold any
    placeholder, the title the topic placeholder.) *)
Theorem build_user_literal_once topic_desc a ppinfo :
  chain_safe topic_desc a ppinfo = true ->
  build_user topic_desc a ppinfo = render_once topic_desc a ppinfo.
Proof.
  unfold chain_safe. intros H.
  repeat (apply andb_true_iff in H as [H ?]).
  repeat match goal with
  | Hn : negb _ = true |- _ => apply negb_true_iff in Hn
  end.
  rewrite build_user_blocks. cbv zeta.
  repeat match goal with
  | Hn : occurs ?o ?t = false |- context [replace ?o ?n ?t] =>
      rewrite (replace_absent o n t) by (reflexivity || exact Hn)
  end.
  reflexivity.
Qed.

(** ** The topic filter: properties *)

Lemma dict_get_in d key v :
  dict_get d key = v -> v <> PNone -> (key, v) ∈ d.
Proof.
  induction d as [|[k x] d IH]; simpl; intros Hg Hv.
  - congruence.
  - unfold str_eqb in Hg. case_bool_decide as Hk.
    + subst. left.
    + right. apply IH; assumption.
Qed.

Lemma dict_get_absent d key :
  (forall v, (key, v) ∉ d) -> dict_get d key = PNone.
Proof.
  intros Habs. destruct (dict_get d key) as [| b | z | t | l | d'] eqn:Hg;
    [reflexivity | exfalso ..];
    (eapply Habs, dict_get_in; [exact Hg | discriminate]).
Qed.

Lemma in_approved_true v approved :
  in_approved v approved = inr true ->
  exists z, int_of_value v = Some z /\ z ∈ approved.
Proof.
  destruct v as [| b | z | t | l | d]; simpl; intros H; try discriminate;
    injection H as H; apply bool_decide_eq_true in H; eauto.
Qed.

(** What the filter keeps: records of the input, each a dict whose verdict
    is not [None] and is in the approved set. *)
Lemma filter_replies_kept approved replies :
  forall kept r,
  filter_replies approved replies = inr kept -> r ∈ kept ->
  r ∈ replies
  /\ exists d, r = PDict d
     /\ is_none (dict_get d (u "is_of_topic")) = false
     /\ in_approved (dict_get d (u "is_of_topic")) approved = inr true.
Proof.
  induction replies as [|x more IH]; intros kept r Hf Hr.
  - injection Hf as <-. inversion Hr.
  - simpl in Hf. destruct x as [| b | z | t | l | d]; try discriminate.
    destruct (is_none (dict_get d (u "is_of_topic"))) eqn:Hn.
    + destruct (IH kept r Hf Hr) as [Hin Hd]. split; [right; exact Hin | exact Hd].
    + destruct (in_approved (dict_get d (u "is_of_topic")) approved)
        as [e | keep] eqn:Ha; [discriminate|].
      destruct (filter_replies approved more) as [e | kept'] eqn:Hm;
        [discriminate|].
      injection Hf as <-. destruct keep.
      * apply elem_of_cons in Hr as [-> | Hr].
        -- split; [left | eauto].
        -- destruct (IH kept' r eq_refl Hr) as [Hin Hd].
           split; [right; exact Hin | exact Hd].
      * destruct (IH kept' r eq_refl Hr) as [Hin Hd].
        split; [right; exact Hin | exact Hd].
Qed.

Lemma is_none_false v : is_none v = false -> v <> PNone.
Proof. destruct v; simpl; congruence. Qed.

Lemma filter_replies_header approved topic_desc a more :
  filter_replies approved (header topic_desc a :: more)
  = filter_replies approved more.
Proof. reflexivity. Qed.

(** What the exporter writes once the operator's answer is accepted. *)
Lemma export_written replies out_path fs typed approved more kept :
  ask_approved typed = (Approved approved, more) ->
  filter_replies approved replies = inr kept ->
  extract_papers_of_topic replies out_path (World fs typed)
  = if encodable (json_dumps_indent4 (PList kept))
    then (Done tt,
          World (<[out_path := json_dumps_indent4 (PList kept)]> fs) more)
    else (Raised UnicodeEncodeError, World (<[out_path := []]> fs) more).
Proof.
  intros Ha Hf. unfold extract_papers_of_topic. simpl. rewrite Ha, Hf.
  unfold write_file. destruct (encodable _); reflexivity.
Qed.

(** C6: a record whose verdict is [None] is never kept, whatever the
    approved set is and whatever else the sequence holds. *)
Theorem null_verdict_excluded approved replies kept d :
  filter_replies approved replies = inr kept ->
  dict_get d (u "is_of_topic") = PNone ->
  PDict d ∉ kept.
Proof.
  intros Hf Hnone Hin.
  destruct (filter_replies_kept approved replies kept _ Hf Hin)
    as (_ & d' & Heq & Hn & _).
  injection Heq as <-. rewrite Hnone in Hn. discriminate.
Qed.

(** C8: filtering what the filter kept, by the same approved set, keeps all
    of it. *)
Theorem filter_replies_idempotent approved replies kept :
  filter_replies approved replies = inr kept ->
  filter_replies approved kept = inr kept.
Proof.
  revert kept. induction replies as [|x more IH]; intros kept Hf.
  - injection Hf as <-. reflexivity.
  - simpl in Hf. destruct x as [| b | z | t | l | d]; try discriminate.
    destruct (is_none (dict_get d (u "is_of_topic"))) eqn:Hn; [auto|].
    destruct (in_approved (dict_get d (u "is_of_topic")) approved)
      as [e | keep] eqn:Ha; [discriminate|].
    destruct (filter_replies approved more) as [e | kept'] eqn:Hm;
      [discriminate|].
    injection Hf as <-. destruct keep; [|auto].
    simpl. rewrite Hn, Ha, (IH kept' eq_refl). reflexivity.
Qed.

(** C10: a record without the verdict field, and so the header record the
    driver puts first in the report, is never kept; every record kept
    carries the field with a value that is not [None] and is in the approved
    set; and the export file, once an answer is accepted, holds the list of
    the records kept, or nothing when that text cannot be encoded, the
    write raising [UnicodeEncodeError] then. *)
Theorem fieldless_record_excluded approved replies kept :
  filter_replies approved replies = inr kept ->
  (forall d, (forall v, (u "is_of_topic", v) ∉ d) -> PDict d ∉ kept)
  /\ (forall topic_desc a, header topic_desc a ∉ kept)
  /\ (forall r, r ∈ kept ->
        exists d v z, r = PDict d /\ (u "is_of_topic", v) ∈ d
          /\ dict_get d (u "is_of_topic") = v /\ v <> PNone
          /\ int_of_value v = Some z /\ z ∈ approved)
  /\ (forall topic_desc a,
        filter_replies approved (header topic_desc a :: replies) = inr kept)
  /\ (forall out_path fs typed more,
        ask_approved typed = (Approved approved, more) ->
        let export := json_dumps_indent4 (PList kept) in
        let r := extract_papers_of_topic replies out_path (World fs typed) in
        files (snd r) !! out_path
        = Some (if encodable export then export else [])
        /\ (encodable export = false -> fst r = Raised UnicodeEncodeError)).
Proof.
  intros Hf.
  assert (Hfield : forall d, (forall v, (u "is_of_topic", v) ∉ d) -> PDict d ∉ kept).
  { intros d Habs Hin.
    destruct (filter_replies_kept approved replies kept _ Hf Hin)
      as (_ & d' & Heq & Hn & _).
    injection Heq as <-. rewrite (dict_get_absent _ _ Habs) in Hn.
    discriminate. }
  split; [exact Hfield|].
  split.
  { intros topic_desc a. apply Hfield. intros v Hin.
    repeat (apply elem_of_cons in Hin as [Hin | Hin]; [discriminate Hin|]).
    inversion Hin. }
  split.
  { intros r Hr.
    destruct (filter_replies_kept approved replies kept r Hf Hr)
      as (_ & d & -> & Hn & Ha).
    apply is_none_false in Hn.
    apply in_approved_true in Ha as (z & Hz & Hin).
    exists d, (dict_get d (u "is_of_topic")), z.
    repeat split; try assumption.
    apply dict_get_in; [reflexivity | exact Hn]. }
  split.
  { intros topic_desc a. rewrite filter_replies_header. exact Hf. }
  intros out_path fs typed more Ha. cbv zeta.
  rewrite (export_written _ _ _ _ _ _ _ Ha Hf).
  destruct (encodable (json_dumps_indent4 (PList kept))); cbn [fst snd files];
    (split; [apply lookup_insert_eq | congruence]).
Qed.

(** ** The operator's selection: properties *)

Lemma ints_of_None fs f :
  f ∈ fs -> py_int f = None -> ints_of fs = None.
Proof.
  induction fs as [|x fs IH]; intros Hin Hf; [inversion Hin|].
  simpl. apply elem_of_cons in Hin as [<- | Hin].
  - rewrite Hf. reflexivity.
  - destruct (py_int x); [|reflexivity]. rewrite (IH Hin Hf). reflexivity.
Qed.

Lemma read_approved_Some line approved :
  read_approved line = Some approved <->
  exists zs, ints_of (fields_of line) = Some zs
    /\ approved = list_to_set zs
    /\ ((-1)%Z ∈ approved \/ 0%Z ∈ approved \/ 1%Z ∈ approved).
Proof.
  unfold read_approved, fields_of.
  destruct (ints_of _) as [zs|]; split.
  - destruct (_ || _) eqn:Hb; [|discriminate]. intros H. injection H as <-.
    exists zs. split; [reflexivity|]. split; [reflexivity|].
    apply orb_true_iff in Hb as [Hb | Hb];
      [apply orb_true_iff in Hb as [Hb | Hb]|];
      apply bool_decide_eq_true in Hb; auto.
  - intros (zs' & Hz & -> & Hin). injection Hz as <-.
    destruct Hin as [Hin | [Hin | Hin]];
      rewrite (bool_decide_eq_true_2 _ Hin); rewrite ?orb_true_r; reflexivity.
  - discriminate.
  - intros (zs' & Hz & _). discriminate.
Qed.

Lemma py_int_limit f :
  (int_max_str_digits < count_digits (map to_ascii_decimal f))%nat ->
  py_int f = None.
Proof.
  intros Hmany. unfold py_int. cbv zeta.
  match goal with
  | |- context [let '(n, b) := ?M in _] => destruct M as [neg body]
  end.
  destruct body as [| c body']; [reflexivity |].
  destruct (is_ascii_digit c); [| reflexivity].
  destruct (scan_digits 0 0 (c :: body')) as [[n tail] |]; [| reflexivity].
  destruct (drop_c_spaces tail); [| reflexivity].
  rewrite (proj2 (Nat.leb_gt _ _) Hmany). reflexivity.
Qed.

Lemma ask_approved_Approved typed approved more :
  ask_approved typed = (Approved approved, more) ->
  exists line, line ∈ typed /\ lower_is_n line = false
    /\ read_approved line = Some approved.
Proof.
  induction typed as [|line typed IH]; simpl; [discriminate|].
  destruct (lower_is_n line) eqn:Hn; [discriminate|].
  destruct (read_approved line) as [s|] eqn:Hr.
  - intros H. injection H as <- <-. exists line. split; [left | auto].
  - intros H. destruct (IH H) as (l & Hin & Hl). exists l.
    split; [right; exact Hin | exact Hl].
Qed.

(** C9, as the code has it: an answer is accepted when every field is an
    integer as [int] reads one and at least one of -1, 0, 1 is among them
    (other integers may come with them); an empty or blank answer, one with
    a field that is not an integer, among them a field of more than 4300
    digits, or one with none of -1, 0, 1 is asked again; [n] or [N] ends the
    export with no file written; and nothing is filtered or written unless
    an answer is accepted. *)
Theorem operator_selection :
  (forall line more replies out_path fs,
     lower_is_n line = true ->
     extract_papers_of_topic replies out_path (World fs (line :: more))
     = (Done tt, World fs more))
  /\ lower_is_n (u "n") = true /\ lower_is_n (u "N") = true
  /\ (forall line more,
        lower_is_n line = false -> read_approved line = None ->
        ask_approved (line :: more) = ask_approved more)
  /\ (forall line more approved,
        lower_is_n line = false -> read_approved line = Some approved ->
        ask_approved (line :: more) = (Approved approved, more))
  /\ (forall line approved,
        read_approved line = Some approved <->
        exists zs, ints_of (fields_of line) = Some zs
          /\ approved = list_to_set zs
          /\ ((-1)%Z ∈ approved \/ 0%Z ∈ approved \/ 1%Z ∈ approved))
  /\ (forall line, strip line = [] -> read_approved line = None)
  /\ (forall line f, f ∈ fields_of line -> py_int f = None ->
                     read_approved line = None)
  /\ (forall line f,
        f ∈ fields_of line ->
        (int_max_str_digits < count_digits (map to_ascii_decimal f))%nat ->
        read_approved line = None)
  /\ read_approved (u "1," ++ repeat 49 (S int_max_str_digits)) = None
  /\ (forall typed approved more,
        ask_approved typed = (Approved approved, more) ->
        approved <> ∅
        /\ ((-1)%Z ∈ approved \/ 0%Z ∈ approved \/ 1%Z ∈ approved))
  /\ (forall typed replies out_path fs,
        (forall approved, fst (ask_approved typed) <> Approved approved) ->
        files (snd (extract_papers_of_topic replies out_path (World fs typed)))
        = fs).
Proof.
  split.
  { intros line more replies out_path fs Hn.
    unfold extract_papers_of_topic. simpl. rewrite Hn. reflexivity. }
  split; [reflexivity|]. split; [reflexivity|].
  split.
  { intros line more Hn Hr. simpl. rewrite Hn, Hr. reflexivity. }
  split.
  { intros line more approved Hn Hr. simpl. rewrite Hn, Hr. reflexivity. }
  split; [exact read_approved_Some|].
  split.
  { intros line Hs. unfold read_approved. rewrite Hs. reflexivity. }
  split.
  { intros line f Hin Hf. unfold read_approved.
    fold (fields_of line). rewrite (ints_of_None _ _ Hin Hf). reflexivity. }
  split.
  { intros line f Hin Hf. unfold read_approved.
    fold (fields_of line).
    rewrite (ints_of_None _ _ Hin (py_int_limit f Hf)). reflexivity. }
  split; [vm_compute; reflexivity |].
  split.
  { intros typed approved more Ha.
    apply ask_approved_Approved in Ha as (line & _ & _ & Hr).
    apply read_approved_Some in Hr as (zs & _ & _ & Hin).
    split; [|exact Hin]. intros ->.
    destruct Hin as [Hin | [Hin | Hin]]; set_solver. }
  intros typed replies out_path fs Hno.
  unfold extract_papers_of_topic. simpl.
  destruct (ask_approved typed) as [[| approved |] more]; simpl; try reflexivity.
  exfalso. exact (Hno approved eq_refl).
Qed.

(** ** The line log: one line per record *)

Lemma pyval_nested_ind (P : pyval -> Prop) :
  P PNone -> (forall b, P (PBool b)) -> (forall z, P (PInt z)) ->
  (forall t, P (PStr t)) ->
  (forall l, Forall P l -> P (PList l)) ->
  (forall d, Forall (fun kv => P (snd kv)) d -> P (PDict d)) ->
  forall v, P v.
Proof.
  intros HN HB HI HS HL HD.
  fix IH 1. intros [| b | z | t | l | d];
    [exact HN | apply HB | apply HI | apply HS | |].
  - apply HL. induction l as [|x l IHl]; constructor; [apply IH | exact IHl].
  - apply HD. induction d as [|[k x] d IHd]; constructor;
      [apply IH | exact IHd].
Qed.

Lemma count_lines_app s t :
  count_lines (s ++ t) = (count_lines s + count_lines t)%nat.
Proof. induction s as [|c s IH]; simpl; [reflexivity | rewrite IH; lia]. Qed.

Lemma count_lines_digits fuel n acc :
  count_lines (digits_of fuel n acc) = count_lines acc.
Proof.
  revert n acc. induction fuel as [|fuel IH]; intros n acc; simpl;
    [reflexivity|].
  assert (Hd : (48 + n mod 10 =? nl) = false)
    by (apply N.eqb_neq; unfold nl; generalize (n mod 10); intros m; lia).
  destruct (n <? 10); [|rewrite IH]; simpl; rewrite Hd; reflexivity.
Qed.

Lemma count_lines_str_of_Z z : count_lines (str_of_Z z) = 0%nat.
Proof.
  unfold str_of_Z, str_of_N. destruct (z <? 0)%Z; [cbn [count_lines]|];
    rewrite count_lines_digits; reflexivity.
Qed.

Lemma hex_digit_not_nl n : (hex_digit n =? nl) = false.
Proof.
  unfold hex_digit, nl. destruct (n <? 10); apply N.eqb_neq; lia.
Qed.

Lemma count_lines_escape c : count_lines (escape_char c) = 0%nat.
Proof.
  unfold escape_char.
  repeat match goal with
  | |- context [if ?b then _ else _] => destruct b eqn:?; [reflexivity|]
  end.
  destruct (c <? 32).
  - simpl. rewrite !hex_digit_not_nl. reflexivity.
  - simpl. unfold nl.
    match goal with H : (c =? 10) = false |- _ => rewrite H end.
    reflexivity.
Qed.

Lemma count_lines_encode t : count_lines (encode_basestring t) = 0%nat.
Proof.
  unfold encode_basestring. cbn [count_lines]. rewrite count_lines_app.
  replace (count_lines (concat (map escape_char t))) with 0%nat; [reflexivity|].
  induction t as [|c t IH]; simpl; [reflexivity|].
  rewrite count_lines_app, count_lines_escape, <- IH. reflexivity.
Qed.

Lemma count_lines_join sep parts :
  count_lines sep = 0%nat ->
  Forall (fun part => count_lines part = 0%nat) parts ->
  count_lines (join sep parts) = 0%nat.
Proof.
  intros Hs Hp. induction Hp as [|part parts Hpart _ IH]; [reflexivity|].
  destruct parts as [|q parts]; [exact Hpart|].
  change (join sep (part :: q :: parts))
    with (part ++ sep ++ join sep (q :: parts)).
  rewrite !count_lines_app, Hpart, Hs, IH. reflexivity.
Qed.

(** Without [indent], the text of a value has no line end in it. *)
Lemma count_lines_dumps v :
  forall level, count_lines (dumps_at None level v) = 0%nat.
Proof.
  induction v as [| b | z | t | l IH | d IH] using pyval_nested_ind;
    intros level.
  - reflexivity.
  - destruct b; reflexivity.
  - apply count_lines_str_of_Z.
  - apply count_lines_encode.
  - destruct l as [|x l]; [reflexivity|].
    cbn [dumps_at newline_indent item_separator].
    rewrite !count_lines_app, count_lines_join; [reflexivity | reflexivity |].
    apply Forall_map. eapply Forall_impl; [exact IH|].
    intros y Hy. apply Hy.
  - destruct d as [|kv d]; [reflexivity|].
    cbn [dumps_at newline_indent item_separator].
    rewrite !count_lines_app, count_lines_join; [reflexivity | reflexivity |].
    apply Forall_map. eapply Forall_impl; [exact IH|].
    intros [k y] Hy. cbn [fst snd] in *.
    rewrite !count_lines_app, count_lines_encode, Hy. reflexivity.
Qed.

Lemma count_lines_log records :
  count_lines (log_lines records) = length records.
Proof.
  unfold log_lines. induction records as [|r records IH]; [reflexivity|].
  cbn [map concat length]. rewrite !count_lines_app, IH.
  unfold json_dumps. rewrite count_lines_dumps. reflexivity.
Qed.

(** ** The texts the encoder takes *)

Lemma forallb_map {A B} (f : A -> B) (p : B -> bool) l :
  forallb p (map f l) = forallb (fun x => p (f x)) l.
Proof. induction l as [| x l IH]; [reflexivity |]. cbn. rewrite IH. reflexivity. Qed.

Lemma forallb_ext_Forall {A} (p q : A -> bool) l :
  Forall (fun x => p x = q x) l -> forallb p l = forallb q l.
Proof. induction 1 as [| x l Hx _ IH]; [reflexivity |]. cbn. rewrite Hx, IH. reflexivity. Qed.

Lemma encodable_app s t : encodable (s ++ t) = encodable s && encodable t.
Proof. unfold encodable. apply forallb_app. Qed.

Lemma small_not_surrogate c : c < 55296 -> is_surrogate c = false.
Proof.
  intros H. unfold is_surrogate. apply andb_false_iff. left.
  apply N.leb_gt. exact H.
Qed.

Lemma encodable_digits fuel :
  forall n acc, encodable (digits_of fuel n acc) = encodable acc.
Proof.
  induction fuel as [| fuel IH]; intros n acc; [reflexivity |].
  cbn [digits_of].
  assert (Hd : is_surrogate (48 + n mod 10) = false).
  { apply small_not_surrogate.
    pose proof (N.mod_lt n 10 ltac:(lia)) as Hm. revert Hm.
    generalize (n mod 10). intros; lia. }
  destruct (n <? 10); [| rewrite IH]; cbn [encodable forallb];
    rewrite Hd; reflexivity.
Qed.

Lemma encodable_str_of_Z z : encodable (str_of_Z z) = true.
Proof.
  unfold str_of_Z, str_of_N. destruct (z <? 0)%Z;
    [change (45 :: ?s) with ([45] ++ s); rewrite encodable_app |];
    rewrite encodable_digits; reflexivity.
Qed.

Lemma hex_digit_not_surrogate n : n < 16 -> is_surrogate (hex_digit n) = false.
Proof.
  intros Hn. apply small_not_surrogate. unfold hex_digit.
  destruct (n <? 10); lia.
Qed.

Lemma encodable_escape c : encodable (escape_char c) = negb (is_surrogate c).
Proof.
  unfold escape_char.
  repeat match goal with
  | |- context [if ?x =? ?k then _ else _] =>
      destruct (N.eqb_spec x k) as [-> | ?]; [reflexivity |]
  end.
  destruct (N.ltb_spec c 32) as [Hlt | Hge].
  - rewrite (small_not_surrogate c) by lia.
    cbn [encodable forallb].
    rewrite !hex_digit_not_surrogate; [reflexivity | |].
    + apply N.mod_lt. lia.
    + apply N.Div0.div_lt_upper_bound. lia.
  - cbn [encodable forallb]. apply andb_true_r.
Qed.

Lemma encodable_encode s : encodable (encode_basestring s) = encodable s.
Proof.
  unfold encode_basestring.
  change (dq :: ?x) with ([dq] ++ x). rewrite !encodable_app.
  change (encodable [dq]) with true. rewrite andb_true_r. cbn [andb].
  induction s as [| c s IH]; [reflexivity |].
  cbn [map concat]. rewrite encodable_app, encodable_escape, IH. reflexivity.
Qed.

Lemma encodable_indent indent level :
  encodable (newline_indent indent level) = true.
Proof.
  destruct indent as [n |]; [| reflexivity]. cbn [newline_indent].
  change (nl :: ?x) with ([nl] ++ x). rewrite encodable_app.
  induction (n * level)%nat as [| k IH]; [reflexivity | exact IH].
Qed.

Lemma encodable_separator indent level :
  encodable (item_separator indent level) = true.
Proof.
  destruct indent as [n |]; [| reflexivity]. cbn [item_separator].
  change (44 :: ?x) with ([44] ++ x).
  rewrite encodable_app, encodable_indent. reflexivity.
Qed.

Lemma encodable_join sep parts :
  encodable sep = true ->
  encodable (join sep parts) = forallb encodable parts.
Proof.
  intros Hs. induction parts as [| part parts IH]; [reflexivity |].
  destruct parts as [| q parts]; [cbn; rewrite andb_true_r; reflexivity |].
  change (join sep (part :: q :: parts))
    with (part ++ sep ++ join sep (q :: parts)).
  rewrite !encodable_app, Hs, IH. reflexivity.
Qed.

Lemma clean_list l : clean (PList l) = forallb clean l.
Proof.
  induction l as [| x l IH]; [reflexivity |].
  cbn [clean forallb] in IH |- *. rewrite IH. reflexivity.
Qed.

Lemma clean_dict d :
  clean (PDict d)
  = forallb (fun kv => encodable (fst kv) && clean (snd kv)) d.
Proof.
  induction d as [| kv d IH]; [reflexivity |].
  cbn [clean forallb] in IH |- *. rewrite IH. reflexivity.
Qed.

(** The text of a value is encodable exactly when the value is clean,
    whatever the indentation. *)
Lemma encodable_dumps v :
  forall indent level, encodable (dumps_at indent level v) = clean v.
Proof.
  induction v as [| b | z | t | l IH | d IH] using pyval_nested_ind;
    intros indent level.
  - reflexivity.
  - destruct b; reflexivity.
  - apply encodable_str_of_Z.
  - apply encodable_encode.
  - rewrite clean_list. destruct l as [| x l]; [reflexivity |].
    cbn [dumps_at].
    rewrite !encodable_app, !encodable_indent.
    rewrite encodable_join by apply encodable_separator.
    change (encodable [91]) with true. change (encodable [93]) with true.
    rewrite !andb_true_r. cbn [andb].
    rewrite forallb_map. apply forallb_ext_Forall.
    eapply Forall_impl; [exact IH |]. intros y Hy. apply Hy.
  - rewrite clean_dict. destruct d as [| kv d]; [reflexivity |].
    cbn [dumps_at].
    rewrite !encodable_app, !encodable_indent.
    rewrite encodable_join by apply encodable_separator.
    change (encodable [123]) with true. change (encodable [125]) with true.
    rewrite !andb_true_r. cbn [andb].
    rewrite forallb_map. apply forallb_ext_Forall.
    eapply Forall_impl; [exact IH |]. intros [k y] Hy. cbn [fst snd] in *.
    rewrite !encodable_app, encodable_encode, Hy. reflexivity.
Qed.

Lemma encodable_line r : encodable (json_dumps r ++ [nl]) = clean r.
Proof.
  rewrite encodable_app. unfold json_dumps. rewrite encodable_dumps.
  apply andb_true_r.
Qed.

Lemma clean_header_report topic_desc a records :
  clean (PList (header topic_desc a :: records))
  = clean (header topic_desc a) && forallb clean records.
Proof. rewrite clean_list. reflexivity. Qed.

Lemma forallb_filter_clean (keep : pyval -> bool) records :
  forallb clean records = true ->
  forallb clean (List.filter keep records) = true.
Proof.
  induction records as [| r records IH]; [reflexivity |].
  cbn [forallb List.filter]. intros H.
  apply andb_true_iff in H as [Hr Hrs].
  destruct (keep r); cbn [forallb]; rewrite ?Hr; auto.
Qed.

(** ** The classification driver: properties *)

Lemma log_lines_cons r records :
  log_lines (r :: records) = (json_dumps r ++ [nl]) ++ log_lines records.
Proof. reflexivity. Qed.

Lemma jsonl_path_fresh a run_time :
  output_jsonl_path a run_time <> output_path a run_time.
Proof.
  unfold output_jsonl_path. intros H. apply (f_equal length) in H.
  rewrite length_app in H. simpl in H. lia.
Qed.

Lemma world_eta w : World (files w) (answers w) = w.
Proof. destruct w; reflexivity. Qed.

Lemma touch_lookup path fs :
  touch path fs !! path = Some (default [] (fs !! path)).
Proof.
  unfold touch. destruct (fs !! path) as [old |] eqn:E.
  - unfold str in *. rewrite E. reflexivity.
  - apply lookup_insert_eq.
Qed.

Lemma touch_other path fs other :
  other <> path -> touch path fs !! other = fs !! other.
Proof.
  intros Hne. unfold touch. destruct (fs !! path); [reflexivity |].
  apply lookup_insert_ne. congruence.
Qed.

Lemma touch_there path fs : is_Some (fs !! path) -> touch path fs = fs.
Proof. intros [old E]. unfold touch. rewrite E. reflexivity. Qed.

Lemma append_file_run path data w :
  append_file path data w
  = if encodable data
    then (Done tt, set_file path (default [] (files w !! path) ++ data) w)
    else (Raised UnicodeEncodeError, World (touch path (files w)) (answers w)).
Proof.
  unfold append_file, bind, path_exists, touch.
  destruct (files w !! path) as [old|] eqn:Hl.
  - rewrite bool_decide_eq_true_2 by eauto.
    destruct (encodable data); [reflexivity |]. rewrite world_eta.
    reflexivity.
  - rewrite bool_decide_eq_false_2 by (intros [x Hx]; discriminate).
    destruct (encodable data); reflexivity.
Qed.

Lemma log_after_cons log r records fs :
  log_after log records
    (<[log := default [] (fs !! log) ++ json_dumps r ++ [nl]]> fs)
  = log_after log (r :: records) fs.
Proof.
  destruct records as [| r' rs].
  - cbn [log_after log_lines map concat]. rewrite app_nil_r. reflexivity.
  - cbn [log_after]. rewrite lookup_insert_eq, insert_insert_eq.
    cbn [default from_option id].
    rewrite (log_lines_cons r), <- !app_assoc. reflexivity.
Qed.

(** The loop appends one line per paper classified and stops at the first
    call of the judge that fails, or at the first record whose line cannot
    be encoded. *)
Lemma classify_loop_run e topic_desc a log ppinfo_list :
  forall i replies w,
  classify_loop e topic_desc a log i ppinfo_list replies w
  = (match snd (logged e topic_desc a i ppinfo_list) with
     | LoopDone => Done (replies ++ fst (logged e topic_desc a i ppinfo_list))
     | JudgeFails => Raised JudgeError
     | EncodeFails => Raised UnicodeEncodeError
     end,
     World (loop_files log (logged e topic_desc a i ppinfo_list) (files w))
           (answers w)).
Proof.
  induction ppinfo_list as [|ppinfo more IH]; intros i replies w.
  - cbn [classify_loop logged]. unfold ret, loop_files.
    cbn [fst snd log_after]. rewrite app_nil_r, world_eta. reflexivity.
  - cbn [classify_loop logged]. unfold bind at 1, call_judge.
    destruct (judge e i PPFILTER_SYSPROMPT (build_user topic_desc a ppinfo))
      as [reply|]; cbn [ret raise fst snd].
    + unfold bind. rewrite append_file_run.
      destruct (encodable (json_dumps (reply_dict ppinfo reply) ++ [nl])).
      * rewrite IH. cbn [files answers set_file fst snd]. unfold loop_files.
        cbn [fst snd]. rewrite log_after_cons, <- app_assoc.
        destruct (snd (logged e topic_desc a (S i) more)); reflexivity.
      * reflexivity.
    + unfold loop_files. cbn [fst snd log_after]. rewrite world_eta.
      reflexivity.
Qed.

Lemma logged_length e topic_desc a ppinfo_list :
  forall i,
  match snd (logged e topic_desc a i ppinfo_list) with
  | LoopDone =>
      length (fst (logged e topic_desc a i ppinfo_list)) = length ppinfo_list
  | JudgeFails | EncodeFails =>
      (length (fst (logged e topic_desc a i ppinfo_list))
       < length ppinfo_list)%nat
  end.
Proof.
  induction ppinfo_list as [|ppinfo more IH]; intros i; cbn [logged];
    [reflexivity|].
  destruct (judge e i _ _) as [reply |]; cbn [fst snd length]; [| lia].
  destruct (encodable _); cbn [fst snd length]; [| lia].
  specialize (IH (S i)).
  destruct (snd (logged e topic_desc a (S i) more)); lia.
Qed.

(** The records logged are those of the first papers of the list, in
    order, each with the reply the judge gave for it, and clean. *)
Lemma logged_records e topic_desc a ppinfo_list :
  forall i j ppinfo,
    (j < length (fst (logged e topic_desc a i ppinfo_list)))%nat ->
    ppinfo_list !! j = Some ppinfo ->
    exists reply,
      judge e (i + j) PPFILTER_SYSPROMPT (build_user topic_desc a ppinfo)
      = Some reply
      /\ fst (logged e topic_desc a i ppinfo_list) !! j
         = Some (reply_dict ppinfo reply)
      /\ clean (reply_dict ppinfo reply) = true.
Proof.
  induction ppinfo_list as [|p more IH]; intros i j ppinfo Hj Hp;
    [discriminate |].
  cbn [logged] in Hj |- *.
  destruct (judge e i PPFILTER_SYSPROMPT (build_user topic_desc a p))
    as [reply |] eqn:Hr; [| cbn in Hj; lia].
  destruct (encodable (json_dumps (reply_dict p reply) ++ [nl])) eqn:He;
    [| cbn in Hj; lia].
  cbn [fst] in Hj |- *. destruct j as [| j].
  - injection Hp as <-. exists reply. rewrite Nat.add_0_r.
    rewrite encodable_line in He. auto.
  - cbn [length] in Hj.
    replace (i + S j)%nat with (S i + j)%nat by lia.
    apply IH; [lia | exact Hp].
Qed.

Lemma logged_of_first e topic_desc a ppinfo_list :
  forall i,
  Forall2 (fun ppinfo r => exists reply, r = reply_dict ppinfo reply)
    (take (length (fst (logged e topic_desc a i ppinfo_list))) ppinfo_list)
    (fst (logged e topic_desc a i ppinfo_list)).
Proof.
  induction ppinfo_list as [|ppinfo more IH]; intros i; cbn [logged];
    [constructor|].
  destruct (judge e i _ _) as [reply|]; cbn [fst length take];
    [|constructor].
  destruct (encodable _); cbn [fst length take]; [| constructor].
  constructor; [eauto | apply IH].
Qed.

Lemma classified_length e topic_desc a ppinfo_list :
  forall i,
  if snd (classified e topic_desc a i ppinfo_list)
  then length (fst (classified e topic_desc a i ppinfo_list))
       = length ppinfo_list
  else (length (fst (classified e topic_desc a i ppinfo_list))
        < length ppinfo_list)%nat.
Proof.
  induction ppinfo_list as [|ppinfo more IH]; intros i; simpl; [reflexivity|].
  destruct (judge e i _ _); simpl; [|lia].
  specialize (IH (S i)).
  destruct (snd (classified e topic_desc a (S i) more)); lia.
Qed.

(** The records are those of the first papers of the list, in order. *)
Lemma classified_records e topic_desc a ppinfo_list :
  forall i,
  Forall2 (fun ppinfo r => exists reply, r = reply_dict ppinfo reply)
    (take (length (fst (classified e topic_desc a i ppinfo_list))) ppinfo_list)
    (fst (classified e topic_desc a i ppinfo_list)).
Proof.
  induction ppinfo_list as [|ppinfo more IH]; intros i; simpl;
    [constructor|].
  destruct (judge e i _ _) as [reply|]; simpl; [|constructor].
  constructor; [eauto | apply IH].
Qed.

Lemma classified_all e topic_desc a ppinfo_list :
  forall i,
  (forall j ppinfo, ppinfo_list !! j = Some ppinfo ->
     is_Some (judge e (i + j) PPFILTER_SYSPROMPT
                (build_user topic_desc a ppinfo))) ->
  snd (classified e topic_desc a i ppinfo_list) = true
  /\ forall j ppinfo, ppinfo_list !! j = Some ppinfo ->
       exists reply,
         judge e (i + j) PPFILTER_SYSPROMPT (build_user topic_desc a ppinfo)
         = Some reply
         /\ fst (classified e topic_desc a i ppinfo_list) !! j
            = Some (reply_dict ppinfo reply).
Proof.
  induction ppinfo_list as [|ppinfo more IH]; intros i Hj.
  - split; [reflexivity|]. intros j p Hp. discriminate.
  - cbn [classified].
    destruct (Hj 0%nat ppinfo eq_refl) as [reply Hr].
    rewrite Nat.add_0_r in Hr. rewrite Hr. cbn [fst snd].
    destruct (IH (S i)) as [Hok Hrec].
    { intros j p Hp. replace (S i + j)%nat with (i + S j)%nat by lia.
      apply Hj. exact Hp. }
    split; [exact Hok|].
    intros [|j] p Hp.
    + injection Hp as <-. exists reply. rewrite Nat.add_0_r. auto.
    + replace (i + S j)%nat with (S i + j)%nat by lia. apply Hrec. exact Hp.
Qed.

(** The loop seen without the encoder: where every record judged is
    clean, it logs them all. *)
Lemma logged_clean e topic_desc a ppinfo_list :
  forall i,
  forallb clean (fst (classified e topic_desc a i ppinfo_list)) = true ->
  logged e topic_desc a i ppinfo_list
  = (fst (classified e topic_desc a i ppinfo_list),
     if snd (classified e topic_desc a i ppinfo_list)
     then LoopDone else JudgeFails).
Proof.
  induction ppinfo_list as [|ppinfo more IH]; intros i Hc;
    cbn [logged classified] in Hc |- *; [reflexivity |].
  destruct (judge e i _ _) as [reply |]; [| reflexivity].
  cbn [fst snd forallb] in Hc |- *.
  apply andb_true_iff in Hc as [Hr Hrest].
  rewrite encodable_line, Hr, (IH (S i) Hrest). reflexivity.
Qed.

(** A loop that ends well, or on the judge, has logged what was judged. *)
Lemma logged_classified e topic_desc a ppinfo_list :
  forall i,
  snd (logged e topic_desc a i ppinfo_list) <> EncodeFails ->
  fst (logged e topic_desc a i ppinfo_list)
  = fst (classified e topic_desc a i ppinfo_list)
  /\ (snd (logged e topic_desc a i ppinfo_list) = LoopDone
      <-> snd (classified e topic_desc a i ppinfo_list) = true).
Proof.
  induction ppinfo_list as [|ppinfo more IH]; intros i Hc;
    cbn [logged classified] in Hc |- *; [tauto |].
  destruct (judge e i _ _) as [reply |];
    [| split; [reflexivity | split; discriminate]].
  destruct (encodable _); [| contradiction].
  cbn [fst snd] in Hc |- *. destruct (IH (S i) Hc) as [E Hiff].
  rewrite E. split; [reflexivity | exact Hiff].
Qed.

(** The records when the judge answers every call with a reply whose
    record is clean. *)
Lemma classified_clean e topic_desc a ppinfo_list :
  forall i,
  (forall j ppinfo, ppinfo_list !! j = Some ppinfo ->
     exists reply,
       judge e (i + j) PPFILTER_SYSPROMPT (build_user topic_desc a ppinfo)
       = Some reply
       /\ clean (reply_dict ppinfo reply) = true) ->
  forallb clean (fst (classified e topic_desc a i ppinfo_list)) = true
  /\ forall j ppinfo, ppinfo_list !! j = Some ppinfo ->
       is_Some (judge e (i + j) PPFILTER_SYSPROMPT
                  (build_user topic_desc a ppinfo)).
Proof.
  induction ppinfo_list as [|ppinfo more IH]; intros i Hj.
  - split; [reflexivity |]. intros j p Hp. discriminate.
  - destruct (IH (S i)) as [Hrest _].
    { intros j p Hp. replace (S i + j)%nat with (i + S j)%nat by lia.
      apply Hj. exact Hp. }
    split.
    + cbn [classified].
      destruct (Hj 0%nat ppinfo eq_refl) as (reply & Hr & Hc).
      rewrite Nat.add_0_r in Hr. rewrite Hr. cbn [fst forallb].
      rewrite Hc, Hrest. reflexivity.
    + intros j p Hp. destruct (Hj j p Hp) as (reply & Hr & _). eauto.
Qed.

Lemma log_after_lookup log records fs :
  log_after log records fs !! log
  = match records with
    | [] => fs !! log
    | _ => Some (default [] (fs !! log) ++ log_lines records)
    end.
Proof.
  destruct records; [reflexivity|]. unfold log_after. apply lookup_insert_eq.
Qed.

Lemma log_after_other log records fs path :
  path <> log -> log_after log records fs !! path = fs !! path.
Proof.
  intros Hne. destruct records; [reflexivity|]. unfold log_after.
  apply lookup_insert_ne. congruence.
Qed.

Lemma log_after_fresh (log : str) (records : list pyval) (fs : gmap str str) :
  fs !! log = None ->
  count_lines (default [] (log_after log records fs !! log)) = length records.
Proof.
  intros Hnone. rewrite log_after_lookup. unfold str in *. rewrite Hnone.
  destruct records as [|r rs]; [reflexivity|].
  cbn [default from_option id app]. apply count_lines_log.
Qed.

Lemma log_after_content log records fs :
  default [] (log_after log records fs !! log)
  = default [] (fs !! log) ++ log_lines records.
Proof.
  rewrite log_after_lookup. destruct records as [| r rs]; [| reflexivity].
  cbn [log_lines map concat]. rewrite app_nil_r. reflexivity.
Qed.

Lemma loop_files_other log l fs path :
  path <> log -> loop_files log l fs !! path = fs !! path.
Proof.
  intros Hne. unfold loop_files.
  destruct (snd l); rewrite ?touch_other by exact Hne;
    apply log_after_other; exact Hne.
Qed.

(** The whole run of the driver, case by case. *)
Lemma classification_driver_run e topic_desc a run_time ppinfo_list w :
  let out := output_path a run_time in
  let log := output_jsonl_path a run_time in
  let records := fst (logged e topic_desc a 0 ppinfo_list) in
  let replies := header topic_desc a :: records in
  let report := json_dumps_indent4 (PList replies) in
  let fs1 := log_after log records (files w) in
  classification_driver e topic_desc a run_time ppinfo_list w
  = match snd (logged e topic_desc a 0 ppinfo_list) with
    | LoopDone =>
        match final_fault e with
        | NoFault =>
            if encodable report then
              match fs1 !! log with
              | Some _ =>
                  (Done replies,
                   World (delete log (<[out := report]> fs1)) (answers w))
              | None =>
                  (Raised FileNotFoundError,
                   World (<[out := report]> fs1) (answers w))
              end
            else (Raised UnicodeEncodeError,
                  World (<[out := []]> fs1) (answers w))
        | OpenFails => (Raised OSError, World fs1 (answers w))
        | WriteFails partial =>
            if encodable report
            then (Raised OSError, World (<[out := partial]> fs1) (answers w))
            else (Raised UnicodeEncodeError,
                  World (<[out := []]> fs1) (answers w))
        end
    | JudgeFails => (Raised JudgeError, World fs1 (answers w))
    | EncodeFails =>
        (Raised UnicodeEncodeError, World (touch log fs1) (answers w))
    end.
Proof.
  intros out log records replies report fs1.
  unfold classification_driver. fold out log. unfold bind at 1.
  rewrite classify_loop_run. unfold loop_files. fold records fs1.
  destruct (snd (logged e topic_desc a 0 ppinfo_list)); try reflexivity.
  change ([header topic_desc a] ++ records) with replies. fold report.
  unfold bind at 1, write_file.
  destruct (final_fault e) as [| | partial]; try reflexivity;
    (destruct (encodable report); [| reflexivity]); [| reflexivity].
  unfold bind at 1, path_exists. unfold set_file. cbn [files answers].
  rewrite lookup_insert_eq, bool_decide_eq_true_2 by eauto.
  unfold bind, os_remove, ret. cbn [files answers].
  rewrite lookup_insert_ne by (symmetry; apply jsonl_path_fresh).
  destruct (fs1 !! log); reflexivity.
Qed.

(** The driver where every record judged and the header are clean: the
    encoder is never in the way. *)
Lemma classification_driver_clean e topic_desc a run_time ppinfo_list w :
  let out := output_path a run_time in
  let log := output_jsonl_path a run_time in
  let records := fst (classified e topic_desc a 0 ppinfo_list) in
  let replies := header topic_desc a :: records in
  let report := json_dumps_indent4 (PList replies) in
  let fs1 := log_after log records (files w) in
  clean (PList replies) = true ->
  classification_driver e topic_desc a run_time ppinfo_list w
  = if snd (classified e topic_desc a 0 ppinfo_list) then
      match final_fault e with
      | NoFault =>
          match fs1 !! log with
          | Some _ =>
              (Done replies,
               World (delete log (<[out := report]> fs1)) (answers w))
          | None =>
              (Raised FileNotFoundError,
               World (<[out := report]> fs1) (answers w))
          end
      | OpenFails => (Raised OSError, World fs1 (answers w))
      | WriteFails partial =>
          (Raised OSError, World (<[out := partial]> fs1) (answers w))
      end
    else (Raised JudgeError, World fs1 (answers w)).
Proof.
  intros out log records replies report fs1 Hclean.
  pose proof Hclean as Hparts. unfold replies in Hparts.
  rewrite clean_header_report in Hparts.
  apply andb_true_iff in Hparts as [_ Hrecords].
  rewrite classification_driver_run. cbv zeta.
  rewrite (logged_clean e topic_desc a ppinfo_list 0 Hrecords).
  cbn [fst snd]. fold records replies report fs1 out log.
  assert (Henc : encodable report = true).
  { unfold report, json_dumps_indent4. rewrite encodable_dumps.
    exact Hclean. }
  rewrite Henc.
  destruct (snd (classified e topic_desc a 0 ppinfo_list)); reflexivity.
Qed.

(** C3, as the code has it: the line log is removed only after the final
    report was written in full.  When the run is cut short after [k] of the
    papers were logged ([records], those of the first [k] papers), by a call
    of the judge that fails or by a record whose line cannot be encoded, the
    log holds what it held at the start followed by exactly [k] records, one
    line each (so exactly [k] lines when it was not there at the start),
    and the final report file is as it was at the start (absent when it was
    absent); when the write of the final report fails, the log is kept. *)
Theorem durable_log_until_report e topic_desc a run_time ppinfo_list w :
  let out := output_path a run_time in
  let log := output_jsonl_path a run_time in
  let records := fst (logged e topic_desc a 0 ppinfo_list) in
  let loop := snd (logged e topic_desc a 0 ppinfo_list) in
  let run := classification_driver e topic_desc a run_time ppinfo_list w in
  let fs' := files (snd run) in
  let log_kept :=
    match records with
    | [] => files w !! log
    | _ => Some (default [] (files w !! log) ++ log_lines records)
    end in
  let report := json_dumps_indent4 (PList (header topic_desc a :: records)) in
  count_lines (log_lines records) = length records
  /\ Forall2 (fun ppinfo r => exists reply, r = reply_dict ppinfo reply)
       (take (length records) ppinfo_list) records
  /\ (loop = JudgeFails ->
        (length records < length ppinfo_list)%nat
        /\ fst run = Raised JudgeError
        /\ fs' !! log = log_kept
        /\ fs' !! out = files w !! out)
  /\ (loop = EncodeFails ->
        (length records < length ppinfo_list)%nat
        /\ fst run = Raised UnicodeEncodeError
        /\ fs' !! log = Some (default [] (files w !! log) ++ log_lines records)
        /\ fs' !! out = files w !! out)
  /\ (loop = LoopDone ->
      final_fault e <> NoFault \/ encodable report = false ->
        length records = length ppinfo_list
        /\ (fst run = Raised OSError \/ fst run = Raised UnicodeEncodeError)
        /\ fs' !! log = log_kept)
  /\ (loop = LoopDone -> final_fault e = NoFault -> encodable report = true ->
        fs' !! out = Some report /\ fs' !! log = None)
  /\ (fs' !! log = None -> log_kept <> None ->
        loop = LoopDone /\ final_fault e = NoFault
        /\ encodable report = true /\ fs' !! out = Some report)
  /\ (files w !! log = None -> files w !! out = None -> loop <> LoopDone ->
        fs' !! out = None
        /\ count_lines (default [] (fs' !! log)) = length records).
Proof.
  intros out log records loop run fs' log_kept report.
  assert (Hne : out <> log) by (symmetry; apply jsonl_path_fresh).
  pose proof (logged_length e topic_desc a ppinfo_list 0%nat) as Hlen.
  pose proof (classification_driver_run e topic_desc a run_time ppinfo_list w)
    as Hrun.
  cbv zeta in Hrun. fold out log records loop in Hrun, Hlen.
  fold report in Hrun. fold run in Hrun.
  pose proof (log_after_lookup log records (files w)) as Hlog.
  fold log_kept in Hlog.
  pose proof (log_after_other log records (files w) out Hne) as Hout.
  pose proof (log_after_content log records (files w)) as Hcontent.
  split; [apply count_lines_log|].
  split; [apply logged_of_first|].
  split.
  { intros Hd. rewrite Hd in Hrun, Hlen. subst fs'. rewrite Hrun.
    cbn [fst snd files]. auto. }
  split.
  { intros Hd. rewrite Hd in Hrun, Hlen. subst fs'. rewrite Hrun.
    cbn [fst snd files].
    rewrite touch_lookup, touch_other, Hcontent by exact Hne. auto. }
  split.
  { intros Hd Hfault. rewrite Hd in Hrun, Hlen. subst fs'.
    split; [exact Hlen |].
    destruct (final_fault e) as [| | partial];
      [destruct Hfault as [Hfault | Hfault]; [congruence |];
       rewrite Hfault in Hrun
      | | destruct (encodable report)];
      rewrite Hrun; cbn [fst snd files];
      rewrite ?lookup_insert_ne by exact Hne; auto. }
  split.
  { intros Hd Hfault Henc. rewrite Hd, Hfault, Henc in Hrun. subst fs'.
    destruct (log_after log records (files w) !! log) eqn:Hl;
      rewrite Hrun; cbn [snd files].
    - rewrite lookup_delete_ne by congruence.
      rewrite lookup_insert_eq, lookup_delete_eq. auto.
    - rewrite lookup_insert_eq, lookup_insert_ne by exact Hne. auto. }
  split.
  { intros Hgone Hkept. subst fs'.
    assert (Hstays : log_after log records (files w) !! log <> None)
      by (intros E; apply Hkept; rewrite <- Hlog; exact E).
    destruct loop.
    - destruct (final_fault e) as [| | partial].
      + destruct (encodable report).
        * split; [reflexivity|]. split; [reflexivity|].
          split; [reflexivity|].
          destruct (log_after log records (files w) !! log) eqn:Hl;
            rewrite Hrun; cbn [snd files].
          -- rewrite lookup_delete_ne by congruence. apply lookup_insert_eq.
          -- apply lookup_insert_eq.
        * rewrite Hrun in Hgone. cbn [snd files] in Hgone.
          rewrite lookup_insert_ne in Hgone by exact Hne. contradiction.
      + rewrite Hrun in Hgone. cbn [snd files] in Hgone. contradiction.
      + destruct (encodable report); rewrite Hrun in Hgone;
          cbn [snd files] in Hgone;
          rewrite lookup_insert_ne in Hgone by exact Hne; contradiction.
    - rewrite Hrun in Hgone. cbn [snd files] in Hgone. contradiction.
    - rewrite Hrun in Hgone. cbn [snd files] in Hgone.
      rewrite touch_lookup in Hgone. discriminate. }
  intros Hnolog Hnoout Hd. subst fs'.
  pose proof (log_after_fresh log records (files w) Hnolog) as Hfresh.
  destruct loop; [congruence | |]; rewrite Hrun; cbn [snd files].
  - rewrite Hout. auto.
  - rewrite touch_lookup, touch_other, Hout by exact Hne. auto.
Qed.

Lemma logged_done e topic_desc a ppinfo_list :
  snd (logged e topic_desc a 0 ppinfo_list) = LoopDone ->
  length (fst (logged e topic_desc a 0 ppinfo_list)) = length ppinfo_list
  /\ forall i ppinfo, ppinfo_list !! i = Some ppinfo ->
       exists reply,
         judge e i PPFILTER_SYSPROMPT (build_user topic_desc a ppinfo)
         = Some reply
         /\ fst (logged e topic_desc a 0 ppinfo_list) !! i
            = Some (reply_dict ppinfo reply).
Proof.
  intros Hd. pose proof (logged_length e topic_desc a ppinfo_list 0) as Hlen.
  rewrite Hd in Hlen. split; [exact Hlen |].
  intros i ppinfo Hp.
  destruct (logged_records e topic_desc a ppinfo_list 0 i ppinfo)
    as (reply & Hr & Hrec & _).
  - rewrite Hlen. apply lookup_lt_Some in Hp. exact Hp.
  - exact Hp.
  - exists reply. auto.
Qed.

(** C5: whatever the judge answers, the report the loop returns is the
    header record followed by exactly one record per input paper, in the
    order of the input, each with the reply given for that paper; when the
    final write meets no failure and the text can be encoded, that list is
    what the report file holds.  The loop does return when the judge
    answers every call and every record is clean.  The header carries the
    topic, the venue and the year; a record the title and the abstract of
    its paper, the verdict extracted from the reply, and the reply. *)
Theorem run_report_in_order e topic_desc a run_time ppinfo_list w :
  let out := output_path a run_time in
  let log := output_jsonl_path a run_time in
  let run := classification_driver e topic_desc a run_time ppinfo_list w in
  let loop :=
    classify_loop e topic_desc a log 0 ppinfo_list [header topic_desc a] w in
  (forall replies,
     fst loop = Done replies ->
     exists results,
       replies = header topic_desc a :: results
       /\ length results = length ppinfo_list
       /\ (forall i ppinfo, ppinfo_list !! i = Some ppinfo ->
             exists reply,
               judge e i PPFILTER_SYSPROMPT (build_user topic_desc a ppinfo)
               = Some reply
               /\ results !! i = Some (reply_dict ppinfo reply))
       /\ (final_fault e = NoFault ->
           encodable (json_dumps_indent4 (PList replies)) = true ->
             files (snd run) !! out
             = Some (json_dumps_indent4 (PList replies))
             /\ (fst run = Done replies
                 \/ (ppinfo_list = [] /\ files w !! log = None
                     /\ fst run = Raised FileNotFoundError))))
  /\ ((forall i ppinfo, ppinfo_list !! i = Some ppinfo ->
         exists reply,
           judge e i PPFILTER_SYSPROMPT (build_user topic_desc a ppinfo)
           = Some reply
           /\ clean (reply_dict ppinfo reply) = true) ->
      exists replies, fst loop = Done replies)
  /\ (record_keys (header topic_desc a) = [u "topic_desc"; u "venue"; u "year"]
      /\ record_field (u "topic_desc") (header topic_desc a) = PStr topic_desc
      /\ record_field (u "venue") (header topic_desc a) = conf_value a
      /\ record_field (u "year") (header topic_desc a) = year_value a)
  /\ (forall ppinfo reply,
        record_keys (reply_dict ppinfo reply)
        = [u "paper_title"; u "paper_abstract"; u "is_of_topic";
           u "llm_analysis"]
        /\ record_field (u "paper_title") (reply_dict ppinfo reply)
           = PStr (title ppinfo)
        /\ record_field (u "paper_abstract") (reply_dict ppinfo reply)
           = PStr (abstract ppinfo)
        /\ record_field (u "is_of_topic") (reply_dict ppinfo reply)
           = verdict_value (extract_conclusion reply)
        /\ record_field (u "llm_analysis") (reply_dict ppinfo reply) = reply).
Proof.
  intros out log run loop.
  split.
  { intros replies Hloop. subst loop.
    rewrite classify_loop_run in Hloop. cbn [fst] in Hloop.
    destruct (snd (logged e topic_desc a 0 ppinfo_list)) eqn:Hd;
      try discriminate.
    injection Hloop as <-.
    destruct (logged_done e topic_desc a ppinfo_list Hd) as [Hlen Hrec].
    exists (fst (logged e topic_desc a 0 ppinfo_list)).
    split; [reflexivity |]. split; [exact Hlen |]. split; [exact Hrec |].
    intros Hfault Henc.
    pose proof (classification_driver_run e topic_desc a run_time ppinfo_list
                  w) as Hrun.
    cbv zeta in Hrun. fold out log run in Hrun.
    change ([header topic_desc a] ++ ?l) with (header topic_desc a :: l)
      in Henc |- *.
    rewrite Hd, Hfault, Henc in Hrun.
    assert (Hne : out <> log) by (symmetry; apply jsonl_path_fresh).
    pose proof (log_after_lookup log
                  (fst (logged e topic_desc a 0 ppinfo_list)) (files w))
      as Hlog.
    destruct (log_after log _ (files w) !! log) eqn:Hl;
      rewrite Hrun; cbn [fst snd files].
    - rewrite lookup_delete_ne by congruence.
      split; [apply lookup_insert_eq | left; reflexivity].
    - split; [apply lookup_insert_eq|]. right.
      destruct (fst (logged e topic_desc a 0 ppinfo_list));
        [| discriminate].
      destruct ppinfo_list; [| discriminate]. auto. }
  split.
  { intros Hjudge. subst loop. rewrite classify_loop_run. cbn [fst].
    destruct (classified_clean e topic_desc a ppinfo_list 0 Hjudge)
      as [Hclean Hsome].
    destruct (classified_all e topic_desc a ppinfo_list 0 Hsome) as [Hok _].
    rewrite (logged_clean e topic_desc a ppinfo_list 0 Hclean), Hok.
    cbn [fst snd]. eauto. }
  split; [repeat split |].
  intros ppinfo reply. repeat split.
Qed.

(** ** The topic filter: what it computes, and when it raises *)

Lemma filter_replies_run approved replies :
  filter_replies approved replies
  = match first_error replies with
    | Some e => inl e
    | None => inr (List.filter (approved_record approved) replies)
    end.
Proof.
  induction replies as [|r more IH]; [reflexivity|].
  cbn [filter_replies first_error List.filter].
  destruct r as [| b | z | t | l | d]; try reflexivity.
  cbn [record_error approved_record].
  destruct (dict_get d (u "is_of_topic")) as [| b | z | t | l | d'];
    cbn [is_none in_approved int_of_value]; rewrite ?IH;
    destruct (first_error more); try reflexivity;
    match goal with |- context [bool_decide ?P] => destruct (bool_decide P) end;
    reflexivity.
Qed.

Lemma sublist_List_filter {A} (f : A -> bool) (l : list A) :
  sublist (List.filter f l) l.
Proof.
  induction l as [|x l IH]; simpl; [constructor|].
  destruct (f x); [apply sublist_skip | apply sublist_cons]; exact IH.
Qed.

Lemma first_error_filter f replies :
  first_error replies = None -> first_error (List.filter f replies) = None.
Proof.
  induction replies as [|r more IH]; [reflexivity|]. simpl.
  destruct (record_error r) eqn:Hr; [discriminate|]. intros Hm.
  destruct (f r); simpl; [rewrite Hr|]; auto.
Qed.

Lemma approved_record_inter s1 s2 r :
  approved_record (s1 ∩ s2) r = approved_record s1 r && approved_record s2 r.
Proof.
  destruct r as [| b | z | t | l | d]; try reflexivity. simpl.
  destruct (int_of_value _) as [z|]; [|reflexivity].
  apply eq_true_iff_eq. rewrite andb_true_iff, !bool_decide_eq_true.
  apply elem_of_intersection.
Qed.

Lemma List_filter_filter {A} (f g : A -> bool) (l : list A) :
  List.filter g (List.filter f l) = List.filter (fun x => f x && g x) l.
Proof.
  induction l as [|x l IH]; [reflexivity|]. simpl.
  destruct (f x); simpl; [destruct (g x); simpl|]; rewrite IH; reflexivity.
Qed.

(** X1: the filter loop in one formula.  It raises exactly when some
    record is not a dict ([AttributeError]) or has a list or dict as verdict
    ([TypeError]), with the exception of the first such record and whatever
    the approved set is; otherwise it returns, in the order of the input,
    exactly the records whose verdict stands for an integer of the set. *)
Theorem filter_replies_exact approved replies :
  (forall e, first_error replies = Some e ->
             filter_replies approved replies = inl e)
  /\ (first_error replies = None ->
        filter_replies approved replies
        = inr (List.filter (approved_record approved) replies))
  /\ (forall kept, filter_replies approved replies = inr kept ->
        sublist kept replies
        /\ forall r, r ∈ kept <-> r ∈ replies /\ approved_record approved r = true).
Proof.
  rewrite filter_replies_run. split; [intros e ->; reflexivity|].
  split; [intros ->; reflexivity|].
  intros kept Hk. destruct (first_error replies); [discriminate|].
  injection Hk as <-. split; [apply sublist_List_filter|].
  intros r. rewrite !list_elem_of_In, filter_In. reflexivity.
Qed.

(** X2: filtering what one approved set kept by a second set gives what
    the two sets' intersection keeps from the input. *)
Theorem filter_replies_twice s1 s2 replies kept :
  filter_replies s1 replies = inr kept ->
  filter_replies s2 kept = filter_replies (s1 ∩ s2) replies.
Proof.
  rewrite !filter_replies_run. destruct (first_error replies) eqn:He;
    [discriminate|].
  intros Hk. injection Hk as <-.
  rewrite (first_error_filter _ _ He), List_filter_filter.
  f_equal. apply filter_ext. intros r. symmetry. apply approved_record_inter.
Qed.

(** X3: approving more verdicts never drops a record, and does not decide
    whether the loop raises. *)
Theorem filter_replies_monotone s1 s2 replies kept1 :
  s1 ⊆ s2 ->
  filter_replies s1 replies = inr kept1 ->
  exists kept2, filter_replies s2 replies = inr kept2 /\ sublist kept1 kept2.
Proof.
  rewrite !filter_replies_run. intros Hs.
  destruct (first_error replies); [discriminate|].
  intros Hk. injection Hk as <-. eexists. split; [reflexivity|].
  induction replies as [|r more IH]; simpl; [constructor|].
  destruct (approved_record s1 r) eqn:H1.
  - assert (H2 : approved_record s2 r = true).
    { destruct r as [| b | z | t | l | d]; try discriminate. simpl in *.
      destruct (int_of_value _) as [z|]; [|discriminate].
      apply bool_decide_eq_true in H1. apply bool_decide_eq_true. auto. }
    rewrite H2. apply sublist_skip. exact IH.
  - destruct (approved_record s2 r); [apply sublist_cons|]; exact IH.
Qed.

(** ** The exporter: what it touches *)

Lemma ask_approved_suffix typed :
  exists used, typed = used ++ snd (ask_approved typed).
Proof.
  induction typed as [|line more [used IH]]; [exists []; reflexivity|].
  simpl. destruct (lower_is_n line); [exists [line]; reflexivity|].
  destruct (read_approved line); [exists [line]; reflexivity|].
  exists (line :: used). simpl. rewrite <- IH. reflexivity.
Qed.

(** X4: whatever happens, the exporter changes no file other than
    [out_path] and only consumes answers from the front; when it does not
    end normally it has changed no file at all, or, the text of the export
    not being encodable, it has emptied [out_path] and raised
    [UnicodeEncodeError]; when the loop raises it changes no file. *)
Theorem export_touches_one_file replies out_path w :
  let r := extract_papers_of_topic replies out_path w in
  (forall path, path <> out_path -> files (snd r) !! path = files w !! path)
  /\ (exists used, answers w = used ++ answers (snd r))
  /\ (fst r <> Done tt ->
        files (snd r) = files w
        \/ (fst r = Raised UnicodeEncodeError
            /\ files (snd r) = <[out_path := []]> (files w)))
  /\ (forall e approved more,
        first_error replies = Some e ->
        ask_approved (answers w) = (Approved approved, more) ->
        fst r = Raised e /\ files (snd r) = files w).
Proof.
  cbv zeta. unfold extract_papers_of_topic.
  pose proof (ask_approved_suffix (answers w)) as [used Hused].
  destruct (ask_approved (answers w)) as [[| approved |] more] eqn:Ha;
    cbn [snd] in Hused.
  - split; [intros path _; reflexivity|].
    split; [exists used; exact Hused|].
    split; [intros _; left; reflexivity|].
    intros e' approved' more' _ H. discriminate.
  - rewrite filter_replies_run. destruct (first_error replies) as [e0|] eqn:He.
    + split; [intros path _; reflexivity|].
      split; [exists used; exact Hused|].
      split; [intros _; left; reflexivity|].
      intros e' approved' more' He' _. injection He' as <-.
      split; reflexivity.
    + unfold write_file. destruct (encodable _);
        cbn [set_file files answers fst snd].
      * split; [intros path Hp; apply lookup_insert_ne; congruence|].
        split; [exists used; exact Hused|]. split; [congruence|].
        intros e' approved' more' He' _. discriminate.
      * split; [intros path Hp; apply lookup_insert_ne; congruence|].
        split; [exists used; exact Hused|].
        split; [intros _; right; split; reflexivity|].
        intros e' approved' more' He' _. discriminate.
  - split; [intros path _; reflexivity|].
    split; [exists used; exact Hused|].
    split; [intros _; left; reflexivity|].
    intros e' approved' more' _ H. discriminate.
Qed.

Lemma ask_approved_skip bad typed :
  Forall (fun line => lower_is_n line = false /\ read_approved line = None) bad ->
  ask_approved (bad ++ typed) = ask_approved typed.
Proof.
  induction 1 as [|line bad [Hn Hr] _ IH]; [reflexivity|].
  simpl. rewrite Hn, Hr. exact IH.
Qed.

(** X5: any number of answers that are neither [n] nor an acceptable
    selection are passed over, and the first answer after them decides; when
    no other answer follows, the prompt is repeated for ever and no file is
    written. *)
Theorem invalid_answers_skipped bad typed :
  Forall (fun line => lower_is_n line = false /\ read_approved line = None) bad ->
  ask_approved (bad ++ typed) = ask_approved typed
  /\ (forall replies out_path fs,
        extract_papers_of_topic replies out_path (World fs (bad ++ typed))
        = extract_papers_of_topic replies out_path (World fs typed))
  /\ (forall replies out_path fs,
        extract_papers_of_topic replies out_path (World fs bad)
        = (Hangs, World fs [])).
Proof.
  intros Hbad. pose proof (ask_approved_skip bad typed Hbad) as Hskip.
  split; [exact Hskip|]. split.
  - intros replies out_path fs. unfold extract_papers_of_topic.
    cbn [answers files]. rewrite Hskip. reflexivity.
  - intros replies out_path fs. unfold extract_papers_of_topic.
    cbn [answers files].
    pose proof (ask_approved_skip bad [] Hbad) as H0.
    rewrite app_nil_r in H0. rewrite H0. reflexivity.
Qed.

(** ** The driver and the exporter together *)

Lemma reply_dict_safe ppinfo reply : record_error (reply_dict ppinfo reply) = None.
Proof.
  unfold reply_dict, record_error.
  change (dict_get _ (u "is_of_topic"))
    with (verdict_value (extract_conclusion reply)).
  destruct (extract_conclusion reply); reflexivity.
Qed.

Lemma classified_from_papers e topic_desc a ppinfo_list :
  forall i,
  Forall (fun r => exists ppinfo reply,
            ppinfo ∈ ppinfo_list /\ r = reply_dict ppinfo reply)
    (fst (classified e topic_desc a i ppinfo_list)).
Proof.
  induction ppinfo_list as [|ppinfo more IH]; intros i; simpl; [constructor|].
  destruct (judge e i _ _) as [reply|]; simpl; [|constructor].
  constructor.
  - exists ppinfo, reply. split; [left | reflexivity].
  - eapply Forall_impl; [apply IH|].
    intros r (p & rp & Hin & ->). exists p, rp. split; [right; exact Hin | reflexivity].
Qed.

Lemma first_error_safe records :
  Forall (fun r => record_error r = None) records -> first_error records = None.
Proof.
  induction 1 as [|r records Hr _ IH]; [reflexivity|]. simpl. rewrite Hr. exact IH.
Qed.

Lemma classified_safe e topic_desc a i ppinfo_list :
  first_error (fst (classified e topic_desc a i ppinfo_list)) = None.
Proof.
  apply first_error_safe. eapply Forall_impl; [apply classified_from_papers|].
  intros r (p & reply & _ & ->). apply reply_dict_safe.
Qed.

(** X6: the exporter never raises on a report the driver built: it skips
    the header and keeps exactly the records with an approved verdict.  Each
    record of the report holds the title and abstract of an input paper, and
    its verdict is what [extract_conclusion] gives on the raw reply stored
    beside it; so the stored reply of every exported record yields an
    approved verdict. *)
Theorem driver_report_exportable e topic_desc a ppinfo_list approved :
  let records := fst (classified e topic_desc a 0 ppinfo_list) in
  filter_replies approved (header topic_desc a :: records)
  = inr (List.filter (approved_record approved) records)
  /\ Forall (fun r =>
       record_field (u "is_of_topic") r
       = verdict_value (extract_conclusion (record_field (u "llm_analysis") r))
       /\ exists ppinfo, ppinfo ∈ ppinfo_list
            /\ record_field (u "paper_title") r = PStr (title ppinfo)
            /\ record_field (u "paper_abstract") r = PStr (abstract ppinfo))
     records
  /\ (forall r, r ∈ List.filter (approved_record approved) records ->
        exists z, z ∈ approved
          /\ extract_conclusion (record_field (u "llm_analysis") r) = Some z).
Proof.
  intros records.
  assert (Hrec : Forall (fun r =>
       record_field (u "is_of_topic") r
       = verdict_value (extract_conclusion (record_field (u "llm_analysis") r))
       /\ exists ppinfo, ppinfo ∈ ppinfo_list
            /\ record_field (u "paper_title") r = PStr (title ppinfo)
            /\ record_field (u "paper_abstract") r = PStr (abstract ppinfo))
     records).
  { eapply Forall_impl; [apply classified_from_papers|].
    intros r (p & reply & Hin & ->). split; [reflexivity|].
    exists p. split; [exact Hin|]. split; reflexivity. }
  split.
  { rewrite filter_replies_header, filter_replies_run.
    unfold records. rewrite classified_safe. reflexivity. }
  split; [exact Hrec|].
  intros r Hr. apply list_elem_of_In, filter_In in Hr as [Hin Happ].
  apply list_elem_of_In in Hin.
  rewrite Forall_forall in Hrec. destruct (Hrec r Hin) as [Hv _].
  destruct r as [| b | z | t | l | d]; try discriminate.
  cbn [record_field approved_record] in *. rewrite Hv in Happ.
  destruct (extract_conclusion (dict_get d (u "llm_analysis"))) as [z|];
    [|discriminate].
  exists z. split; [|reflexivity]. apply bool_decide_eq_true in Happ. exact Happ.
Qed.

Lemma classification_driver_frame e topic_desc a run_time ppinfo_list w :
  answers (snd (classification_driver e topic_desc a run_time ppinfo_list w))
  = answers w
  /\ forall path,
       path <> output_path a run_time ->
       path <> output_jsonl_path a run_time ->
       files (snd (classification_driver e topic_desc a run_time ppinfo_list w))
       !! path = files w !! path.
Proof.
  rewrite (classification_driver_run e topic_desc a run_time ppinfo_list w).
  cbv zeta.
  destruct (snd (logged e topic_desc a 0 ppinfo_list));
    [destruct (final_fault e) as [| | partial];
     [destruct (encodable _);
      [destruct (log_after _ _ (files w) !! output_jsonl_path a run_time) |]
     | | destruct (encodable _)] | |];
    (split; [reflexivity |]); intros path Ho Hl; cbn [snd files];
    rewrite ?lookup_delete_ne, ?lookup_insert_ne, ?touch_other by congruence;
    apply log_after_other; exact Hl.
Qed.

(** X9: in every outcome the driver changes no file other than the report
    and the line log, and it consumes none of the operator's answers. *)
Theorem driver_touches_two_files e topic_desc a run_time ppinfo_list w :
  let run := classification_driver e topic_desc a run_time ppinfo_list w in
  answers (snd run) = answers w
  /\ forall path,
       path <> output_path a run_time ->
       path <> output_jsonl_path a run_time ->
       files (snd run) !! path = files w !! path.
Proof.
  cbv zeta. split.
  - apply classification_driver_frame.
  - intros path Ho Hl. apply classification_driver_frame; assumption.
Qed.

Lemma default_paths_distinct a run_time :
  output a = None ->
  approved_path a run_time <> output_path a run_time
  /\ approved_path a run_time <> output_jsonl_path a run_time.
Proof.
  intros Ho. unfold output_jsonl_path, output_path, approved_path. rewrite Ho.
  split; intros H; apply (f_equal head) in H; discriminate H.
Qed.

(** X7: a whole run under the default file names.  When the judge answers
    every call, the header and every record are clean (so that each write
    can be encoded), the write of the report meets no failure and the
    operator approves a set, the run ends normally with the full report in
    its file, the line log gone, and the export file holding exactly the
    report's records with an approved verdict; every other file is as
    before. *)
Theorem main_complete_run e topic_desc a run_time ppinfo_list w approved more :
  output a = None ->
  (forall i ppinfo, ppinfo_list !! i = Some ppinfo ->
     exists reply,
       judge e i PPFILTER_SYSPROMPT (build_user topic_desc a ppinfo)
       = Some reply
       /\ clean (reply_dict ppinfo reply) = true) ->
  clean (header topic_desc a) = true ->
  final_fault e = NoFault ->
  ppinfo_list <> [] ->
  ask_approved (answers w) = (Approved approved, more) ->
  let run := main e topic_desc a run_time ppinfo_list w in
  let records := fst (classified e topic_desc a 0 ppinfo_list) in
  fst run = Done tt
  /\ answers (snd run) = more
  /\ length records = length ppinfo_list
  /\ files (snd run) !! output_path a run_time
     = Some (json_dumps_indent4 (PList (header topic_desc a :: records)))
  /\ files (snd run) !! output_jsonl_path a run_time = None
  /\ files (snd run) !! approved_path a run_time
     = Some (json_dumps_indent4
               (PList (List.filter (approved_record approved) records)))
  /\ (forall path,
        path <> output_path a run_time ->
        path <> output_jsonl_path a run_time ->
        path <> approved_path a run_time ->
        files (snd run) !! path = files w !! path).
Proof.
  intros Ho Hjudge Hhead Hfault Hne Hans run records.
  destruct (default_paths_distinct a run_time Ho) as [Hd1 Hd2].
  destruct (classified_clean e topic_desc a ppinfo_list 0%nat Hjudge)
    as [Hclean Hsome].
  destruct (classified_all e topic_desc a ppinfo_list 0%nat Hsome) as [Hok _].
  pose proof (classified_length e topic_desc a ppinfo_list 0%nat) as Hlen.
  rewrite Hok in Hlen. fold records in Hlen, Hclean.
  assert (Hreport : clean (PList (header topic_desc a :: records)) = true)
    by (rewrite clean_header_report, Hhead, Hclean; reflexivity).
  assert (Hexport : encodable
                      (json_dumps_indent4
                         (PList (List.filter (approved_record approved)
                                   records))) = true).
  { unfold json_dumps_indent4. rewrite encodable_dumps, clean_list.
    apply forallb_filter_clean. exact Hclean. }
  assert (Hlog : exists old,
    log_after (output_jsonl_path a run_time) records (files w)
      !! output_jsonl_path a run_time = Some old).
  { rewrite log_after_lookup. destruct records as [|r rs]; [|eauto].
    destruct ppinfo_list; [congruence | discriminate]. }
  destruct Hlog as [old Hlog].
  assert (Hrun : run
    = (Done tt,
       World (<[approved_path a run_time :=
                  json_dumps_indent4
                    (PList (List.filter (approved_record approved) records))]>
                (delete (output_jsonl_path a run_time)
                   (<[output_path a run_time :=
                        json_dumps_indent4 (PList (header topic_desc a :: records))]>
                      (log_after (output_jsonl_path a run_time) records (files w)))))
             more)).
  { unfold run, main, bind.
    rewrite (classification_driver_clean e topic_desc a run_time ppinfo_list w
               Hreport).
    rewrite Hok, Hfault. fold records. rewrite Hlog.
    unfold extract_papers_of_topic. cbn [answers files]. rewrite Hans.
    rewrite filter_replies_header, filter_replies_run.
    unfold records. rewrite classified_safe. fold records.
    unfold write_file. rewrite Hexport. reflexivity. }
  rewrite Hrun. cbn [fst snd files answers].
  split; [reflexivity|]. split; [reflexivity|]. split; [exact Hlen|].
  split.
  { rewrite lookup_insert_ne by exact Hd1.
    rewrite lookup_delete_ne by apply jsonl_path_fresh.
    apply lookup_insert_eq. }
  split.
  { rewrite lookup_insert_ne by exact Hd2. apply lookup_delete_eq. }
  split; [apply lookup_insert_eq|].
  intros path Hp1 Hp2 Hp3.
  rewrite lookup_insert_ne by congruence.
  rewrite lookup_delete_ne by congruence.
  rewrite lookup_insert_ne by congruence.
  apply log_after_other. exact Hp2.
Qed.

(** X8: a run over an empty paper list.  The report, holding the header
    alone, is written and the removal of the line log follows: when there
    is no such file the run ends there with [FileNotFoundError] and the
    operator is never asked; when an earlier run left one, it is removed.
    A header that cannot be encoded makes the write raise
    [UnicodeEncodeError] instead: the report file is left empty and the line
    log is not removed. *)
Theorem main_empty_list e topic_desc a run_time w :
  final_fault e = NoFault ->
  let out := output_path a run_time in
  let log := output_jsonl_path a run_time in
  let report := json_dumps_indent4 (PList [header topic_desc a]) in
  (encodable report = true ->
     (files w !! log = None ->
        main e topic_desc a run_time [] w
        = (Raised FileNotFoundError,
           World (<[out := report]> (files w)) (answers w)))
     /\ (is_Some (files w !! log) ->
           classification_driver e topic_desc a run_time [] w
           = (Done [header topic_desc a],
              World (delete log (<[out := report]> (files w))) (answers w))))
  /\ (encodable report = false ->
        main e topic_desc a run_time [] w
        = (Raised UnicodeEncodeError,
           World (<[out := []]> (files w)) (answers w))).
Proof.
  intros Hfault out log report.
  pose proof (classification_driver_run e topic_desc a run_time [] w) as Hrun.
  cbv zeta in Hrun. cbn [logged fst snd log_after] in Hrun.
  rewrite Hfault in Hrun. fold out log report in Hrun.
  split; [intros Henc; split |].
  - intros Hnone. unfold main, bind. rewrite Hrun, Henc.
    unfold str in *. rewrite Hnone. reflexivity.
  - intros [old Hold]. rewrite Hrun, Henc.
    unfold str in *. rewrite Hold. reflexivity.
  - intros Henc. unfold main, bind. rewrite Hrun, Henc. reflexivity.
Qed.

(** X10: the chain of [replace] calls on every input.  The user message is
    the one-pass substitution of: the topic after the four later calls acted
    on it, the title after the three later calls, the venue after the two
    later calls, the year after the last call, and the abstract itself. *)
Theorem build_user_chain topic_desc a ppinfo :
  let r_abstract := replace ph_abstract (abstract ppinfo) in
  let r_year t := r_abstract (replace ph_year (str_year a) t) in
  let r_venue t := r_year (replace ph_venue (str_conf a) t) in
  let r_title t := r_venue (replace ph_title (title ppinfo) t) in
  build_user topic_desc a ppinfo
  = render_once (r_title topic_desc)
      (Args (Some (r_year (str_conf a))) (Some (r_abstract (str_year a)))
         (output a))
      (Paper (r_venue (title ppinfo)) (abstract ppinfo)).
Proof.
  intros r_abstract r_year r_venue r_title.
  pose proof (build_user_blocks topic_desc a ppinfo) as H. cbv zeta in H.
  rewrite H. reflexivity.
Qed.

(** ** The verdict extractor: what a match is made of *)

(** A pattern without the group consumes a stretch of the text made of
    code points it can consume, and leaves the captured text as it was. *)
Lemma rmatch_sound ic P r :
  no_group r = true -> eats ic P r ->
  forall st k res, rmatch ic r st k = Some res ->
  exists st' w, rest st = w ++ rest st' /\ Forall P w
                /\ cap st' = cap st /\ k st' = Some res.
Proof.
  assert (Hone : forall (p : char -> bool) st k res,
    (forall x, p x = true -> P x) -> one p st k = Some res ->
    exists st' w, rest st = w ++ rest st' /\ Forall P w
                  /\ cap st' = cap st /\ k st' = Some res).
  { intros p st k res Hp H.
    apply one_Some in H as (x & xs & Hr & Hx & H).
    exists (advance x xs st), [x]. rewrite Hr. auto. }
  induction r as [| c | | cs | r1 IH1 r2 IH2 | r1 IH1 r2 IH2 | r1 IH1
                 | r1 IH1 | r1 _ |]; simpl; intros Hg He st k res H;
    try discriminate.
  - exists st, []. auto.
  - refine (Hone _ st k res _ H). exact He.
  - refine (Hone _ st k res _ H). exact He.
  - refine (Hone _ st k res _ H). exact He.
  - apply andb_true_iff in Hg as [Hg1 Hg2]. destruct He as [He1 He2].
    apply (IH1 Hg1 He1) in H as (st1 & w1 & Hr1 & Hw1 & Hc1 & H).
    apply (IH2 Hg2 He2) in H as (st2 & w2 & Hr2 & Hw2 & Hc2 & H).
    exists st2, (w1 ++ w2). rewrite Hr1, Hr2, <- app_assoc.
    repeat split; [apply Forall_app; auto | congruence | exact H].
  - apply andb_true_iff in Hg as [Hg1 Hg2]. destruct He as [He1 He2].
    apply or_else_Some in H as [H | [_ H]]; eauto.
  - remember (length (rest st)) as fuel eqn:Hfuel. clear Hfuel.
    revert st H. induction fuel as [|fuel IHf]; intros st H; simpl in H.
    + exists st, []. auto.
    + apply or_else_Some in H as [H | [_ H]]; [|exists st, []; auto].
      apply (IH1 Hg He) in H as (st1 & w1 & Hr1 & Hw1 & Hc1 & H).
      destruct (length (rest st1) <? length (rest st))%nat; [|discriminate].
      apply IHf in H as (st2 & w2 & Hr2 & Hw2 & Hc2 & H).
      exists st2, (w1 ++ w2). rewrite Hr1, Hr2, <- app_assoc.
      repeat split; [apply Forall_app; auto | congruence | exact H].
  - apply or_else_Some in H as [H | [_ H]]; [eauto | exists st, []; auto].
  - destruct (xorb _ _); [exists st, []; auto | discriminate].
Qed.

Lemma rmatch_lits ic s :
  forall st k res, rmatch ic (lits s) st k = Some res ->
  exists st' tok, rest st = tok ++ rest st'
    /\ Forall2 (fun c x => lit_match ic c x = true) s tok
    /\ cap st' = cap st /\ k st' = Some res.
Proof.
  induction s as [|c s IH]; intros st k res H.
  - exists st, []. repeat split; [constructor | exact H].
  - change (lits (c :: s)) with (Seq (Lit c) (lits s)) in H.
    rewrite rmatch_Seq in H.
    apply one_Some in H as (x & xs & Hr & Hx & H).
    apply IH in H as (st' & tok & Hr' & Htok & Hc & H).
    exists st', (x :: tok). rewrite Hr. cbn [rest advance] in Hr'.
    rewrite Hr'. repeat split; [constructor; assumption | exact Hc | exact H].
Qed.

(** The group consumes the token it captures. *)
Lemma rmatch_value_text ic st k res :
  rmatch ic (Group value) st k = Some res ->
  exists st' m, rest st = m ++ rest st' /\ cap st' = Some m /\ is_token m
                /\ k st' = Some res.
Proof.
  destruct st as [b r c]. simpl. intros H.
  apply or_else_Some in H as [H | [_ H]].
  - apply or_else_Some in H as [H | [_ H]].
    + apply one_Some in H as (x1 & r1 & Hr & Hx1 & H). simpl in Hr. subst r.
      apply one_Some in H as (x2 & r2 & Hr & Hx2 & H). simpl in Hr. subst r1.
      apply lit_match_plain in Hx1; [|reflexivity].
      apply lit_match_plain in Hx2; [|reflexivity]. subst x1 x2.
      simpl rest in H. rewrite take_two in H.
      eexists _, [45; 49]. split; [|split; [|split; [|exact H]]];
        [reflexivity | reflexivity | left; reflexivity].
    + apply one_Some in H as (x1 & r1 & Hr & Hx1 & H). simpl in Hr. subst r.
      apply lit_match_plain in Hx1; [|reflexivity]. subst x1.
      simpl rest in H. rewrite take_one in H.
      eexists _, [49]. split; [|split; [|split; [|exact H]]];
        [reflexivity | reflexivity | right; right; reflexivity].
  - apply one_Some in H as (x1 & r1 & Hr & Hx1 & H). simpl in Hr. subst r.
    apply lit_match_plain in Hx1; [|reflexivity]. subst x1.
    simpl rest in H. rewrite take_one in H.
    eexists _, [48]. split; [|split; [|split; [|exact H]]];
      [reflexivity | reflexivity | right; left; reflexivity].
Qed.

Lemma eats_space ic : eats ic is_sep (Star Space).
Proof. intros x Hx. left. exact Hx. Qed.

Lemma eats_colon ic : eats ic is_sep (Opt (OneOf [58; 65306])).
Proof.
  intros x Hx. simpl in Hx. rewrite orb_false_r in Hx.
  apply orb_true_iff in Hx as [Hx | Hx];
    (apply lit_match_plain in Hx; [|reflexivity]); subst x;
    unfold is_sep; auto.
Qed.

Lemma eats_markup ic (P : char -> Prop) :
  (forall x, is_mark x -> P x) -> eats ic P (Star markup).
Proof.
  intros HP. simpl.
  repeat split; intros x Hx;
    (apply lit_match_plain in Hx; [|reflexivity]); subst x;
    apply HP; unfold is_mark; auto.
Qed.

(** The text of a match: [result], separators, the token, emphasis marks. *)
Lemma pattern_match_shape ic prev s st' :
  match_at ic pattern prev s = Some st' ->
  exists tok mid m post,
    s = tok ++ mid ++ m ++ post ++ rest st'
    /\ Forall2 (fun c x => lit_match ic c x = true) (u "result") tok
    /\ Forall is_sep mid /\ is_token m /\ cap st' = Some m
    /\ Forall is_mark post.
Proof.
  unfold match_at, pattern, seqs. cbn [foldr]. intros H.
  rewrite rmatch_Seq in H.
  apply rmatch_lits in H as (st1 & tok & Hr1 & Htok & _ & H).
  rewrite rmatch_Seq in H.
  apply (rmatch_sound ic is_sep) in H as (st2 & w2 & Hr2 & Hw2 & _ & H);
    [|reflexivity | apply eats_space].
  rewrite rmatch_Seq in H.
  apply (rmatch_sound ic is_sep) in H as (st3 & w3 & Hr3 & Hw3 & _ & H);
    [|reflexivity | apply eats_colon].
  rewrite rmatch_Seq in H.
  apply (rmatch_sound ic is_sep) in H as (st4 & w4 & Hr4 & Hw4 & _ & H);
    [|reflexivity | apply eats_space].
  rewrite rmatch_Seq in H.
  apply (rmatch_sound ic is_sep) in H as (st5 & w5 & Hr5 & Hw5 & _ & H);
    [|reflexivity | apply eats_markup; unfold is_mark, is_sep; tauto].
  rewrite rmatch_Seq in H.
  apply rmatch_value_text in H as (st6 & m & Hr6 & Hc6 & Hm & H).
  apply (rmatch_sound ic is_mark) in H as (st7 & post & Hr7 & Hpost & Hc7 & H);
    [|reflexivity | split; [apply eats_markup; auto | split; exact I]].
  injection H as <-.
  exists tok, (w2 ++ w3 ++ w4 ++ w5), m, post.
  cbn [rest] in Hr1. rewrite Hr1, Hr2, Hr3, Hr4, Hr5, Hr6, Hr7.
  rewrite <- !app_assoc.
  repeat split; try assumption; [|congruence].
  repeat (apply Forall_app; split); assumption.
Qed.

(** Every element of the list [findall] gives is the token of a match that
    stands in the text. *)
Lemma findall_from_shape fuel :
  forall prev s g, g ∈ findall_from fuel true pattern prev s ->
  exists pre tok mid post,
    s = pre ++ tok ++ mid ++ g ++ post
    /\ result_word tok /\ Forall is_sep mid /\ is_token g.
Proof.
  induction fuel as [|fuel IH]; intros prev s g Hg; simpl in Hg;
    [inversion Hg|].
  destruct (match_at true pattern prev s) as [st'|] eqn:Hm.
  - apply pattern_match_shape in Hm as (tok & mid & m & post & Hs & Htok & Hmid
                                        & Hm & Hc & _).
    rewrite Hc in Hg. cbn [default from_option id] in Hg.
    assert (Hhere : exists pre tok0 mid0 post0,
      s = pre ++ tok0 ++ mid0 ++ m ++ post0
      /\ result_word tok0 /\ Forall is_sep mid0 /\ is_token m).
    { exists [], tok, mid, (post ++ rest st'). auto. }
    destruct (length (rest st') <? length s)%nat.
    + apply elem_of_cons in Hg as [-> | Hg]; [exact Hhere|].
      apply IH in Hg as (pre & tok0 & mid0 & post0 & Hr & H0).
      exists (tok ++ mid ++ m ++ post ++ pre), tok0, mid0, post0.
      split; [|exact H0]. rewrite Hs, Hr, <- !app_assoc. reflexivity.
    + destruct s as [|c s'].
      * apply elem_of_cons in Hg as [-> | Hg]; [exact Hhere | inversion Hg].
      * apply elem_of_cons in Hg as [-> | Hg]; [exact Hhere|].
        apply IH in Hg as (pre & tok0 & mid0 & post0 & Hr & H0).
        exists (c :: pre), tok0, mid0, post0. rewrite Hr. auto.
  - destruct s as [|c s']; [inversion Hg|].
    apply IH in Hg as (pre & tok0 & mid0 & post0 & Hr & H0).
    exists (c :: pre), tok0, mid0, post0. rewrite Hr. auto.
Qed.

Lemma token_of_verdict m z :
  is_token m -> py_int m = Some z -> m = str_of_Z z.
Proof.
  intros [-> | [-> | ->]] H; vm_compute in H; injection H as <-; reflexivity.
Qed.

(** X12: a verdict is never made up.  When the extractor returns [v], the
    text holds the word [result] (in any mix of cases), then only white
    space, colons and emphasis marks, then [v] written out. *)
Theorem extract_conclusion_sound text v :
  extract_conclusion (PStr text) = Some v ->
  exists pre tok mid post,
    text = pre ++ tok ++ mid ++ str_of_Z v ++ post
    /\ result_word tok /\ Forall is_sep mid
    /\ (v = (-1)%Z \/ v = 0%Z \/ v = 1%Z).
Proof.
  intros H.
  destruct (last (findall true pattern text)) as [m|] eqn:Hl.
  - pose proof (extract_conclusion_last text m Hl) as [He Hm].
    rewrite He in H.
    assert (Hin : m ∈ findall true pattern text).
    { apply last_Some in Hl as [l' ->]. apply elem_of_app. right. left. }
    apply findall_from_shape in Hin as (pre & tok & mid & post & Ht & Htok & Hmid & _).
    exists pre, tok, mid, post.
    rewrite <- (token_of_verdict m v Hm H).
    repeat split; try assumption.
    destruct (py_int_token m Hm) as (z & Hz & _ & Hz3). congruence.
  - apply last_None in Hl. rewrite (extract_conclusion_no_match text Hl) in H.
    discriminate.
Qed.

(** ** The verdict extractor: the final line *)

Lemma split_before (c : char) (x : str) :
  Forall (fun d => d <> c) x ->
  forall y a b, x ++ y = a ++ c :: b ->
  exists a', a = x ++ a' /\ y = a' ++ c :: b.
Proof.
  induction 1 as [|d x Hd _ IH]; intros y a b H.
  - exists a. auto.
  - destruct a as [|d' a]; simpl in H; injection H as Hh Ht.
    + congruence.
    + subst d'. apply IH in Ht as (a' & -> & ->). exists a'. auto.
Qed.

Lemma lit_match_class c x :
  lit_match true c x = true -> In x (ignorecase_class c).
Proof.
  unfold lit_match, mem_char. intros H.
  apply existsb_exists in H as (y & Hy & Hxy).
  apply N.eqb_eq in Hxy. subst. exact Hy.
Qed.

Lemma letters_not_nl s tok :
  forallb (fun c => forallb (fun x => negb (x =? nl)) (ignorecase_class c)) s = true ->
  Forall2 (fun c x => lit_match true c x = true) s tok ->
  Forall (fun d => d <> nl) tok.
Proof.
  intros Hs H2. induction H2 as [|c x s' tok' Hcx _ IH]; constructor.
  - simpl in Hs. apply andb_true_iff in Hs as [Hs _].
    rewrite forallb_forall in Hs.
    specialize (Hs x (lit_match_class c x Hcx)).
    apply negb_true_iff, N.eqb_neq in Hs. exact Hs.
  - apply IH. simpl in Hs. apply andb_true_iff in Hs as [_ Hs]. exact Hs.
Qed.

Lemma result_word_letters tok :
  result_word tok ->
  length tok = 6%nat /\ Forall (fun d => d <> nl) tok.
Proof.
  unfold result_word. intros H.
  split; [|apply (letters_not_nl (u "result")); [reflexivity | exact H]].
  apply Forall2_length in H. rewrite <- H. reflexivity.
Qed.

Lemma is_sep_not_R x : is_sep x -> x <> 82.
Proof.
  intros [H | H] ->; [discriminate H|].
  repeat (destruct H as [H | H]; [discriminate H|]). discriminate H.
Qed.

Lemma is_mark_other x : is_mark x -> x <> 82 /\ x <> nl.
Proof.
  intros [-> | [-> | ->]]; split; discriminate.
Qed.

Lemma is_token_digits m :
  is_token m ->
  m <> [] /\ Forall (fun d => d <> 82) m /\ Forall (fun d => d <> nl) m.
Proof.
  intros [-> | [-> | ->]]; (split; [discriminate|]);
    split; repeat constructor; discriminate.
Qed.

Lemma no_tail_char (c : char) (x y a : str) :
  y <> [] -> Forall (fun d => d <> c) y -> x ++ y <> a ++ [c].
Proof.
  intros Hy Hc H. destruct (exists_last Hy) as (y' & d & ->).
  rewrite app_assoc in H. apply app_inj_tail in H as [_ Hd].
  apply Forall_app in Hc as [_ Hc]. inversion Hc. congruence.
Qed.

(** A match that starts before a line break followed by [R] ends before
    that line break. *)
Lemma match_before_barrier prev a b st' :
  match_at true pattern prev (a ++ nl :: 82%N :: b) = Some st' ->
  exists a2, rest st' = a2 ++ nl :: 82%N :: b /\ (length a2 < length a)%nat.
Proof.
  intros H.
  apply pattern_match_shape in H as (tok & mid & m & post & Hs & Htok & Hmid
                                      & Hm & _ & Hpost).
  destruct (result_word_letters tok Htok) as [Hlen Hnl].
  destruct (is_token_digits m Hm) as (Hm0 & HmR & Hmnl).
  symmetry in Hs.
  apply (split_before nl tok Hnl) in Hs as (a1 & -> & Hs).
  assert (HR : Forall (fun d => d <> 82) (mid ++ m ++ post)).
  { repeat (apply Forall_app; split); [|exact HmR|].
    - eapply Forall_impl; [exact Hmid | apply is_sep_not_R].
    - eapply Forall_impl; [exact Hpost | intros x Hx; apply is_mark_other, Hx]. }
  assert (Hs' : (mid ++ m ++ post) ++ rest st' = (a1 ++ [nl]) ++ 82%N :: b).
  { rewrite <- !app_assoc. exact Hs. }
  apply (split_before 82 _ HR) in Hs' as (y & Hy & Hrest).
  destruct (exists_last (l := y)) as (a2 & d & ->).
  { intros ->. rewrite app_nil_r in Hy.
    refine (no_tail_char nl mid (m ++ post) a1 _ _ (eq_sym Hy)).
    - destruct m; [congruence | discriminate].
    - apply Forall_app. split; [exact Hmnl|].
      eapply Forall_impl; [exact Hpost | intros x Hx; apply is_mark_other, Hx]. }
  rewrite app_assoc in Hy. apply app_inj_tail in Hy as [-> <-].
  exists a2. split; [rewrite Hrest, <- app_assoc; reflexivity|].
  rewrite !length_app, Hlen. lia.
Qed.

(** Whatever comes before it, a last line that the scan reads as one match
    gives the last element of the list [findall] returns. *)
Lemma findall_final_line (b tokv : str) :
  (forall fuel, (length (82%N :: b) < fuel)%nat ->
     findall_from fuel true pattern (Some nl) (82%N :: b) = [tokv]) ->
  forall n a fuel prev,
  (length a <= n)%nat ->
  (length (a ++ nl :: 82%N :: b) < fuel)%nat ->
  exists gs, findall_from fuel true pattern prev (a ++ nl :: 82%N :: b) = gs ++ [tokv].
Proof.
  intros Hfinal. induction n as [|n IH]; intros a fuel prev Hn Hf;
    (destruct fuel as [|fuel]; [lia|]); cbn [findall_from];
    destruct (match_at true pattern prev (a ++ nl :: 82%N :: b)) as [st'|] eqn:Hm.
  - apply match_before_barrier in Hm as (a2 & _ & Hlt). lia.
  - destruct a; [|simpl in Hn; lia]. cbn [app].
    exists []. apply Hfinal. simpl in *. unfold str, char in *. lia.
  - apply match_before_barrier in Hm as (a2 & Hr & Hlt).
    rewrite Hr.
    assert (Hshort : (length (a2 ++ nl :: 82%N :: b) <? length (a ++ nl :: 82%N :: b))%nat = true).
    { apply Nat.ltb_lt. rewrite !length_app. unfold str, char in *. lia. }
    rewrite Hshort.
    destruct (IH a2 fuel (before st')) as [gs Hgs];
      [lia | rewrite !length_app in *; simpl in *; unfold str, char in *; lia|].
    rewrite Hgs. eexists (_ :: gs). reflexivity.
  - destruct a as [|c a]; cbn [app].
    + exists []. apply Hfinal. simpl in *. unfold str, char in *. lia.
    + apply IH; simpl in *; unfold str, char in *; lia.
Qed.

Lemma final_line_tokens v ending :
  v = (-1)%Z \/ v = 0%Z \/ v = 1%Z ->
  ending = [] \/ ending = [nl] ->
  forall fuel,
  (length (82%N :: u "esult: " ++ str_of_Z v ++ ending) < fuel)%nat ->
  findall_from fuel true pattern (Some nl) (82%N :: u "esult: " ++ str_of_Z v ++ ending)
  = [str_of_Z v].
Proof.
  intros [-> | [-> | ->]] [-> | ->] fuel Hf;
    rewrite (findall_fuel_enough true pattern fuel 16 _ _ Hf)
      by (vm_compute; lia);
    vm_compute; reflexivity.
Qed.

(** X11: the final line decides.  Whatever the reply says before it, a
    last line [Result: v] (with or without a line end after it) makes the
    extractor return [v], for each of the three verdicts. *)
Theorem final_result_line_decides analysis v ending :
  v = (-1)%Z \/ v = 0%Z \/ v = 1%Z ->
  ending = [] \/ ending = [nl] ->
  extract_conclusion (PStr (analysis ++ nl :: u "Result: " ++ str_of_Z v ++ ending))
  = Some v.
Proof.
  intros Hv Hend.
  change (analysis ++ nl :: u "Result: " ++ str_of_Z v ++ ending)
    with (analysis ++ nl :: 82%N :: u "esult: " ++ str_of_Z v ++ ending).
  destruct (findall_final_line (u "esult: " ++ str_of_Z v ++ ending) (str_of_Z v)
              (final_line_tokens v ending Hv Hend)
              (length analysis) analysis
              (S (length (analysis ++ nl :: 82%N :: u "esult: " ++ str_of_Z v ++ ending)))
              None) as [gs Hgs]; [lia | lia |].
  assert (Hl : last (findall true pattern
                       (analysis ++ nl :: 82%N :: u "esult: " ++ str_of_Z v ++ ending))
               = Some (str_of_Z v)).
  { unfold findall. rewrite Hgs. apply last_snoc. }
  apply extract_conclusion_last in Hl as [-> _].
  destruct Hv as [-> | [-> | ->]]; reflexivity.
Qed.

(** ** [json.loads] reads back what [json.dumps] wrote *)

Lemma hex_value_digit n : n < 16 -> hex_value (hex_digit n) = Some n.
Proof.
  intros Hn. unfold hex_value, hex_digit, is_ascii_digit.
  destruct (N.ltb_spec n 10) as [Hlt | Hge].
  - replace ((48 <=? 48 + n) && (48 + n <=? 57)) with true.
    + f_equal. lia.
    + symmetry. apply andb_true_iff. split; apply N.leb_le; lia.
  - replace ((48 <=? 87 + n) && (87 + n <=? 57)) with false.
    + replace ((97 <=? 87 + n) && (87 + n <=? 102)) with true.
      * f_equal. lia.
      * symmetry. apply andb_true_iff. split; apply N.leb_le; lia.
    + symmetry. apply andb_false_iff. right. apply N.leb_gt. lia.
Qed.

Lemma scanstring_control c t :
  c < 32 ->
  scanstring (92 :: 117 :: 48 :: 48 :: hex_digit (c / 16)
              :: hex_digit (c mod 16) :: t)
  = push c (scanstring t).
Proof.
  intros Hc.
  assert (Hdiv : c / 16 < 16)
    by (apply N.Div0.div_lt_upper_bound; lia).
  assert (Hmod : c mod 16 < 16) by (apply N.mod_lt; lia).
  assert (Hdec : decode_uXXXX 48 48 (hex_digit (c / 16)) (hex_digit (c mod 16))
                 = Some c).
  { unfold decode_uXXXX.
    rewrite (hex_value_digit _ Hdiv), (hex_value_digit _ Hmod).
    change (hex_value 48) with (Some 0). cbv iota beta.
    f_equal. pose proof (N.div_mod' c 16) as E.
    revert E. generalize (c / 16) (c mod 16). intros; lia. }
  cbn -[decode_uXXXX N.leb hex_digit N.div N.modulo].
  rewrite Hdec.
  replace (55296 <=? c) with false by (symmetry; apply N.leb_gt; lia).
  reflexivity.
Qed.

Lemma scanstring_escaped c t :
  scanstring (escape_char c ++ t) = push c (scanstring t).
Proof.
  unfold escape_char.
  destruct (N.eqb_spec c 34) as [-> | H34]; [reflexivity |].
  destruct (N.eqb_spec c 92) as [-> | H92]; [reflexivity |].
  destruct (N.eqb_spec c 10) as [-> | H10]; [reflexivity |].
  destruct (N.eqb_spec c 13) as [-> | H13]; [reflexivity |].
  destruct (N.eqb_spec c 9) as [-> | H9]; [reflexivity |].
  destruct (N.eqb_spec c 8) as [-> | H8]; [reflexivity |].
  destruct (N.eqb_spec c 12) as [-> | H12]; [reflexivity |].
  destruct (N.ltb_spec c 32) as [Hlt | Hge].
  - apply scanstring_control. exact Hlt.
  - cbn [app scanstring].
    rewrite (proj2 (N.eqb_neq c 34) H34), (proj2 (N.eqb_neq c 92) H92).
    rewrite (proj2 (N.ltb_ge c 32) Hge). reflexivity.
Qed.

Lemma scanstring_encoded s rest :
  scanstring (concat (map escape_char s) ++ dq :: rest) = Some (s, rest).
Proof.
  induction s as [| c s IH]; [reflexivity |].
  cbn [map concat]. rewrite <- app_assoc, scanstring_escaped, IH.
  reflexivity.
Qed.

Lemma digits_N_snoc l c : digits_N (l ++ [c]) = 10 * digits_N l + (c - 48).
Proof. unfold digits_N. rewrite fold_left_app. reflexivity. Qed.

Lemma digits_of_first fuel :
  forall n acc,
    n < 2 ^ N.of_nat (S fuel) ->
    exists d ds,
      digits_of (S fuel) n acc = d :: ds ++ acc
      /\ is_ascii_digit d = true
      /\ Forall (fun c => is_ascii_digit c = true) ds
      /\ digits_N (d :: ds) = n
      /\ (d = 48 -> ds = []).
Proof.
  induction fuel as [| fuel IH]; intros n acc Hn.
  - change (2 ^ N.of_nat 1) with 2 in Hn.
    exists (48 + n mod 10), [].
    assert (Hm : n mod 10 = n) by (apply N.mod_small; lia).
    cbn [digits_of]. rewrite Hm.
    replace (n <? 10) with true by (symmetry; apply N.ltb_lt; lia).
    repeat split; auto.
    + unfold is_ascii_digit. apply andb_true_iff.
      split; apply N.leb_le; lia.
    + unfold digits_N. cbn [fold_left]. lia.
  - pose proof (N.mod_lt n 10 ltac:(lia)) as Hmod.
    pose proof (N.div_mod' n 10) as Hdm.
    change (digits_of (S (S fuel)) n acc)
      with (if n <? 10 then (48 + n mod 10) :: acc
            else digits_of (S fuel) (n / 10) ((48 + n mod 10) :: acc)).
    destruct (N.ltb_spec n 10) as [Hlt | Hge].
    + exists (48 + n mod 10), [].
      repeat split; auto.
      * unfold is_ascii_digit. apply andb_true_iff.
        split; apply N.leb_le; revert Hmod; generalize (n mod 10);
          intros; lia.
      * unfold digits_N. cbn [fold_left].
        revert Hmod Hdm. rewrite (N.div_small n 10) by lia.
        generalize (n mod 10). intros; lia.
    + assert (Hq : n / 10 < 2 ^ N.of_nat (S fuel)).
      { apply N.Div0.div_lt_upper_bound.
        rewrite Nat2N.inj_succ, N.pow_succ_r' in Hn.
        revert Hn. generalize (2 ^ N.of_nat (S fuel)). intros; lia. }
      destruct (IH (n / 10) ((48 + n mod 10) :: acc) Hq)
        as (d & ds & E & Hd & Hds & Hval & Hzero).
      exists d, (ds ++ [48 + n mod 10]).
      split; [rewrite E, <- app_assoc; reflexivity |].
      split; [exact Hd |].
      split.
      { apply Forall_app. split; [exact Hds |].
        constructor; [| constructor].
        unfold is_ascii_digit. apply andb_true_iff.
        split; apply N.leb_le; revert Hmod; generalize (n mod 10);
          intros; lia. }
      split.
      { change (d :: ds ++ [48 + n mod 10])
          with ((d :: ds) ++ [48 + n mod 10]).
        rewrite digits_N_snoc, Hval. revert Hmod Hdm.
        generalize (n / 10) (n mod 10). intros; lia. }
      intros ->. rewrite (Hzero eq_refl) in Hval.
      unfold digits_N in Hval. cbn [fold_left] in Hval.
      exfalso. revert Hdm Hmod. rewrite <- Hval.
      generalize (n mod 10). intros; lia.
Qed.

Lemma str_of_N_first n :
  exists d ds,
    str_of_N n = d :: ds
    /\ is_ascii_digit d = true
    /\ Forall (fun c => is_ascii_digit c = true) ds
    /\ digits_N (d :: ds) = n
    /\ (d = 48 -> ds = []).
Proof.
  unfold str_of_N.
  destruct (digits_of_first (N.to_nat (N.log2 n)) n []) as (d & ds & E & H).
  - rewrite Nat2N.inj_succ, N2Nat.id.
    destruct (N.eq_dec n 0) as [-> | Hn]; [reflexivity |].
    apply N.log2_spec. lia.
  - exists d, ds. rewrite E, app_nil_r. auto.
Qed.

Lemma span_digits_all ds rest :
  Forall (fun c => is_ascii_digit c = true) ds ->
  number_stop rest = true ->
  span_digits (ds ++ rest) = (ds, rest).
Proof.
  intros Hds Hstop. induction Hds as [| c ds Hc _ IH].
  - destruct rest as [| c r]; [reflexivity |].
    cbn [app span_digits]. cbn [number_stop] in Hstop.
    destruct (is_ascii_digit c); [discriminate | reflexivity].
  - cbn [app span_digits]. rewrite Hc, IH. reflexivity.
Qed.

Lemma number_stop_integer rest :
  number_stop rest = true ->
  has_fraction rest || has_exponent rest = false.
Proof.
  destruct rest as [| c r]; [reflexivity |].
  cbn [number_stop has_fraction has_exponent]. intros H.
  apply negb_true_iff in H.
  apply orb_false_iff in H as [H He]. apply orb_false_iff in H as [H Hx].
  apply orb_false_iff in H as [_ Hp].
  rewrite Hp, He, Hx. destruct r; reflexivity.
Qed.

Lemma digit_not_minus c : is_ascii_digit c = true -> (c =? 45) = false.
Proof.
  unfold is_ascii_digit. intros H. apply andb_true_iff in H as [H _].
  apply N.leb_le in H. apply N.eqb_neq. lia.
Qed.

Lemma match_integer_digits d ds rest :
  is_ascii_digit d = true ->
  Forall (fun c => is_ascii_digit c = true) ds ->
  (d = 48 -> ds = []) ->
  number_stop rest = true ->
  match_integer (d :: ds ++ rest) = Some (false, d :: ds, rest)
  /\ match_integer (45 :: d :: ds ++ rest) = Some (true, d :: ds, rest).
Proof.
  intros Hd Hds Hzero Hstop.
  unfold match_integer. rewrite (digit_not_minus d Hd).
  change (45 =? 45) with true. cbn [fst snd].
  rewrite Hd, (span_digits_all ds rest Hds Hstop). cbn [fst snd].
  destruct (N.eqb_spec d 48) as [E | _]; [| split; reflexivity].
  rewrite (Hzero E). split; reflexivity.
Qed.

Lemma scan_number_int z rest :
  number_stop rest = true ->
  scan_number (str_of_Z z ++ rest) = Value (PInt z) rest.
Proof.
  intros Hstop. unfold str_of_Z, scan_number.
  destruct (Z.ltb_spec z 0) as [Hneg | Hpos].
  - destruct (str_of_N_first (Z.abs_N z))
      as (d & ds & E & Hd & Hds & Hval & Hzero).
    rewrite E.
    change ((45 :: d :: ds) ++ rest) with (45 :: d :: ds ++ rest).
    rewrite (proj2 (match_integer_digits d ds rest Hd Hds Hzero Hstop)).
    rewrite (number_stop_integer rest Hstop), Hval.
    do 2 f_equal. rewrite N2Z.inj_abs_N. lia.
  - destruct (str_of_N_first (Z.to_N z))
      as (d & ds & E & Hd & Hds & Hval & Hzero).
    rewrite E.
    change ((d :: ds) ++ rest) with (d :: ds ++ rest).
    rewrite (proj1 (match_integer_digits d ds rest Hd Hds Hzero Hstop)).
    rewrite (number_stop_integer rest Hstop), Hval.
    do 2 f_equal. rewrite Z2N.id; lia.
Qed.

(** The first character of [str(z)]: a minus sign or a digit. *)
Lemma str_of_Z_first z :
  exists c t, str_of_Z z = c :: t /\ (c = 45 \/ is_ascii_digit c = true).
Proof.
  unfold str_of_Z. destruct (z <? 0)%Z.
  - eexists _, _. split; [reflexivity | left; reflexivity].
  - destruct (str_of_N_first (Z.to_N z)) as (d & ds & E & Hd & _).
    exists d, ds. split; [exact E | right; exact Hd].
Qed.

Lemma skip_ws_over ws s : all_ws ws -> skip_ws (ws ++ s) = skip_ws s.
Proof.
  intros H. induction H as [| c ws Hc _ IH]; [reflexivity |].
  cbn [app skip_ws]. rewrite Hc. exact IH.
Qed.

Lemma skip_ws_stop c t : is_json_ws c = false -> skip_ws (c :: t) = c :: t.
Proof. intros H. cbn [skip_ws]. rewrite H. reflexivity. Qed.

Lemma all_ws_indent indent level : all_ws (newline_indent indent level).
Proof.
  destruct indent as [n |]; [| constructor].
  cbn [newline_indent]. constructor; [reflexivity |].
  induction (n * level)%nat; constructor; [reflexivity | assumption].
Qed.

Lemma item_separator_shape indent level :
  exists ws, item_separator indent level = 44 :: ws /\ all_ws ws.
Proof.
  destruct indent as [n |].
  - eexists. split; [reflexivity | apply all_ws_indent].
  - exists [32]. split; [reflexivity |]. constructor; [reflexivity | constructor].
Qed.

Lemma ws_number_stop c t : is_json_ws c = true -> number_stop (c :: t) = true.
Proof.
  unfold is_json_ws. intros H.
  repeat (apply orb_true_iff in H as [H | H]);
    apply N.eqb_eq in H; subst c; reflexivity.
Qed.

Lemma number_stop_over ws s :
  all_ws ws -> number_stop s = true -> number_stop (ws ++ s) = true.
Proof.
  intros [| c ws' Hc _] Hs; [exact Hs |]. apply ws_number_stop. exact Hc.
Qed.

Lemma digit_not_ws c : is_ascii_digit c = true -> is_json_ws c = false.
Proof.
  unfold is_ascii_digit, is_json_ws. intros H.
  apply andb_true_iff in H as [H _]. apply N.leb_le in H.
  repeat (apply orb_false_iff; split); apply N.eqb_neq; lia.
Qed.

Lemma dumps_first indent level v :
  exists c t, dumps_at indent level v = c :: t /\ value_start c.
Proof.
  unfold value_start. destruct v as [| [|] | z | s | [| x l] | [| kv d]];
    try (eexists _, _; split;
         [reflexivity
         | repeat (first [left; reflexivity | right]); reflexivity]).
  destruct (str_of_Z_first z) as (c & t & E & Hc).
  exists c, t. split; [exact E |].
  destruct Hc as [Hc | Hc]; [left | right; left]; exact Hc.
Qed.

Lemma value_start_not_ws c : value_start c -> is_json_ws c = false.
Proof.
  intros [-> | [H | H]]; [reflexivity | apply digit_not_ws; exact H |].
  repeat (destruct H as [-> | H]; [reflexivity |]). subst c. reflexivity.
Qed.

Lemma value_start_not_close c : value_start c -> (c =? 93) = false.
Proof.
  intros [-> | [H | H]]; [reflexivity | |].
  - unfold is_ascii_digit in H. apply andb_true_iff in H as [_ H].
    apply N.leb_le in H. apply N.eqb_neq. lia.
  - repeat (destruct H as [-> | H]; [reflexivity |]). subst c. reflexivity.
Qed.

Lemma scan_once_word fuel c t :
  (c =? 34) = false -> (c =? 123) = false -> (c =? 91) = false ->
  scan_once (S fuel) (c :: t) = scan_word (c :: t).
Proof. intros H1 H2 H3. cbn [scan_once]. rewrite H1, H2, H3. reflexivity. Qed.

Lemma scan_word_number c t :
  c = 45 \/ is_ascii_digit c = true ->
  scan_word (c :: t) = scan_number (c :: t).
Proof.
  intros Hc. unfold scan_word. cbn [strip_prefix u map list_ascii_of_string].
  assert (H : (110 =? c) = false /\ (116 =? c) = false /\ (102 =? c) = false).
  { destruct Hc as [-> | Hc]; [repeat split |].
    unfold is_ascii_digit in Hc. apply andb_true_iff in Hc as [_ Hc].
    apply N.leb_le in Hc. repeat split; apply N.eqb_neq; lia. }
  destruct H as (H1 & H2 & H3).
  change (N_of_ascii "n") with 110. change (N_of_ascii "t") with 116.
  change (N_of_ascii "f") with 102.
  rewrite H1, H2, H3. reflexivity.
Qed.

Lemma reads_back_int z : reads_back (PInt z).
Proof.
  intros indent level rest [| fuel] Hstop Hfuel; [contradiction |].
  cbn [dumps_at] in *.
  destruct (str_of_Z_first z) as (c & t & E & Hc).
  rewrite <- (scan_number_int z rest Hstop). rewrite E.
  change ((c :: t) ++ rest) with (c :: t ++ rest).
  rewrite scan_once_word, scan_word_number; auto.
  all: destruct Hc as [-> | Hc]; [reflexivity |];
    unfold is_ascii_digit in Hc; apply andb_true_iff in Hc as [Hlo Hhi];
    apply N.leb_le in Hlo, Hhi; apply N.eqb_neq; lia.
Qed.

Lemma reads_back_str s : reads_back (PStr s).
Proof.
  intros indent level rest [| fuel] Hstop Hfuel; [contradiction |].
  cbn [dumps_at]. unfold encode_basestring.
  cbn [app]. rewrite <- app_assoc. cbn [app scan_once].
  change (dq =? 34) with true. cbv iota.
  rewrite scanstring_encoded. reflexivity.
Qed.

Lemma scan_items_eq fuel s acc :
  scan_items (S fuel) s acc
  = match scan_once fuel s with
    | Value v rest =>
        match skip_ws rest with
        | q :: r =>
            if q =? 93 then Value (PList (rev (v :: acc))) r
            else if q =? 44 then scan_items fuel (skip_ws r) (v :: acc)
            else Invalid
        | [] => Invalid
        end
    | other => other
    end.
Proof. reflexivity. Qed.

Lemma join_cons sep p q ps :
  join sep (p :: q :: ps) = p ++ sep ++ join sep (q :: ps).
Proof. reflexivity. Qed.

Lemma join_first indent level (x : pyval) l sep :
  exists c t,
    join sep (map (dumps_at indent level) (x :: l)) = c :: t /\ value_start c.
Proof.
  destruct (dumps_first indent level x) as (c & t & E & Hc).
  destruct l as [| y l].
  - exists c, t. split; [exact E | exact Hc].
  - exists c, (t ++ sep ++ join sep (map (dumps_at indent level) (y :: l))).
    cbn [map]. rewrite join_cons, E. split; [reflexivity | exact Hc].
Qed.

Lemma scan_items_dumps indent level :
  forall l x acc rest fuel,
    Forall reads_back (x :: l) ->
    let text :=
      join (item_separator indent (S level))
        (map (dumps_at indent (S level)) (x :: l))
      ++ newline_indent indent level ++ 93 :: rest in
    scan_items fuel text acc <> TooDeep ->
    scan_items fuel text acc = Value (PList (rev acc ++ x :: l)) rest.
Proof.
  induction l as [| y l IH]; intros x acc rest [| fuel] Hall text Hfuel;
    try contradiction; subst text.
  - cbn [map join] in Hfuel |- *. rewrite scan_items_eq in Hfuel |- *.
    apply Forall_inv in Hall.
    assert (Hstop : number_stop (newline_indent indent level ++ 93 :: rest)
                    = true)
      by (apply number_stop_over; [apply all_ws_indent | reflexivity]).
    pose proof (Hall indent (S level) _ fuel Hstop) as Ex.
    rewrite Ex by (intros E; apply Hfuel; rewrite E; reflexivity).
    rewrite skip_ws_over by apply all_ws_indent.
    rewrite skip_ws_stop by reflexivity.
    change (93 =? 93) with true. cbv iota. cbn [rev]. reflexivity.
  - cbn [map] in Hfuel |- *. rewrite join_cons in Hfuel |- *.
    rewrite <- !app_assoc in Hfuel |- *.
    rewrite scan_items_eq in Hfuel |- *.
    destruct (item_separator_shape indent (S level)) as (ws & Esep & Hws).
    rewrite Esep in Hfuel, IH |- *. cbn [app] in Hfuel |- *.
    pose proof (Forall_inv Hall) as Hx.
    apply Forall_inv_tail in Hall.
    match type of Hfuel with
    | context [scan_once fuel (dumps_at indent (S level) x ++ ?R)] =>
        pose proof (Hx indent (S level) R fuel eq_refl) as Ex
    end.
    assert (Ex' := Ex ltac:(intros E; apply Hfuel; rewrite E; reflexivity)).
    clear Ex. rewrite Ex' in Hfuel |- *.
    rewrite skip_ws_stop in Hfuel |- * by reflexivity.
    change (44 =? 93) with false in Hfuel |- *.
    change (44 =? 44) with true in Hfuel |- *.
    cbv iota in Hfuel |- *.
    rewrite skip_ws_over in Hfuel |- * by exact Hws.
    destruct (join_first indent (S level) y l (44 :: ws))
      as (c & t & E & Hc).
    cbn [map] in E.
    assert (Hskip : forall more,
               skip_ws (join (44 :: ws)
                          (dumps_at indent (S level) y
                           :: map (dumps_at indent (S level)) l) ++ more)
               = join (44 :: ws)
                   (dumps_at indent (S level) y
                    :: map (dumps_at indent (S level)) l) ++ more).
    { intros more. rewrite E. cbn [app].
      apply skip_ws_stop, value_start_not_ws, Hc. }
    rewrite Hskip in Hfuel |- *.
    pose proof (IH y (x :: acc) rest fuel Hall) as Hrec.
    cbv zeta in Hrec. cbn [map] in Hrec.
    rewrite Hrec by exact Hfuel.
    cbn [rev]. rewrite <- app_assoc. reflexivity.
Qed.

Lemma scan_pairs_eq fuel s acc :
  scan_pairs (S fuel) s acc
  = match scanstring s with
    | Some (key, rest) =>
        match skip_ws rest with
        | q :: r =>
            if q =? 58 then
              match scan_once fuel (skip_ws r) with
              | Value v rest' =>
                  match skip_ws rest' with
                  | q' :: r' =>
                      if q' =? 125
                      then Value (PDict (dict_of_pairs (rev ((key, v) :: acc)))) r'
                      else if q' =? 44 then
                        match skip_ws r' with
                        | q'' :: r'' =>
                            if q'' =? 34
                            then scan_pairs fuel r'' ((key, v) :: acc)
                            else Invalid
                        | [] => Invalid
                        end
                      else Invalid
                  | [] => Invalid
                  end
              | other => other
              end
            else Invalid
        | [] => Invalid
        end
    | None => Invalid
    end.
Proof. reflexivity. Qed.

Lemma pair_text_tail indent level k x more :
  pair_text indent level (k, x) ++ more
  = dq :: concat (map escape_char k)
          ++ dq :: 58 :: 32 :: dumps_at indent level x ++ more.
Proof.
  unfold pair_text, encode_basestring. cbn [fst snd].
  change (u ": ") with [58; 32].
  cbn [app]. rewrite <- !app_assoc. reflexivity.
Qed.

Lemma scan_key_value fuel k indent level x more acc :
  scan_pairs (S fuel)
    (concat (map escape_char k)
     ++ dq :: 58 :: 32 :: dumps_at indent level x ++ more) acc
  = match scan_once fuel (dumps_at indent level x ++ more) with
    | Value v rest' =>
        match skip_ws rest' with
        | q' :: r' =>
            if q' =? 125
            then Value (PDict (dict_of_pairs (rev ((k, v) :: acc)))) r'
            else if q' =? 44 then
              match skip_ws r' with
              | q'' :: r'' =>
                  if q'' =? 34
                  then scan_pairs fuel r'' ((k, v) :: acc)
                  else Invalid
              | [] => Invalid
              end
            else Invalid
        | [] => Invalid
        end
    | other => other
    end.
Proof.
  rewrite scan_pairs_eq, scanstring_encoded.
  rewrite skip_ws_stop by reflexivity.
  change (58 =? 58) with true. cbv iota.
  destruct (dumps_first indent level x) as (c & t & E & Hc).
  change (skip_ws (32 :: dumps_at indent level x ++ more))
    with (skip_ws (dumps_at indent level x ++ more)).
  rewrite E. cbn [app].
  rewrite (skip_ws_stop c) by (apply value_start_not_ws, Hc).
  reflexivity.
Qed.

Lemma join_pairs_head indent level sep kv d more :
  join sep (map (pair_text indent level) (kv :: d)) ++ more
  = dq :: tl (join sep (map (pair_text indent level) (kv :: d)) ++ more).
Proof.
  destruct kv as [k x]. destruct d as [| kv2 d2].
  - cbn [map join]. rewrite pair_text_tail. reflexivity.
  - cbn [map]. rewrite join_cons, <- app_assoc, pair_text_tail.
    reflexivity.
Qed.

Lemma scan_pairs_dumps indent level :
  forall d kv acc rest fuel,
    Forall (fun kv => reads_back (snd kv)) (kv :: d) ->
    let text :=
      join (item_separator indent (S level))
        (map (pair_text indent (S level)) (kv :: d))
      ++ newline_indent indent level ++ 125 :: rest in
    scan_pairs fuel (tl text) acc <> TooDeep ->
    scan_pairs fuel (tl text) acc
    = Value (PDict (dict_of_pairs (rev acc ++ kv :: d))) rest.
Proof.
  induction d as [| kv' d IH]; intros [k x] acc rest [| fuel] Hall text Hfuel;
    try contradiction; subst text.
  - cbn [map join] in Hfuel |- *.
    rewrite pair_text_tail in Hfuel |- *. cbn [tl] in Hfuel |- *.
    rewrite scan_key_value in Hfuel |- *.
    apply Forall_inv in Hall. cbn [snd] in Hall.
    assert (Hstop : number_stop (newline_indent indent level ++ 125 :: rest)
                    = true)
      by (apply number_stop_over; [apply all_ws_indent | reflexivity]).
    pose proof (Hall indent (S level) _ fuel Hstop) as Ex.
    rewrite Ex by (intros E; apply Hfuel; rewrite E; reflexivity).
    rewrite skip_ws_over by apply all_ws_indent.
    rewrite skip_ws_stop by reflexivity.
    change (125 =? 125) with true. cbv iota. cbn [rev]. reflexivity.
  - cbn [map] in Hfuel |- *. rewrite join_cons in Hfuel |- *.
    rewrite <- !app_assoc in Hfuel |- *.
    rewrite pair_text_tail in Hfuel |- *. cbn [tl] in Hfuel |- *.
    rewrite scan_key_value in Hfuel |- *.
    destruct (item_separator_shape indent (S level)) as (ws & Esep & Hws).
    pose proof (Forall_inv Hall) as Hx. cbn [snd] in Hx.
    apply Forall_inv_tail in Hall.
    pose proof (IH kv' ((k, x) :: acc) rest fuel Hall) as Hrec.
    cbv zeta in Hrec. cbn [map] in Hrec.
    rewrite Esep in Hfuel, Hrec |- *. cbn [app] in Hfuel |- *.
    match type of Hfuel with
    | context [scan_once fuel (dumps_at indent (S level) x ++ ?R)] =>
        pose proof (Hx indent (S level) R fuel eq_refl) as Ex
    end.
    assert (Ex' := Ex ltac:(intros E; apply Hfuel; rewrite E; reflexivity)).
    clear Ex. rewrite Ex' in Hfuel |- *.
    rewrite skip_ws_stop in Hfuel |- * by reflexivity.
    change (44 =? 125) with false in Hfuel |- *.
    change (44 =? 44) with true in Hfuel |- *.
    cbv iota in Hfuel |- *.
    rewrite skip_ws_over in Hfuel |- * by exact Hws.
    pose proof (join_pairs_head indent (S level) (44 :: ws) kv' d) as Hhead.
    cbn [map] in Hhead.
    rewrite Hhead in Hfuel |- *.
    rewrite skip_ws_stop in Hfuel |- * by reflexivity.
    change (dq =? 34) with true in Hfuel |- *. cbv iota in Hfuel |- *.
    etransitivity; [exact (Hrec Hfuel) |].
    cbn [rev]. rewrite <- app_assoc. reflexivity.
Qed.

Lemma dict_set_fresh d k v :
  k ∉ map fst d -> dict_set d k v = d ++ [(k, v)].
Proof.
  induction d as [| [k' v'] d IH]; intros Hk; [reflexivity |].
  cbn [dict_set app]. cbn [map fst] in Hk.
  apply not_elem_of_cons in Hk as [Hne Hk].
  unfold str_eqb. rewrite bool_decide_eq_false_2 by congruence.
  rewrite IH by exact Hk. reflexivity.
Qed.

Lemma fold_dict_set d :
  forall d0,
    NoDup (map fst (d0 ++ d)) ->
    fold_left (fun acc kv => dict_set acc (fst kv) (snd kv)) d d0 = d0 ++ d.
Proof.
  induction d as [| [k v] d IH]; intros d0 Hnd; cbn [fold_left fst snd].
  - rewrite app_nil_r. reflexivity.
  - assert (Hk : k ∉ map fst d0).
    { rewrite map_app in Hnd. apply NoDup_app in Hnd as (_ & Hd & _).
      intros Hin. apply (Hd k Hin). cbn [map fst]. left. }
    rewrite dict_set_fresh by exact Hk.
    rewrite IH; rewrite <- app_assoc; [reflexivity | exact Hnd].
Qed.

Lemma dict_of_pairs_distinct d :
  NoDup (map fst d) -> dict_of_pairs d = d.
Proof. intros H. unfold dict_of_pairs. apply (fold_dict_set d []). exact H. Qed.

Lemma well_keyed_list l : well_keyed (PList l) <-> Forall well_keyed l.
Proof.
  induction l as [| x l IH]; cbn [well_keyed].
  - split; [constructor | exact (fun _ => I)].
  - cbn [well_keyed] in IH. rewrite Forall_cons, <- IH. reflexivity.
Qed.

Lemma well_keyed_dict d :
  well_keyed (PDict d)
  <-> NoDup (map fst d) /\ Forall (fun kv => well_keyed (snd kv)) d.
Proof.
  cbn [well_keyed]. apply and_iff_compat_l.
  induction d as [| kv d IH].
  - split; [constructor | exact (fun _ => I)].
  - rewrite Forall_cons, <- IH. reflexivity.
Qed.

Lemma scan_once_array fuel ws s :
  all_ws ws ->
  (exists c t, s = c :: t /\ value_start c) ->
  scan_once (S fuel) (91 :: ws ++ s) = scan_items fuel s [].
Proof.
  intros Hws (c & t & -> & Hc). cbn [scan_once].
  change (91 =? 34) with false. change (91 =? 123) with false.
  change (91 =? 91) with true. cbv iota.
  rewrite skip_ws_over by exact Hws.
  rewrite skip_ws_stop by (apply value_start_not_ws, Hc).
  rewrite (value_start_not_close c Hc). reflexivity.
Qed.

Lemma scan_once_object fuel ws s :
  all_ws ws ->
  scan_once (S fuel) (123 :: ws ++ dq :: s) = scan_pairs fuel s [].
Proof.
  intros Hws. cbn [scan_once].
  change (123 =? 34) with false. change (123 =? 123) with true. cbv iota.
  rewrite skip_ws_over by exact Hws.
  rewrite skip_ws_stop by reflexivity.
  reflexivity.
Qed.

Lemma dumps_reads_back v : well_keyed v -> reads_back v.
Proof.
  induction v as [| b | z | s | l IH | d IH] using pyval_nested_ind;
    intros Hwk.
  - intros indent level rest [| fuel] Hstop Hfuel; [contradiction |].
    reflexivity.
  - intros indent level rest [| fuel] Hstop Hfuel; [contradiction |].
    destruct b; reflexivity.
  - apply reads_back_int.
  - apply reads_back_str.
  - apply well_keyed_list in Hwk.
    assert (Hall : Forall reads_back l).
    { clear -IH Hwk. induction IH as [| x l Hx _ IHl]; [constructor |].
      apply Forall_cons in Hwk as [Hwx Hwl]. constructor; auto. }
    clear IH Hwk.
    intros indent level rest [| fuel] Hstop Hfuel; [contradiction |].
    destruct l as [| x l]; [reflexivity |].
    assert (E : dumps_at indent level (PList (x :: l)) ++ rest
                = 91 :: newline_indent indent (S level)
                  ++ (join (item_separator indent (S level))
                        (map (dumps_at indent (S level)) (x :: l))
                      ++ newline_indent indent level ++ 93 :: rest)).
    { cbn [dumps_at]. cbn [app]. rewrite <- !app_assoc. reflexivity. }
    rewrite E in Hfuel |- *.
    assert (Hhead : exists c t,
               join (item_separator indent (S level))
                 (map (dumps_at indent (S level)) (x :: l))
               ++ newline_indent indent level ++ 93 :: rest = c :: t
               /\ value_start c).
    { destruct (join_first indent (S level) x l
                  (item_separator indent (S level))) as (c & t & Ej & Hc).
      rewrite Ej. eexists _, _. split; [reflexivity | exact Hc]. }
    rewrite scan_once_array in Hfuel |- *
      by (apply all_ws_indent || exact Hhead).
    apply (scan_items_dumps indent level l x [] rest fuel Hall Hfuel).
  - apply well_keyed_dict in Hwk as [Hnd Hwk].
    assert (Hall : Forall (fun kv => reads_back (snd kv)) d).
    { clear -IH Hwk. induction IH as [| x l Hx _ IHl]; [constructor |].
      apply Forall_cons in Hwk as [Hwx Hwl]. constructor; auto. }
    clear IH Hwk.
    intros indent level rest [| fuel] Hstop Hfuel; [contradiction |].
    destruct d as [| [k x] d]; [reflexivity |].
    assert (E : dumps_at indent level (PDict ((k, x) :: d)) ++ rest
                = 123 :: newline_indent indent (S level)
                  ++ dq :: tl (join (item_separator indent (S level))
                                 (map (pair_text indent (S level))
                                    ((k, x) :: d))
                               ++ newline_indent indent level ++ 125 :: rest)).
    { assert (E0 : dumps_at indent level (PDict ((k, x) :: d))
                   = [123] ++ newline_indent indent (S level)
                     ++ join (item_separator indent (S level))
                          (map (pair_text indent (S level)) ((k, x) :: d))
                     ++ newline_indent indent level ++ [125])
        by reflexivity.
      rewrite E0, <- !app_assoc. cbn [app]. do 2 f_equal.
      apply join_pairs_head. }
    rewrite E in Hfuel |- *.
    rewrite scan_once_object in Hfuel |- * by apply all_ws_indent.
    pose proof (scan_pairs_dumps indent level d (k, x) [] rest fuel Hall Hfuel)
      as Hrun.
    cbv zeta in Hrun. rewrite Hrun. cbn [rev app].
    rewrite dict_of_pairs_distinct by exact Hnd. reflexivity.
Qed.

Lemma push_some c r t rest :
  push c r = Some (t, rest) -> exists t', r = Some (t', rest).
Proof.
  destruct r as [[t' rest'] |]; [| discriminate].
  cbn [push]. intros H. inversion H; subst. eauto.
Qed.

(** Every scanner consumes something. *)
Lemma scanstring_shorter n :
  forall s t r,
    (length s <= n)%nat ->
    scanstring s = Some (t, r) -> (length r < length s)%nat.
Proof.
  induction n as [| n IH]; intros s t r Hn H;
    (destruct s as [| c s1]; [discriminate |]);
    [cbn [length] in Hn; lia |].
  cbn [scanstring] in H. cbv zeta in H. cbn [length] in Hn.
  repeat match goal with
         | H : None = Some _ |- _ => discriminate H
         | H : Some _ = Some _ |- _ => inversion H; subst; clear H
         | H : push _ _ = Some _ |- _ =>
             apply push_some in H as [? H]; apply IH in H;
             [| cbn [length] in *; lia]
         | H : (if ?b then _ else _) = Some _ |- _ => destruct b eqn:?
         | H : match ?x with _ => _ end = Some _ |- _ => destruct x eqn:?
         end;
    cbn [length] in *; lia.
Qed.

Lemma skip_ws_length s : (length (skip_ws s) <= length s)%nat.
Proof.
  induction s as [| c s IH]; cbn [skip_ws length]; [lia |].
  destruct (is_json_ws c); cbn [length]; lia.
Qed.

Lemma strip_prefix_length p :
  forall s r, strip_prefix p s = Some r -> length s = (length p + length r)%nat.
Proof.
  induction p as [| a p IH]; intros s r H; cbn [strip_prefix] in H.
  - inversion H. reflexivity.
  - destruct s as [| b s]; [discriminate |].
    destruct (a =? b); [| discriminate].
    apply IH in H. cbn [length]. lia.
Qed.

Lemma span_digits_length s : (length (snd (span_digits s)) <= length s)%nat.
Proof.
  induction s as [| c s IH]; cbn [span_digits]; [cbn; lia |].
  destruct (is_ascii_digit c); cbn [snd length]; lia.
Qed.

Lemma match_integer_shorter s neg d rest :
  match_integer s = Some (neg, d, rest) -> (length rest < length s)%nat.
Proof.
  unfold match_integer.
  assert (Hsig : forall sg b, (length b <= length s)%nat ->
            match b with
            | c :: b' =>
                if c =? 48 then Some (sg, [c], b')
                else if is_ascii_digit c
                     then Some (sg, c :: fst (span_digits b'),
                                snd (span_digits b'))
                     else None
            | [] => None
            end = Some (neg, d, rest) -> (length rest < length s)%nat).
  { intros sg [| c b'] Hb H; [discriminate |]. cbn [length] in Hb.
    pose proof (span_digits_length b') as Hsp.
    unfold str, char in Hb, Hsp, H |- *.
    destruct (c =? 48); [inversion H; subst; lia |].
    destruct (is_ascii_digit c); [inversion H; subst; lia | discriminate]. }
  destruct s as [| c b]; [discriminate |].
  destruct (c =? 45); cbn [fst snd];
    [apply (Hsig true b) | apply (Hsig false (c :: b))]; cbn [length];
    unfold str, char; lia.
Qed.

Lemma scan_number_shorter s v r :
  scan_number s = Value v r -> (length r < length s)%nat.
Proof.
  unfold scan_number.
  destruct (match_integer s) as [[[neg d] rest] |] eqn:E.
  - apply match_integer_shorter in E.
    destruct (has_fraction rest || has_exponent rest); [discriminate |].
    intros H. inversion H; subst. exact E.
  - destruct (is_prefix _ s || is_prefix _ s || is_prefix _ s); discriminate.
Qed.

Lemma scan_word_shorter s v r :
  scan_word s = Value v r -> (length r < length s)%nat.
Proof.
  unfold scan_word.
  destruct (strip_prefix (u "null") s) eqn:E1.
  { intros H. inversion H; subst. apply strip_prefix_length in E1.
    cbn [u length map list_ascii_of_string] in E1. lia. }
  destruct (strip_prefix (u "true") s) eqn:E2.
  { intros H. inversion H; subst. apply strip_prefix_length in E2.
    cbn [u length map list_ascii_of_string] in E2. lia. }
  destruct (strip_prefix (u "false") s) eqn:E3.
  { intros H. inversion H; subst. apply strip_prefix_length in E3.
    cbn [u length map list_ascii_of_string] in E3. lia. }
  apply scan_number_shorter.
Qed.

Lemma scan_word_bounded s : scan_word s <> TooDeep.
Proof.
  unfold scan_word, scan_number.
  repeat match goal with
         | |- context [match ?x with _ => _ end] => destruct x
         end; discriminate.
Qed.

Ltac skip_ws_cases H :=
  match type of H with
  | context [skip_ws ?s] =>
      let E := fresh "Esk" in
      let L := fresh "Lsk" in
      pose proof (skip_ws_length s) as L;
      destruct (skip_ws s) as [| ? ?] eqn:E; cbn [length] in L
  end.

Lemma scan_shorter fuel :
  (forall s v r, scan_once fuel s = Value v r -> (length r < length s)%nat)
  /\ (forall s acc v r,
         scan_items fuel s acc = Value v r -> (length r < length s)%nat)
  /\ (forall s acc v r,
         scan_pairs fuel s acc = Value v r -> (length r < length s)%nat).
Proof.
  induction fuel as [| fuel (IHo & IHi & IHp)];
    [repeat split; intros; discriminate |].
  repeat split.
  - intros [| c s1] v r H; [discriminate |]. cbn [scan_once] in H.
    cbn [length].
    destruct (c =? 34).
    { destruct (scanstring s1) as [[t rest] |] eqn:E; [| discriminate].
      inversion H; subst.
      apply (scanstring_shorter (length s1)) in E; lia. }
    destruct (c =? 123).
    { skip_ws_cases H; [discriminate |].
      destruct (_ =? 125); [inversion H; subst; lia |].
      destruct (_ =? 34); [| discriminate].
      apply IHp in H. lia. }
    destruct (c =? 91).
    { skip_ws_cases H; [discriminate |].
      destruct (_ =? 93); [inversion H; subst; lia |].
      apply IHi in H. cbn [length] in H. lia. }
    apply scan_word_shorter in H. cbn [length] in H. exact H.
  - intros s acc v r H. rewrite scan_items_eq in H.
    destruct (scan_once fuel s) as [v1 rest | | |] eqn:E; try discriminate.
    apply IHo in E.
    skip_ws_cases H; [discriminate |].
    destruct (_ =? 93); [inversion H; subst; lia |].
    destruct (_ =? 44); [| discriminate].
    apply IHi in H.
    match type of H with
    | context [skip_ws ?x] => pose proof (skip_ws_length x)
    end. lia.
  - intros s acc v r H. rewrite scan_pairs_eq in H.
    destruct (scanstring s) as [[key rest] |] eqn:E; [| discriminate].
    apply (scanstring_shorter (length s)) in E; [| lia].
    skip_ws_cases H; [discriminate |].
    destruct (_ =? 58); [| discriminate].
    match type of H with
    | context [scan_once fuel (skip_ws ?x)] =>
        pose proof (skip_ws_length x);
        destruct (scan_once fuel (skip_ws x)) as [v1 rest1 | | |] eqn:E1;
        try discriminate
    end.
    apply IHo in E1.
    skip_ws_cases H; [discriminate |].
    destruct (_ =? 125); [inversion H; subst; lia |].
    destruct (_ =? 44); [| discriminate].
    skip_ws_cases H; [discriminate |].
    destruct (_ =? 34); [| discriminate].
    apply IHp in H. lia.
Qed.

(** The bound on the calls is never what stops a scan that starts with
    twice the length of the text, and one more. *)
Lemma scan_bounded fuel :
  (forall s, (2 * length s + 1 <= fuel)%nat -> scan_once fuel s <> TooDeep)
  /\ (forall s acc,
         (2 * length s + 2 <= fuel)%nat -> scan_items fuel s acc <> TooDeep)
  /\ (forall s acc,
         (2 * length s + 2 <= fuel)%nat -> scan_pairs fuel s acc <> TooDeep).
Proof.
  induction fuel as [| fuel (IHo & IHi & IHp)];
    [repeat split; intros; lia |].
  destruct (scan_shorter fuel) as (Lo & Li & Lp).
  repeat split.
  - intros [| c s1] Hf; [discriminate |]. cbn [scan_once].
    cbn [length] in Hf.
    destruct (c =? 34).
    { destruct (scanstring s1) as [[t rest] |]; discriminate. }
    destruct (c =? 123).
    { pose proof (skip_ws_length s1) as L.
      destruct (skip_ws s1) as [| q s2]; [discriminate |].
      cbn [length] in L.
      destruct (q =? 125); [discriminate |].
      destruct (q =? 34); [| discriminate].
      apply IHp. lia. }
    destruct (c =? 91).
    { pose proof (skip_ws_length s1) as L.
      destruct (skip_ws s1) as [| q s2]; [discriminate |].
      cbn [length] in L.
      destruct (q =? 93); [discriminate |].
      apply IHi. cbn [length]. lia. }
    apply scan_word_bounded.
  - intros s acc Hf. rewrite scan_items_eq.
    pose proof (IHo s ltac:(lia)) as Ho.
    destruct (scan_once fuel s) as [v1 rest | | |] eqn:E;
      [| discriminate | discriminate | contradiction].
    apply Lo in E.
    pose proof (skip_ws_length rest) as L.
    destruct (skip_ws rest) as [| q r]; [discriminate |].
    cbn [length] in L.
    destruct (q =? 93); [discriminate |].
    destruct (q =? 44); [| discriminate].
    pose proof (skip_ws_length r). apply IHi. lia.
  - intros s acc Hf. rewrite scan_pairs_eq.
    destruct (scanstring s) as [[key rest] |] eqn:E; [| discriminate].
    apply (scanstring_shorter (length s)) in E; [| lia].
    pose proof (skip_ws_length rest) as L.
    destruct (skip_ws rest) as [| q r]; [discriminate |].
    cbn [length] in L.
    destruct (q =? 58); [| discriminate].
    pose proof (skip_ws_length r) as L1.
    pose proof (IHo (skip_ws r) ltac:(lia)) as Ho.
    destruct (scan_once fuel (skip_ws r)) as [v1 rest1 | | |] eqn:E1;
      [| discriminate | discriminate | contradiction].
    apply Lo in E1.
    pose proof (skip_ws_length rest1) as L2.
    destruct (skip_ws rest1) as [| q1 r1]; [discriminate |].
    cbn [length] in L2.
    destruct (q1 =? 125); [discriminate |].
    destruct (q1 =? 44); [| discriminate].
    pose proof (skip_ws_length r1) as L3.
    destruct (skip_ws r1) as [| q2 r2]; [discriminate |].
    cbn [length] in L3.
    destruct (q2 =? 34); [| discriminate].
    apply IHp. lia.
Qed.

Lemma skip_ws_all ws : all_ws ws -> skip_ws ws = [].
Proof.
  intros H. rewrite <- (app_nil_r ws). rewrite skip_ws_over by exact H.
  reflexivity.
Qed.

(** [json.loads] on a dumped value, white space around it or not. *)
Lemma loads_dumps indent level v before after :
  well_keyed v -> all_ws before -> all_ws after ->
  json_loads (before ++ dumps_at indent level v ++ after) = Loaded v.
Proof.
  intros Hwk Hb Ha. unfold json_loads.
  rewrite skip_ws_over by exact Hb.
  destruct (dumps_first indent level v) as (c & t & E & Hc).
  assert (Hskip : skip_ws (dumps_at indent level v ++ after)
                  = dumps_at indent level v ++ after).
  { rewrite E. cbn [app]. apply skip_ws_stop, value_start_not_ws, Hc. }
  rewrite Hskip.
  assert (Hstop : number_stop after = true).
  { rewrite <- (app_nil_r after). apply number_stop_over; [exact Ha |].
    reflexivity. }
  rewrite (dumps_reads_back v Hwk indent level after _ Hstop).
  - rewrite skip_ws_all by exact Ha. reflexivity.
  - apply (proj1 (scan_bounded _)). rewrite !length_app. lia.
Qed.

(** ** A report read back: [--only_filter_topic] *)

Lemma distinct_keys (keys : list str) :
  bool_decide (NoDup keys) = true -> NoDup keys.
Proof. apply bool_decide_eq_true_1. Qed.

Lemma header_well_keyed topic_desc a : well_keyed (header topic_desc a).
Proof.
  unfold header, conf_value, year_value. cbn [well_keyed snd map fst].
  split; [apply distinct_keys; vm_compute; reflexivity |].
  destruct (conf a), (year a); cbn [well_keyed]; tauto.
Qed.

Lemma reply_dict_well_keyed ppinfo reply :
  well_keyed reply -> well_keyed (reply_dict ppinfo reply).
Proof.
  intros H. unfold reply_dict, verdict_value. cbn [well_keyed snd map fst].
  split; [apply distinct_keys; vm_compute; reflexivity |].
  destruct (extract_conclusion reply); cbn [well_keyed]; tauto.
Qed.

Lemma classified_well_keyed e topic_desc a ppinfo_list :
  (forall i system user reply,
     judge e i system user = Some reply -> well_keyed reply) ->
  forall i, Forall well_keyed (fst (classified e topic_desc a i ppinfo_list)).
Proof.
  intros Hjudge. induction ppinfo_list as [| ppinfo more IH]; intros i;
    cbn [classified]; [constructor |].
  destruct (judge e i PPFILTER_SYSPROMPT (build_user topic_desc a ppinfo))
    as [reply |] eqn:E; cbn [fst]; [| constructor].
  constructor; [| apply IH].
  apply reply_dict_well_keyed. exact (Hjudge _ _ _ _ E).
Qed.


(** X14: a run with [--only_filter_topic] on the report of a complete run.
    When the driver ended normally and the judge's replies were values of
    JSON, then in any world where the report file is as the driver left it
    the run loads the very list the driver built and goes on as the
    exporter does on that list, writing to [papers_to_read_<time>.json]. *)
Theorem filter_only_reads_report e topic_desc a run_time ppinfo_list w replies
  w1 later w2 :
  output a <> Some [] ->
  (forall i system user reply,
     judge e i system user = Some reply -> well_keyed reply) ->
  classification_driver e topic_desc a run_time ppinfo_list w
  = (Done replies, w1) ->
  files w2 !! output_path a run_time = files w1 !! output_path a run_time ->
  main_only_filter (output_path a run_time) later w2
  = Exported (extract_papers_of_topic replies (filter_only_path later) w2).
Proof.
  intros Hout Hjudge Hrun Hsame.
  assert (Hpath : exists c s, output_path a run_time = c :: s).
  { unfold output_path. destruct (output a) as [[| c s] |];
      [contradiction (Hout eq_refl) | eauto | eexists _, _; reflexivity]. }
  pose proof (classified_well_keyed e topic_desc a ppinfo_list Hjudge 0%nat)
    as Hrecords.
  rewrite classification_driver_run in Hrun. cbv zeta in Hrun.
  destruct (snd (logged e topic_desc a 0 ppinfo_list)) eqn:Hend;
    try discriminate.
  destruct (logged_classified e topic_desc a ppinfo_list 0%nat) as [Elog _];
    [rewrite Hend; discriminate |].
  rewrite Elog in Hrun.
  destruct (final_fault e); [| discriminate | destruct (encodable _); discriminate].
  destruct (encodable _); [| discriminate].
  destruct (log_after _ _ _ !! output_jsonl_path a run_time);
    [| discriminate].
  injection Hrun as <- <-. cbn [files] in Hsame.
  rewrite lookup_delete_ne in Hsame by apply jsonl_path_fresh.
  rewrite lookup_insert_eq in Hsame.
  unfold main_only_filter. rewrite Hsame.
  destruct Hpath as (c1 & s1 & ->).
  assert (Hwk : well_keyed
                  (PList (header topic_desc a
                          :: fst (classified e topic_desc a 0 ppinfo_list)))).
  { apply well_keyed_list. constructor;
      [apply header_well_keyed | exact Hrecords]. }
  pose proof (loads_dumps (Some 4%nat) 0 _ [] [] Hwk
                ltac:(constructor) ltac:(constructor)) as Eload.
  cbn [app] in Eload. rewrite app_nil_r in Eload.
  unfold json_dumps_indent4. rewrite Eload. reflexivity.
Qed.


(** ** A whole run, from the prompt for the topic on *)

Lemma read_topic_suffix typed :
  exists used, typed = used ++ snd (read_topic typed).
Proof.
  induction typed as [| line more [used IH]]; [exists []; reflexivity |].
  cbn [read_topic]. destruct (str_eqb line []).
  - exists (line :: used). cbn [app]. rewrite <- IH. reflexivity.
  - exists [line]. reflexivity.
Qed.



Lemma export_frame replies out_path w :
  (exists used,
     answers w = used ++ answers (snd (extract_papers_of_topic replies out_path w)))
  /\ forall path,
       path <> out_path ->
       files (snd (extract_papers_of_topic replies out_path w)) !! path
       = files w !! path.
Proof.
  unfold extract_papers_of_topic.
  pose proof (ask_approved_suffix (answers w)) as [used Hused].
  destruct (ask_approved (answers w)) as [[| approved |] more];
    cbn [snd] in Hused.
  - split; [exists used; exact Hused | intros path _; reflexivity].
  - destruct (filter_replies approved replies) as [x | kept].
    + split; [exists used; exact Hused | intros path _; reflexivity].
    + unfold write_file. destruct (encodable _);
        cbn [set_file files answers fst snd];
        (split; [exists used; exact Hused |]);
        intros path Hp; apply lookup_insert_ne; congruence.
  - split; [exists used; exact Hused | intros path _; reflexivity].
Qed.

Lemma main_frame e topic_desc a run_time ppinfo_list w :
  (exists used,
     answers w
     = used ++ answers (snd (main e topic_desc a run_time ppinfo_list w)))
  /\ forall path,
       path <> output_path a run_time ->
       path <> output_jsonl_path a run_time ->
       path <> approved_path a run_time ->
       files (snd (main e topic_desc a run_time ppinfo_list w)) !! path
       = files w !! path.
Proof.
  destruct (classification_driver_frame e topic_desc a run_time ppinfo_list w)
    as [Hanswers Hfiles].
  unfold main, bind.
  destruct (classification_driver e topic_desc a run_time ppinfo_list w)
    as [[replies | x |] w1]; cbn [snd] in Hanswers, Hfiles |- *.
  - destruct (export_frame replies (approved_path a run_time) w1)
      as [[used Hused] Hother].
    split; [exists used; rewrite <- Hanswers; exact Hused |].
    intros path Ho Hl Ha. rewrite Hother by exact Ha.
    apply Hfiles; assumption.
  - split; [exists []; rewrite Hanswers; reflexivity |].
    intros path Ho Hl _. apply Hfiles; assumption.
  - split; [exists []; rewrite Hanswers; reflexivity |].
    intros path Ho Hl _. apply Hfiles; assumption.
Qed.

(** X16: the prompt for the topic returns the first line that is not
    empty, the lines before it being passed over; it raises [EOFError]
    exactly when every line typed is empty. *)
Theorem read_topic_first_nonempty typed :
  match read_topic typed with
  | (Some topic_desc, more) =>
      topic_desc <> []
      /\ exists blank,
           typed = blank ++ topic_desc :: more /\ Forall (fun l => l = []) blank
  | (None, more) => more = [] /\ Forall (fun l => l = []) typed
  end.
Proof.
  induction typed as [| line typed IH]; cbn [read_topic];
    [split; [reflexivity | constructor] |].
  unfold str_eqb. destruct (decide (line = [])) as [-> | Hne].
  - rewrite bool_decide_eq_true_2 by reflexivity.
    destruct (read_topic typed) as [[topic_desc |] more].
    + destruct IH as (Ht & blank & -> & Hblank). split; [exact Ht |].
      exists ([] :: blank). split; [reflexivity | constructor; auto].
    + destruct IH as [-> Hall]. split; [reflexivity | constructor; auto].
  - rewrite bool_decide_eq_false_2 by exact Hne.
    split; [exact Hne |]. exists []. split; [reflexivity | constructor].
Qed.



(** X19: in every outcome a whole run changes no file other than the
    report, the line log and the export, and it consumes the operator's
    answers from the front; when the operator answers [n] at the prompt to
    continue, no file is changed at all. *)
Theorem main_from_input_frame e a input run_time w :
  let run := main_from_input e a input run_time w in
  (exists used, answers w = used ++ answers (snd run))
  /\ (forall path,
        path <> output_path a run_time ->
        path <> output_jsonl_path a run_time ->
        path <> approved_path a run_time ->
        files (snd run) !! path = files w !! path)
  /\ (forall topic_desc go rest,
        read_topic (answers w) = (Some topic_desc, go :: rest) ->
        lower_is_n go = true ->
        files (snd run) = files w).
Proof.
  cbv zeta. unfold main_from_input.
  pose proof (read_topic_suffix (answers w)) as [used Hused].
  destruct (read_topic (answers w)) as [[topic_desc |] more] eqn:Htopic;
    cbn [snd] in Hused.
  2: { split; [exists used; exact Hused |].
       split; [intros; reflexivity | intros; discriminate]. }
  assert (Hsame : forall r : run_end * world,
            files (snd r) = files w ->
            (exists used0, answers w = used0 ++ answers (snd r)) ->
            (exists used0, answers w = used0 ++ answers (snd r))
            /\ (forall p0,
                  p0 <> output_path a run_time ->
                  p0 <> output_jsonl_path a run_time ->
                  p0 <> approved_path a run_time ->
                  files (snd r) !! p0 = files w !! p0)
            /\ (forall topic_desc0 go rest,
                  (Some topic_desc, more) = (Some topic_desc0, go :: rest) ->
                  lower_is_n go = true ->
                  files (snd r) = files w)).
  { intros r Hfiles Hans. split; [exact Hans |].
    split; [intros; rewrite Hfiles; reflexivity | intros; exact Hfiles]. }
  destruct input as [path |];
    [| apply Hsame; [reflexivity | exists used; exact Hused]].
  destruct (files w !! path) as [text |];
    [| apply Hsame; [reflexivity | exists used; exact Hused]].
  destruct (json_loads text) as [ppinfo_list | |];
    [| apply Hsame; [reflexivity | exists used; exact Hused] ..].
  destruct (iterate ppinfo_list) as [items |];
    [| apply Hsame; [reflexivity | exists used; exact Hused]].
  destruct more as [| continue_cmd more'];
    [apply Hsame; [reflexivity | exists used; exact Hused] |].
  destruct (lower_is_n continue_cmd) eqn:Hgo.
  { apply Hsame; [reflexivity |].
    exists (used ++ [continue_cmd]). rewrite <- app_assoc. exact Hused. }
  assert (Hnever : forall topic_desc0 go rest,
            (Some topic_desc, continue_cmd :: more')
            = (Some topic_desc0, go :: rest) ->
            lower_is_n go = true -> False).
  { intros t0 go rest E Hn. injection E as _ <- _. congruence. }
  destruct (papers_of items) as [papers [x |]].
  - rewrite classify_loop_run. cbn [fst snd files answers].
    split; [exists (used ++ [continue_cmd]); rewrite <- app_assoc; exact Hused |].
    split; [intros p0 _ Hl _; apply loop_files_other; exact Hl |].
    intros t0 go rest E Hn. destruct (Hnever t0 go rest E Hn).
  - cbn [fst snd].
    destruct (main_frame e topic_desc a run_time papers
                (World (files w) more')) as [[used1 Hused1] Hother].
    cbn [files answers] in Hused1, Hother.
    split.
    { exists (used ++ continue_cmd :: used1). rewrite <- app_assoc.
      cbn [app]. rewrite <- Hused1. exact Hused. }
    split; [exact Hother |].
    intros t0 go rest E Hn. destruct (Hnever t0 go rest E Hn).
Qed.

End Unicode.

(** ** The scenarios, run *)

Lemma str_eqb_false a b : str_eqb a b = false -> a <> b.
Proof. unfold str_eqb. intros H. apply bool_decide_eq_false in H. exact H. Qed.

(** A title holding the abstract's placeholder: the abstract is put in
    twice, and the title's own text is lost. *)
Lemma build_user_nested_placeholder :
  build_user (u "vision") sample_args paper_nested
  <> render_once (u "vision") sample_args paper_nested
  /\ build_user (u "vision") sample_args paper_nested
     = render_once (u "vision") sample_args (Paper (u "A") (u "A")).
Proof.
  split; [apply str_eqb_false|]; vm_compute; reflexivity.
Qed.

(** A title and an abstract with placeholders of earlier calls are put in
    as they are. *)
Lemma build_user_literal_once_braces :
  chain_safe (u "vision") sample_args paper_braces = true
  /\ build_user (u "vision") sample_args paper_braces
     = render_once (u "vision") sample_args paper_braces.
Proof.
  split; [reflexivity|].
  apply (build_user_literal_once (u "vision") sample_args paper_braces).
  reflexivity.
Defined.

(** A run cut short after one of two papers, over the files of an earlier
    run: the line log then holds two lines, and the final report file is
    there. *)
Lemma log_of_earlier_run_kept :
  length (fst (classified ascii_alnum_only ascii_digits_only
                 (Env judge_cut NoFault) (u "vision") sample_args 0
                 [paper_A; paper_B])) = 1%nat
  /\ fst (classification_driver ascii_alnum_only ascii_digits_only
            (Env judge_cut NoFault) (u "vision") sample_args (u "T")
            [paper_A; paper_B] (World files_of_earlier_run []))
     = Raised JudgeError
  /\ count_lines
       (default []
          (files (snd (classification_driver ascii_alnum_only ascii_digits_only
                         (Env judge_cut NoFault) (u "vision") sample_args
                         (u "T") [paper_A; paper_B]
                         (World files_of_earlier_run [])))
           !! u "out.jsonl")) = 2%nat
  /\ files (snd (classification_driver ascii_alnum_only ascii_digits_only
                   (Env judge_cut NoFault) (u "vision") sample_args
                   (u "T") [paper_A; paper_B]
                   (World files_of_earlier_run [])))
     !! u "out.json" = Some (u "[]").
Proof. repeat split; vm_compute; reflexivity. Qed.

(** Two papers and a judge that answers both calls: the report is the
    header, then the record of A, then the record of B. *)
Lemma run_report_in_order_two_papers :
  exists results,
    length results = 2%nat
    /\ fst (classify_loop ascii_alnum_only ascii_digits_only
              (Env judge_steady NoFault) (u "vision") sample_args
              (u "out.jsonl") 0 [paper_A; paper_B]
              [header (u "vision") sample_args] (World ∅ []))
       = Done (header (u "vision") sample_args :: results)
    /\ results !! 0%nat
       = Some (reply_dict ascii_alnum_only ascii_digits_only paper_A
                 (PStr (lines [u "Analysis: ..."] ++ u "Result: 1")))
    /\ results !! 1%nat
       = Some (reply_dict ascii_alnum_only ascii_digits_only paper_B
                 (PStr (lines [u "Analysis: ..."] ++ u "Result: -1"))).
Proof.
  destruct (run_report_in_order ascii_alnum_only ascii_digits_only
              (Env judge_steady NoFault) (u "vision") sample_args (u "T")
              [paper_A; paper_B] (World ∅ []))
    as (Hshape & Hreturns & _).
  destruct Hreturns as [replies Hdone].
  { intros [| [| i]] ppinfo Hp; [| | discriminate Hp];
      injection Hp as <-; eexists; (split; [reflexivity |]);
      vm_compute; reflexivity. }
  destruct (Hshape replies Hdone) as (results & -> & Hlen & Hrec & _).
  exists results. split; [exact Hlen|]. split; [exact Hdone|].
  destruct (Hrec 0%nat paper_A eq_refl) as (r0 & Hj0 & Hr0).
  destruct (Hrec 1%nat paper_B eq_refl) as (r1 & Hj1 & Hr1).
  injection Hj0 as <-. injection Hj1 as <-.
  split; [exact Hr0 | exact Hr1].
Defined.

(** The sample report filtered by the set with 1 alone: the record with a
    [None] verdict is dropped. *)
Lemma null_verdict_excluded_sample :
  filter_replies {[ 1%Z ]} sample_report = inr [record_relevant]
  /\ PDict record_null ∉ [record_relevant].
Proof.
  split; [reflexivity|].
  apply (null_verdict_excluded {[ 1%Z ]} sample_report [record_relevant]
           record_null); reflexivity.
Defined.

(** Filtering the records kept from the sample report once more. *)
Lemma filter_replies_idempotent_sample :
  filter_replies {[ 1%Z ]} sample_report = inr [record_relevant]
  /\ filter_replies {[ 1%Z ]} [record_relevant] = inr [record_relevant].
Proof.
  split; [reflexivity|].
  apply (filter_replies_idempotent {[ 1%Z ]} sample_report [record_relevant]).
  reflexivity.
Defined.

(** The header of the sample report is not among the records kept. *)
Lemma fieldless_record_excluded_sample :
  filter_replies {[ 1%Z ]} sample_report = inr [record_relevant]
  /\ header (u "vision") sample_args ∉ [record_relevant].
Proof.
  assert (Hkept : filter_replies {[ 1%Z ]} sample_report = inr [record_relevant])
    by reflexivity.
  split; [exact Hkept|].
  destruct (fieldless_record_excluded ascii_digits_only {[ 1%Z ]} sample_report
              [record_relevant] Hkept) as (_ & Hheader & _).
  apply Hheader.
Defined.

(** The answer [1,5] is accepted, with 5 in the set, and a record whose
    verdict is 5 is then exported. *)
Lemma selection_beyond_verdicts :
  exists approved,
    ask_approved ascii_digits_only [u "1,5"] = (Approved approved, [])
    /\ (5%Z ∈ approved)
    /\ (5%Z ∉ verdicts)
    /\ filter_replies approved [record_relevant; record_five]
       = inr [record_relevant; record_five].
Proof.
  exists (list_to_set [1%Z; 5%Z]).
  split; [vm_compute; reflexivity|].
  split; [rewrite elem_of_list_to_set; right; left|].
  split.
  { unfold verdicts. rewrite !elem_of_union, !elem_of_singleton. lia. }
  vm_compute. reflexivity.
Qed.

(** The end-to-end scenario: two papers, a judge answering [Result: 1] and
    then [Result: -1], the operator approving 1.  The report has the two
    verdicts in order and the export holds the record of A alone. *)
Example end_to_end_scenario :
  let run :=
    main ascii_alnum_only ascii_digits_only (Env judge_steady NoFault)
      (u "vision") sample_args (u "T") [paper_A; paper_B]
      (World ∅ [u "1"]) in
  let record ppinfo text :=
    reply_dict ascii_alnum_only ascii_digits_only ppinfo
      (PStr (lines [u "Analysis: ..."] ++ u text)) in
  fst run = Done tt
  /\ files (snd run) !! u "out.json"
     = Some (json_dumps_indent4
               (PList [header (u "vision") sample_args;
                       record paper_A "Result: 1"%string;
                       record paper_B "Result: -1"%string]))
  /\ dict_get (match record paper_A "Result: 1"%string with
               | PDict d => d | _ => [] end) (u "is_of_topic") = PInt 1
  /\ dict_get (match record paper_B "Result: -1"%string with
               | PDict d => d | _ => [] end) (u "is_of_topic") = PInt (-1)
  /\ files (snd run) !! u "papers_to_read_cvpr_2025_T.json"
     = Some (json_dumps_indent4 (PList [record paper_A "Result: 1"%string]))
  /\ files (snd run) !! u "out.jsonl" = None.
Proof. cbv zeta. repeat split; vm_compute; reflexivity. Qed.

(** The crash scenario on fresh files: cut short after one of two papers,
    the line log holds exactly one line, the record of A, and there is no
    final report. *)
Example crash_scenario :
  let run :=
    classification_driver ascii_alnum_only ascii_digits_only
      (Env judge_cut NoFault) (u "vision") sample_args (u "T")
      [paper_A; paper_B] (World ∅ []) in
  fst run = Raised JudgeError
  /\ files (snd run) !! u "out.jsonl"
     = Some (json_dumps
               (reply_dict ascii_alnum_only ascii_digits_only paper_A
                  (PStr (lines [u "Analysis: ..."] ++ u "Result: 1")))
             ++ [nl])
  /\ count_lines (default [] (files (snd run) !! u "out.jsonl")) = 1%nat
  /\ files (snd run) !! u "out.json" = None.
Proof. cbv zeta. repeat split; vm_compute; reflexivity. Qed.

(** A failed write of the final report leaves the line log in place, with
    its two lines. *)
Example failed_report_scenario :
  let run :=
    classification_driver ascii_alnum_only ascii_digits_only
      (Env judge_steady (WriteFails (u "[")))
      (u "vision") sample_args (u "T")
      [paper_A; paper_B] (World ∅ []) in
  fst run = Raised OSError
  /\ count_lines (default [] (files (snd run) !! u "out.jsonl")) = 2%nat
  /\ files (snd run) !! u "out.json" = Some (u "[").
Proof. cbv zeta. repeat split; vm_compute; reflexivity. Qed.

(** A reply with a lone surrogate for the first paper: the write to the
    line log raises, the log is there and empty, and there is no report. *)
Example surrogate_reply_scenario :
  let run :=
    classification_driver ascii_alnum_only ascii_digits_only
      (Env judge_surrogate NoFault) (u "vision") sample_args (u "T")
      [paper_A; paper_B] (World ∅ []) in
  fst run = Raised UnicodeEncodeError
  /\ files (snd run) !! u "out.jsonl" = Some []
  /\ files (snd run) !! u "out.json" = None.
Proof. cbv zeta. repeat split; vm_compute; reflexivity. Qed.

(** Such a reply for the second of two papers: the log holds the one line
    of the first, and there is no report. *)
Example surrogate_later_scenario :
  let run :=
    classification_driver ascii_alnum_only ascii_digits_only
      (Env judge_surrogate_later NoFault) (u "vision") sample_args (u "T")
      [paper_A; paper_B] (World ∅ []) in
  fst run = Raised UnicodeEncodeError
  /\ files (snd run) !! u "out.jsonl"
     = Some (json_dumps
               (reply_dict ascii_alnum_only ascii_digits_only paper_A
                  (PStr (lines [u "Analysis: ..."] ++ u "Result: 1")))
             ++ [nl])
  /\ files (snd run) !! u "out.json" = None.
Proof. cbv zeta. repeat split; vm_compute; reflexivity. Qed.

(** A kept record with a lone surrogate: the export file is emptied and the
    write raises. *)
Example surrogate_export_scenario :
  extract_papers_of_topic ascii_digits_only [record_surrogate] (u "o.json")
    (World {[ u "o.json" := u "[]" ]} [u "1"])
  = (Raised UnicodeEncodeError, World {[ u "o.json" := [] ]} []).
Proof. vm_compute. reflexivity. Qed.

(** ** The further properties, on the sample inputs *)

(** The sample report filtered by 0 and 1, then by 1 alone. *)
Lemma filter_replies_twice_sample :
  filter_replies {[ 1%Z ]} [record_relevant]
  = filter_replies (({[ 1%Z ]} ∪ {[ 0%Z ]}) ∩ {[ 1%Z ]}) sample_report.
Proof.
  apply (filter_replies_twice ({[ 1%Z ]} ∪ {[ 0%Z ]}) {[ 1%Z ]} sample_report
           [record_relevant]).
  vm_compute. reflexivity.
Defined.

(** Approving 0 beside 1 on the sample report. *)
Lemma filter_replies_monotone_sample :
  exists kept2,
    filter_replies ({[ 1%Z ]} ∪ {[ 0%Z ]}) sample_report = inr kept2
    /\ sublist [record_relevant] kept2.
Proof.
  apply (filter_replies_monotone {[ 1%Z ]} ({[ 1%Z ]} ∪ {[ 0%Z ]})
           sample_report [record_relevant]).
  - apply union_subseteq_l.
  - vm_compute. reflexivity.
Defined.

(** A word and an empty line before the selection. *)
Lemma invalid_answers_skipped_sample :
  ask_approved ascii_digits_only ([u "yes"; []] ++ [u "1"])
  = ask_approved ascii_digits_only [u "1"]
  /\ (forall replies out_path fs,
        extract_papers_of_topic ascii_digits_only replies out_path
          (World fs ([u "yes"; []] ++ [u "1"]))
        = extract_papers_of_topic ascii_digits_only replies out_path
            (World fs [u "1"]))
  /\ (forall replies out_path fs,
        extract_papers_of_topic ascii_digits_only replies out_path
          (World fs [u "yes"; []])
        = (Hangs, World fs [])).
Proof.
  apply (invalid_answers_skipped ascii_digits_only [u "yes"; []] [u "1"]).
  repeat constructor; vm_compute; reflexivity.
Defined.

(** Two papers under the default file names, the operator approving 1. *)
Lemma main_complete_run_sample :
  fst (main ascii_alnum_only ascii_digits_only (Env judge_steady NoFault)
         (u "vision") default_args (u "T") [paper_A; paper_B]
         (World ∅ [u "1"]))
  = Done tt.
Proof.
  refine (proj1 (main_complete_run ascii_alnum_only ascii_digits_only
                   (Env judge_steady NoFault) (u "vision") default_args
                   (u "T") [paper_A; paper_B] (World ∅ [u "1"]) _ _
                   _ _ _ _ _ _)).
  - reflexivity.
  - intros [| [| i]] ppinfo Hp; [| | discriminate Hp];
      injection Hp as <-; eexists; (split; [reflexivity |]);
      vm_compute; reflexivity.
  - vm_compute. reflexivity.
  - reflexivity.
  - discriminate.
  - vm_compute. reflexivity.
Defined.

(** No paper and no line log. *)
Lemma main_empty_list_sample :
  main ascii_alnum_only ascii_digits_only (Env judge_steady NoFault)
    (u "vision") sample_args (u "T") [] (World ∅ [u "1"])
  = (Raised FileNotFoundError,
     World (<[u "out.json"
              := json_dumps_indent4 (PList [header (u "vision") sample_args])]> ∅)
       [u "1"]).
Proof.
  pose proof (main_empty_list ascii_alnum_only ascii_digits_only
                (Env judge_steady NoFault) (u "vision") sample_args (u "T")
                (World ∅ [u "1"]) eq_refl) as H.
  cbv zeta in H. destruct H as [H _].
  destruct H as [H _]; [vm_compute; reflexivity |].
  apply H. reflexivity.
Defined.

(** A reply that says 1 first and ends with the line [Result: -1]. *)
Lemma final_result_line_decides_sample :
  extract_conclusion ascii_alnum_only ascii_digits_only
    (PStr (u "Result: 1, maybe" ++ nl :: u "Result: " ++ str_of_Z (-1) ++ [nl]))
  = Some (-1)%Z.
Proof.
  apply (final_result_line_decides ascii_alnum_only ascii_digits_only
           (u "Result: 1, maybe") (-1)%Z [nl]).
  - left. reflexivity.
  - right. reflexivity.
Defined.

(** The parts of [Result: **1**]. *)
Lemma extract_conclusion_sound_sample :
  exists pre tok mid post,
    u "Result: **1**" = pre ++ tok ++ mid ++ str_of_Z 1 ++ post
    /\ result_word tok /\ Forall is_sep mid
    /\ (1 = -1 \/ 1 = 0 \/ 1 = 1)%Z.
Proof.
  apply (extract_conclusion_sound ascii_alnum_only ascii_digits_only
           (u "Result: **1**") 1%Z).
  vm_compute. reflexivity.
Defined.


(** The report of a run over one paper, read by a later run. *)
Lemma filter_only_reads_report_sample :
  main_only_filter ascii_digits_only (u "out.json") (u "later")
    (snd (classification_driver ascii_alnum_only ascii_digits_only
            (Env judge_steady NoFault) (u "vision") sample_args (u "T")
            [paper_A] (World ∅ [u "1"])))
  = Exported
      (extract_papers_of_topic ascii_digits_only
         [header (u "vision") sample_args;
          reply_dict ascii_alnum_only ascii_digits_only paper_A
            (PStr (lines [u "Analysis: ..."] ++ u "Result: 1"))]
         (u "papers_to_read_later.json")
         (snd (classification_driver ascii_alnum_only ascii_digits_only
                 (Env judge_steady NoFault) (u "vision") sample_args (u "T")
                 [paper_A] (World ∅ [u "1"])))).
Proof.
  apply (filter_only_reads_report ascii_alnum_only ascii_digits_only
           (Env judge_steady NoFault) (u "vision") sample_args (u "T")
           [paper_A] (World ∅ [u "1"])
           [header (u "vision") sample_args;
            reply_dict ascii_alnum_only ascii_digits_only paper_A
              (PStr (lines [u "Analysis: ..."] ++ u "Result: 1"))]
           (snd (classification_driver ascii_alnum_only ascii_digits_only
                   (Env judge_steady NoFault) (u "vision") sample_args
                   (u "T") [paper_A] (World ∅ [u "1"])))
           (u "later")).
  - discriminate.
  - intros i system user reply H. cbn [judge] in H. unfold judge_steady in H.
    injection H as <-. exact I.
  - vm_compute. reflexivity.
  - reflexivity.
Defined.



